(** * Addon reconciliation engine of the Stremio account manager

    A shallow embedding of the addon API layer ([api/addons]), of the addon
    store ([store/addonStore]) and of the account store, together with the
    merge and removal engines they call, and the properties of the
    reconciliation engine proved on that embedding. *)

From stdpp Require Import gmap strings list fin_maps sorting pretty.

Open Scope string_scope.
Open Scope list_scope.

(** ** Data model *)

(** A JavaScript field that may be missing, [null] or set.  The account
    store's [sanitizeAddonManifest] turns [null] into [undefined]. *)
Inductive nullable (A : Type) : Type :=
  | Undefined
  | Null
  | Val (a : A).
Arguments Undefined {A}.
Arguments Null {A}.
Arguments Val {A} a.

(** [AddonManifest].  The fields [catalogs], [resources] and [behaviorHints]
    are carried along untouched by every operation below and are left out. *)
Record AddonManifest : Type := {
  m_id : string;
  m_name : string;
  m_version : string;
  m_description : string;
  m_logo : nullable string;
  m_background : nullable string;
  m_types : option (list string);
  m_idPrefixes : nullable (list string);
}.

Record AddonFlags : Type := {
  official : option bool;
  protected : option bool;
}.

Record AddonDescriptor : Type := {
  transportUrl : string;
  transportName : option string;
  manifest : AddonManifest;
  flags : option AddonFlags;
}.

Inductive SourceType : Type := SourceManual | SourceClonedFromAccount.

Record Health : Type := {
  isOnline : bool;
  lastChecked : nat;
}.

(** [SavedAddon], a template of the library.  Dates are millisecond stamps. *)
Record SavedAddon : Type := {
  sa_id : string;
  sa_name : string;
  sa_installUrl : string;
  sa_manifest : AddonManifest;
  sa_tags : list string;
  sa_createdAt : nat;
  sa_updatedAt : nat;
  sa_lastUsed : option nat;
  sa_sourceType : SourceType;
  sa_sourceAccountId : option string;
  sa_health : option Health;
}.

Inductive InstalledVia : Type := ViaSavedAddon | ViaManual.

Record InstalledAddon : Type := {
  ia_savedAddonId : option string;
  ia_addonId : string;
  ia_installUrl : string;
  ia_installedAt : nat;
  ia_installedVia : InstalledVia;
  ia_appliedTags : option (list string);
}.

Record AccountAddonState : Type := {
  st_accountId : string;
  st_installedAddons : list InstalledAddon;
  st_lastSync : nat;
}.

Inductive MergeStrategy : Type := ReplaceMatching | AddOnly.

Record MergeEntry : Type := {
  addonId : string;
  name : string;
}.

Record MergeResult : Type := {
  mr_added : list MergeEntry;
  mr_updated : list MergeEntry;
  mr_skipped : list MergeEntry;
  mr_protected : list MergeEntry;
}.

Record BulkError : Type := {
  be_accountId : string;
  be_error : string;
}.

Record BulkDetail : Type := {
  bd_accountId : string;
  bd_result : MergeResult;
}.

Record BulkResult : Type := {
  success : nat;
  failed : nat;
  errors : list BulkError;
  details : list BulkDetail;
}.

#[global] Instance nullable_eq_dec {A} `{EqDecision A} : EqDecision (nullable A).
Proof. solve_decision. Defined.
#[global] Instance AddonManifest_eq_dec : EqDecision AddonManifest.
Proof. solve_decision. Defined.
#[global] Instance AddonFlags_eq_dec : EqDecision AddonFlags.
Proof. solve_decision. Defined.
#[global] Instance AddonDescriptor_eq_dec : EqDecision AddonDescriptor.
Proof. solve_decision. Defined.

(** [addon.manifest.id], the identity of an installed addon. *)
Definition addon_id (a : AddonDescriptor) : string := m_id (manifest a).

(** [addon.flags?.protected] and [addon.flags?.official] read as conditions:
    true only when the flag object is there and the flag is [true]. *)
Definition isProtected (a : AddonDescriptor) : bool :=
  match flags a with
  | Some f => match protected f with Some true => true | _ => false end
  | None => false
  end.

Definition isOfficial (a : AddonDescriptor) : bool :=
  match flags a with
  | Some f => match official f with Some true => true | _ => false end
  | None => false
  end.

(** ** Merge engine *)

Module Merger.

(** Modelled from the spec: the module [lib/addon-merger] ([mergeAddons],
    [removeAddons]) is imported by the addon store but its text is not part
    of the sources.  The definitions follow section 4.1 and 4.2 of the
    specification: the templates are visited in order; each is looked up by
    [manifest.id] in the collection being built; a protected match is logged
    under [protected] and kept; otherwise a match is replaced at its index
    ([replace-matching]) or kept and logged under [skipped] ([add-only]); a
    template without a match is appended. *)
Definition descriptorOf (t : SavedAddon) : AddonDescriptor :=
  {| transportUrl := sa_installUrl t;
     transportName := None;
     manifest := sa_manifest t;
     flags := None |}.

Definition template_id (t : SavedAddon) : string := m_id (sa_manifest t).

Definition entryOf (t : SavedAddon) : MergeEntry :=
  {| addonId := template_id t; name := m_name (sa_manifest t) |}.

Definition emptyMergeResult : MergeResult :=
  {| mr_added := []; mr_updated := []; mr_skipped := []; mr_protected := [] |}.

Definition logAdded (e : MergeEntry) (r : MergeResult) : MergeResult :=
  {| mr_added := mr_added r ++ [e]; mr_updated := mr_updated r;
     mr_skipped := mr_skipped r; mr_protected := mr_protected r |}.

Definition logUpdated (e : MergeEntry) (r : MergeResult) : MergeResult :=
  {| mr_added := mr_added r; mr_updated := mr_updated r ++ [e];
     mr_skipped := mr_skipped r; mr_protected := mr_protected r |}.

Definition logSkipped (e : MergeEntry) (r : MergeResult) : MergeResult :=
  {| mr_added := mr_added r; mr_updated := mr_updated r;
     mr_skipped := mr_skipped r ++ [e]; mr_protected := mr_protected r |}.

Definition logProtected (e : MergeEntry) (r : MergeResult) : MergeResult :=
  {| mr_added := mr_added r; mr_updated := mr_updated r;
     mr_skipped := mr_skipped r; mr_protected := mr_protected r ++ [e] |}.

(** Modelled from the spec: the lookup of a [manifest.id] in a collection,
    giving the first index that carries it. *)
Definition findById (i : string) (c : list AddonDescriptor)
  : option (nat * AddonDescriptor) :=
  list_find (fun a => addon_id a = i) c.

(** Modelled from the spec: one template applied to the collection built so
    far (section 4.1, the three cases and the protected edge case). *)
Definition mergeStep (strategy : MergeStrategy)
    (acc : list AddonDescriptor * MergeResult) (t : SavedAddon)
  : list AddonDescriptor * MergeResult :=
  match findById (template_id t) acc.1 with
  | Some (i, existing) =>
      if isProtected existing then (acc.1, logProtected (entryOf t) acc.2)
      else match strategy with
           | ReplaceMatching =>
               (<[i := descriptorOf t]> acc.1, logUpdated (entryOf t) acc.2)
           | AddOnly => (acc.1, logSkipped (entryOf t) acc.2)
           end
  | None => (acc.1 ++ [descriptorOf t], logAdded (entryOf t) acc.2)
  end.

(** Modelled from the spec: [mergeAddons(currentAddons, savedAddons,
    strategy)] of [lib/addon-merger], returning the new collection and the
    log. *)
Definition mergeAddons (currentAddons : list AddonDescriptor)
    (savedAddons : list SavedAddon) (strategy : MergeStrategy)
  : list AddonDescriptor * MergeResult :=
  foldl (mergeStep strategy) (currentAddons, emptyMergeResult) savedAddons.

(** Modelled from the spec: [removeAddons(currentAddons, addonIds)] of
    [lib/addon-merger] (section 4.2).  The requested ids are split into the
    protected ones (the descriptor found for the id has [flags.protected]) and
    the removable ones; the collection is filtered to drop the removable
    matches; the protected ids are returned apart. *)
Definition isProtectedId (c : list AddonDescriptor) (i : string) : bool :=
  match findById i c with
  | Some (_, a) => isProtected a
  | None => false
  end.

Definition removeAddons (currentAddons : list AddonDescriptor)
    (addonIds : list string) : list AddonDescriptor * list string :=
  let protectedIds :=
    filter (fun i => isProtectedId currentAddons i = true) addonIds in
  let removableIds :=
    filter (fun i => isProtectedId currentAddons i = false) addonIds in
  (filter (fun a => addon_id a ∉ removableIds) currentAddons, protectedIds).

End Merger.

(** ** Effects: state and exceptions *)

(** A JavaScript call either returns or throws an [Error]; the thrown value
    is kept as its message. *)
Inductive Result (A : Type) : Type :=
  | Ok (a : A)
  | Throw (message : string).
Arguments Ok {A} a.
Arguments Throw {A} message.

(** Computations over a state [S]: the state reached is kept when the
    computation throws, as an object mutated before a [throw] stays mutated. *)
Definition M (S A : Type) : Type := S -> Result A * S.

#[global] Instance M_ret {S} : MRet (M S) := fun A a s => (Ok a, s).

#[global] Instance M_bind {S} : MBind (M S) := fun A B f m s =>
  match m s with
  | (Ok a, s') => f a s'
  | (Throw e, s') => (Throw e, s')
  end.

Definition throw {S A} (e : string) : M S A := fun s => (Throw e, s).

(** [try { body } catch (error) { handler }] *)
Definition try_catch {S A} (body : M S A) (handler : string -> M S A) : M S A :=
  fun s =>
    match body s with
    | (Ok a, s') => (Ok a, s')
    | (Throw e, s') => handler e s'
    end.

(** [try { body } finally { final }] *)
Definition try_finally {S A} (body : M S A) (final : M S unit) : M S A :=
  fun s =>
    match body s with
    | (r, s') =>
        match final s' with
        | (Ok _, s'') => (r, s'')
        | (Throw e, s'') => (Throw e, s'')
        end
    end.

Definition gets {S A} (f : S -> A) : M S A := fun s => (Ok (f s), s).
Definition modify {S} (f : S -> S) : M S unit := fun s => (Ok tt, f s).

(** A function body with a mutable local of type [L] beside the state [S]. *)
Definition liftW {L S A} (m : M S A) : M (L * S) A :=
  fun ls =>
    match m ls.2 with
    | (r, s') => (r, (ls.1, s'))
    end.

Definition getLocal {L S} : M (L * S) L := gets fst.
Definition modifyLocal {L S} (f : L -> L) : M (L * S) unit :=
  modify (fun ls => (f ls.1, ls.2)).

Definition withLocal {L S A} (l0 : L) (m : M (L * S) A) : M S A :=
  fun s =>
    match m (l0, s) with
    | (r, ls) => (r, ls.2)
    end.

(** ** The outside world *)

(** What the environment decides for one network or storage round trip: the
    time it takes and whether it fails. *)
Inductive Fault : Type :=
  | Http401
  | Http404
  | NetworkFault
  | OtherFault (message : string).

Record Event : Type := {
  elapsed : nat;
  fault : option Fault;
}.

(** The round trips made, in order. *)
Inductive Call : Type :=
  | AddonCollectionGet (authKey : string)
  | AddonCollectionSet (authKey : string) (addons : list AddonDescriptor)
  | ManifestGet (url : string)
  | HealthProbe (url : string)
  | SaveAddonLibrary
  | SaveAccountAddonStates
  | SaveAccounts.

(** The remote service, the addon servers, the clock and the session key.
    [script] gives the outcome of the round trips still to come (a round trip
    beyond the script succeeds at once); [cipher] is what the stored
    ciphertexts decrypt to. *)
Record Env : Type := {
  remote : gmap string (list AddonDescriptor);
  served : gmap string AddonManifest;
  online : gmap string bool;
  script : list Event;
  clock : nat;
  calls : list Call;
  encryptionKey : option string;
  cipher : gmap string string;
}.

Inductive AccountStatus : Type := Active | InError.

Record StremioAccount : Type := {
  acc_id : string;
  acc_name : string;
  acc_email : option string;
  acc_authKey : string;
  acc_password : option string;
  acc_addons : list AddonDescriptor;
  acc_lastSync : nat;
  acc_status : AccountStatus;
}.

(** The library and the ledger are object literals keyed by strings; the
    maps below hold their own entries.  A read [object[key]] of a key that
    is not an own entry answers with the member of [Object.prototype] of
    that name when there is one, and with [undefined] otherwise: [l !! key]
    is that read for every key that is not one of the names below.  The ids
    of the data model are UUIDs, which are none of them. *)
Definition objectPrototypeKeys : list string :=
  ["constructor"; "__defineGetter__"; "__defineSetter__"; "hasOwnProperty";
   "__lookupGetter__"; "__lookupSetter__"; "isPrototypeOf";
   "propertyIsEnumerable"; "toString"; "valueOf"; "__proto__";
   "toLocaleString"].

(** State of the addon store ([useAddonStore]). *)
Record AddonStore : Type := {
  library : gmap string SavedAddon;
  accountStates : gmap string AccountAddonState;
  loading : bool;
  error : option string;
  checkingHealth : bool;
}.

(** State of the account store ([useAccountStore]). *)
Record AccountStore : Type := {
  accounts : list StremioAccount;
  as_loading : bool;
  as_error : option string;
}.

Record World : Type := {
  env : Env;
  addonStore : AddonStore;
  accountStore : AccountStore;
}.

Definition setEnv (f : Env -> Env) (w : World) : World :=
  {| env := f (env w); addonStore := addonStore w; accountStore := accountStore w |}.

Definition setAddonStore (f : AddonStore -> AddonStore) (w : World) : World :=
  {| env := env w; addonStore := f (addonStore w); accountStore := accountStore w |}.

Definition setAccountStore (f : AccountStore -> AccountStore) (w : World) : World :=
  {| env := env w; addonStore := addonStore w; accountStore := f (accountStore w) |}.

(** One round trip: the call is logged, the next event of the script is
    consumed and its time passes. *)
Definition nextEvent (e : Env) : Event :=
  match script e with
  | ev :: _ => ev
  | [] => {| elapsed := 0; fault := None |}
  end.

Definition afterTrip (c : Call) (e : Env) : Env :=
  {| remote := remote e; served := served e; online := online e;
     script := tail (script e);
     clock := clock e + elapsed (nextEvent e);
     calls := calls e ++ [c];
     encryptionKey := encryptionKey e; cipher := cipher e |}.

Definition roundTrip (c : Call) : M World (option Fault) :=
  fun w => (Ok (fault (nextEvent (env w))), setEnv (afterTrip c) w).

(** [setTimeout] wait of the retry loop. *)
Definition sleep (ms : nat) : M World unit :=
  modify (setEnv (fun e =>
    {| remote := remote e; served := served e; online := online e;
       script := script e; clock := clock e + ms; calls := calls e;
       encryptionKey := encryptionKey e; cipher := cipher e |})).

(** [new Date()] *)
Definition newDate : M World nat := gets (fun w => clock (env w)).

Definition storeRemote (authKey : string) (c : list AddonDescriptor) : M World unit :=
  modify (setEnv (fun e =>
    {| remote := <[authKey := c]> (remote e); served := served e;
       online := online e; script := script e; clock := clock e;
       calls := calls e; encryptionKey := encryptionKey e; cipher := cipher e |})).

(** The message of the error a failed request is turned into by the methods
    of the service client: a 401 and a network failure have their own text,
    any other failure keeps its message, or gets [fallback] when it has
    none. *)
Definition clientMessage (f : Fault) (fallback : string) : string :=
  match f with
  | Http401 => "Invalid or expired auth key"
  | Http404 => "Request failed with status code 404"
  | NetworkFault =>
      "Network error - check your internet connection or CORS configuration"
  | OtherFault msg => if decide (msg = "") then fallback else msg
  end.

(** [error.message || fallback] of a failed request taken as it is. *)
Definition faultMessage (f : Fault) (fallback : string) : string :=
  match f with
  | Http401 => "Request failed with status code 401"
  | Http404 => "Request failed with status code 404"
  | NetworkFault => "Network Error"
  | OtherFault msg => if decide (msg = "") then fallback else msg
  end.

(** ** The service client ([api/stremio-client]) *)

Module StremioClient.

(** [getAddonCollection]: one round trip; a failed request throws, an unknown
    key is answered by an error of the service, and the stored collection is
    returned otherwise. *)
Definition getAddonCollection (authKey : string) : M World (list AddonDescriptor) :=
  f ← roundTrip (AddonCollectionGet authKey);
  match f with
  | Some flt => throw (clientMessage flt "Failed to get addon collection")
  | None =>
      r ← gets (fun w => remote (env w) !! authKey);
      match r with
      | Some c => mret c
      | None => throw "Failed to get addon collection"
      end
  end.

(** [setAddonCollection]: one round trip; on success the service holds the
    collection that was sent. *)
Definition setAddonCollection (authKey : string) (addons : list AddonDescriptor)
  : M World unit :=
  f ← roundTrip (AddonCollectionSet authKey addons);
  match f with
  | Some flt => throw (clientMessage flt "Failed to set addon collection")
  | None =>
      r ← gets (fun w => remote (env w) !! authKey);
      match r with
      | Some _ => storeRemote authKey addons
      | None => throw "Failed to set addon collection"
      end
  end.

(** The attempts of [fetchAddonManifest]: attempt [i] waits [1000 * i] ms
    when it is a retry, asks the addon server, and either returns the
    descriptor, gives up on a 404, or records the error and goes on; when no
    attempt is left the last error is thrown.  The manifest URL and the proxy
    URL are derived from [transportUrl] alone, so the addon servers are keyed
    by [transportUrl]. *)
Fixpoint fetchAttempts (transportUrl : string) (left i : nat) (lastError : string)
  : M World AddonDescriptor :=
  match left with
  | 0 => throw lastError
  | S left' =>
      (if decide (0 < i) then sleep (1000 * i) else mret tt);;
      f ← roundTrip (ManifestGet transportUrl);
      match f with
      | Some Http404 => throw "Addon manifest not found at this URL"
      | Some flt =>
          fetchAttempts transportUrl left' (S i)
            (faultMessage flt "Failed to fetch addon manifest after retries")
      | None =>
          d ← gets (fun w => served (env w) !! transportUrl);
          match d with
          | None =>
              fetchAttempts transportUrl left' (S i)
                "Invalid addon manifest - could not parse JSON"
          | Some m =>
              if decide (m_id m = "" ∨ m_name m = "" ∨ m_version m = "")
              then fetchAttempts transportUrl left' (S i)
                     "Invalid addon manifest - missing required fields"
              else mret {| transportUrl := transportUrl; transportName := None;
                           manifest := m; flags := None |}
          end
      end
  end.

(** [fetchAddonManifest(transportUrl, retries = 2)] *)
Definition fetchAddonManifest (transportUrl : string) : M World AddonDescriptor :=
  fetchAttempts transportUrl 3 0 "".

(** [fetchAddonManifest] from the answer to its first request on: the same
    body of the loop for [i = 0], then the two retries it may still make. *)
Definition afterFirstRequest (transportUrl : string) (f : option Fault)
  : M World AddonDescriptor :=
  match f with
  | Some Http404 => throw "Addon manifest not found at this URL"
  | Some flt =>
      fetchAttempts transportUrl 2 1
        (faultMessage flt "Failed to fetch addon manifest after retries")
  | None =>
      d ← gets (fun w => served (env w) !! transportUrl);
      match d with
      | None =>
          fetchAttempts transportUrl 2 1
            "Invalid addon manifest - could not parse JSON"
      | Some m =>
          if decide (m_id m = "" ∨ m_name m = "" ∨ m_version m = "")
          then fetchAttempts transportUrl 2 1
                 "Invalid addon manifest - missing required fields"
          else mret {| transportUrl := transportUrl; transportName := None;
                       manifest := m; flags := None |}
      end
  end.

End StremioClient.

(** Modelled from the spec: [checkAddonHealth] of [lib/addon-health] is not
    part of the sources; section 6 gives [checkReachable(url) -> bool], which
    never throws and answers [false] for an unreachable address. *)
Definition checkAddonHealth (url : string) : M World bool :=
  f ← roundTrip (HealthProbe url);
  match f with
  | Some _ => mret false
  | None => gets (fun w => default false (online (env w) !! url))
  end.

(** A [for ... of] loop. *)
Fixpoint forEach {S A} (body : A -> M S unit) (l : list A) : M S unit :=
  match l with
  | [] => mret tt
  | x :: rest => body x;; forEach body rest
  end.

(** ** The addon API ([api/addons]) *)

Module Api.

Definition getAddons (authKey : string) : M World (list AddonDescriptor) :=
  StremioClient.getAddonCollection authKey.

Definition updateAddons (authKey : string) (addons : list AddonDescriptor)
  : M World unit :=
  StremioClient.setAddonCollection authKey addons.

Definition installAddon (authKey addonUrl : string) : M World (list AddonDescriptor) :=
  newAddon ← StremioClient.fetchAddonManifest addonUrl;
  currentAddons ← getAddons authKey;
  let updatedAddons :=
    match list_find (fun a => addon_id a = addon_id newAddon) currentAddons with
    | Some (existingIndex, _) => <[existingIndex := newAddon]> currentAddons
    | None => currentAddons ++ [newAddon]
    end in
  updateAddons authKey updatedAddons;;
  mret updatedAddons.

Definition removeAddon (authKey addonId : string) : M World (list AddonDescriptor) :=
  currentAddons ← getAddons authKey;
  let updatedAddons := filter (fun a => addon_id a ≠ addonId) currentAddons in
  updateAddons authKey updatedAddons;;
  mret updatedAddons.

Record ReinstallResult : Type := {
  rr_addons : list AddonDescriptor;
  rr_updatedAddon : option AddonDescriptor;
  rr_previousVersion : option string;
  rr_newVersion : option string;
}.

(** [array.splice(index, 0, x)]: [x] is put at [index], or at the end when the
    array is shorter. *)
Definition spliceIn {A} (index : nat) (x : A) (l : list A) : list A :=
  take index l ++ x :: drop index l.

Definition reinstallAddon (authKey addonId : string) : M World ReinstallResult :=
  currentAddons ← getAddons authKey;
  match list_find (fun a => addon_id a = addonId) currentAddons with
  | None =>
      mret {| rr_addons := currentAddons; rr_updatedAddon := None;
              rr_previousVersion := None; rr_newVersion := None |}
  | Some (addonIndex, existingAddon) =>
      if isProtected existingAddon then
        mret {| rr_addons := currentAddons; rr_updatedAddon := None;
                rr_previousVersion := None; rr_newVersion := None |}
      else
        let previousVersion := m_version (manifest existingAddon) in
        let transportUrl := transportUrl existingAddon in
        removeAddon authKey addonId;;
        addonsAfterInstall ← installAddon authKey transportUrl;
        match list_find (fun a => addon_id a = addonId) addonsAfterInstall with
        | Some (_, reinstalledAddon) =>
            if decide (addonIndex < length addonsAfterInstall - 1) then
              let addonsWithoutReinstalled :=
                filter (fun a => addon_id a ≠ addonId) addonsAfterInstall in
              let reorderedAddons :=
                spliceIn addonIndex reinstalledAddon addonsWithoutReinstalled in
              updateAddons authKey reorderedAddons;;
              finalAddons ← getAddons authKey;
              let finalAddon :=
                snd <$> list_find (fun a => addon_id a = addonId) finalAddons in
              mret {| rr_addons := finalAddons; rr_updatedAddon := finalAddon;
                      rr_previousVersion := Some previousVersion;
                      rr_newVersion := (fun a => m_version (manifest a)) <$> finalAddon |}
            else
              mret {| rr_addons := addonsAfterInstall;
                      rr_updatedAddon := Some reinstalledAddon;
                      rr_previousVersion := Some previousVersion;
                      rr_newVersion := Some (m_version (manifest reinstalledAddon)) |}
        | None =>
            mret {| rr_addons := addonsAfterInstall; rr_updatedAddon := None;
                    rr_previousVersion := Some previousVersion;
                    rr_newVersion := None |}
        end
  end.

Record AddonUpdateInfo : Type := {
  ui_addonId : string;
  ui_name : string;
  ui_transportUrl : string;
  ui_installedVersion : string;
  ui_latestVersion : string;
  ui_hasUpdate : bool;
  ui_isOnline : bool;
}.

(** The addons [checkAddonUpdates] looks at: neither protected nor official. *)
Definition checkable (a : AddonDescriptor) : bool :=
  negb (isProtected a) && negb (isOfficial a).

(** [Promise.all] of the manifest fetch and the health probe of one addon.
    Both are started before anything is awaited: the fetch sends its first
    request, the probe is sent next, and the retries of the fetch, if its
    first request failed, come after the probe. *)
Definition fetchAndProbe (url : string) : M World (AddonDescriptor * bool) :=
  fun w =>
    match roundTrip (ManifestGet url) w with
    | (Throw e, w1) => (Throw e, w1)
    | (Ok f, w1) =>
        match checkAddonHealth url w1 with
        | (r2, w2) =>
            match StremioClient.afterFirstRequest url f w2 with
            | (r1, w3) =>
                match r1, r2 with
                | Ok latestManifest, Ok isOnline =>
                    (Ok (latestManifest, isOnline), w3)
                | Throw e, _ => (Throw e, w3)
                | _, Throw e => (Throw e, w3)
                end
            end
        end
    end.

(** The body of the loop of [checkAddonUpdates] for one addon; [results] is
    the local array. *)
Definition checkOne (addon : AddonDescriptor)
  : M (list AddonUpdateInfo * World) unit :=
  try_catch
    (p ← liftW (fetchAndProbe (transportUrl addon));
     let latestManifest := p.1 in
     let hasUpdate :=
       bool_decide (m_version (manifest latestManifest) ≠ m_version (manifest addon)) in
     modifyLocal (fun results => results ++
       [{| ui_addonId := addon_id addon;
           ui_name := m_name (manifest addon);
           ui_transportUrl := transportUrl addon;
           ui_installedVersion := m_version (manifest addon);
           ui_latestVersion := m_version (manifest latestManifest);
           ui_hasUpdate := hasUpdate;
           ui_isOnline := p.2 |}]))
    (fun _ => mret tt).

Definition checkAddonUpdates (addons : list AddonDescriptor)
  : M World (list AddonUpdateInfo) :=
  let checkableAddons := filter (fun a => checkable a = true) addons in
  withLocal [] (forEach checkOne checkableAddons;; getLocal).

End Api.

(** ** The addon store ([store/addonStore]) *)

Module AddonStoreOps.

Definition setLibrary (l : gmap string SavedAddon) : M World unit :=
  modify (setAddonStore (fun s =>
    {| library := l; accountStates := accountStates s; loading := loading s;
       error := error s; checkingHealth := checkingHealth s |})).

Definition setAccountStates (a : gmap string AccountAddonState) : M World unit :=
  modify (setAddonStore (fun s =>
    {| library := library s; accountStates := a; loading := loading s;
       error := error s; checkingHealth := checkingHealth s |})).

Definition setLoading (b : bool) : M World unit :=
  modify (setAddonStore (fun s =>
    {| library := library s; accountStates := accountStates s; loading := b;
       error := error s; checkingHealth := checkingHealth s |})).

Definition setError (e : option string) : M World unit :=
  modify (setAddonStore (fun s =>
    {| library := library s; accountStates := accountStates s;
       loading := loading s; error := e; checkingHealth := checkingHealth s |})).

(** [getEncryptionKey]: the key of the auth store, or ['App is locked']. *)
Definition getEncryptionKey : M World string :=
  k ← gets (fun w => encryptionKey (env w));
  match k with
  | Some key => mret key
  | None => throw "App is locked"
  end.

(** Modelled from the spec: [decrypt] of [lib/crypto] is not part of the
    sources; section 6 gives [decrypt(ciphertext, sessionKey) -> plaintext].
    A ciphertext the key does not open makes it throw. *)
Definition decrypt (ciphertext key : string) : M World string :=
  p ← gets (fun w => cipher (env w) !! ciphertext);
  match p with
  | Some plaintext => mret plaintext
  | None => throw "Decryption failed"
  end.

(** Modelled from the spec: [saveAddonLibrary] and [saveAccountAddonStates] of
    [lib/addon-storage] are not part of the sources; section 6 gives them as
    opaque writes to the persistent storage, which may fail. *)
Definition saveAddonLibrary (l : gmap string SavedAddon) : M World unit :=
  f ← roundTrip SaveAddonLibrary;
  match f with
  | Some flt => throw (faultMessage flt "Failed to save addon library")
  | None => mret tt
  end.

Definition saveAccountAddonStates (a : gmap string AccountAddonState) : M World unit :=
  f ← roundTrip SaveAccountAddonStates;
  match f with
  | Some flt => throw (faultMessage flt "Failed to save account states")
  | None => mret tt
  end.

(** Modelled from the spec: [findSavedAddonByUrl] of [lib/addon-storage] is
    not part of the sources; section 4.3 gives it as a scan of the library
    for an entry with [installUrl === transportUrl]. *)
Definition findSavedAddonByUrl (l : gmap string SavedAddon) (url : string)
  : option SavedAddon :=
  snd <$> list_find (fun s => sa_installUrl s = url) (snd <$> map_to_list l).

Definition withInstallUrl (url : string) (a : InstalledAddon) : InstalledAddon :=
  {| ia_savedAddonId := ia_savedAddonId a; ia_addonId := ia_addonId a;
     ia_installUrl := url; ia_installedAt := ia_installedAt a;
     ia_installedVia := ia_installedVia a; ia_appliedTags := ia_appliedTags a |}.

(** [matchingSavedAddon?.id || null] *)
Definition idOrNull (matching : option SavedAddon) : option string :=
  match matching with
  | Some s => if decide (sa_id s = "") then None else Some (sa_id s)
  | None => None
  end.

(** The ledger entry of an addon with no earlier entry. *)
Definition newEntry (matching : option SavedAddon) (addon : AddonDescriptor)
    (now : nat) : InstalledAddon :=
  {| ia_savedAddonId := idOrNull matching;
     ia_addonId := addon_id addon;
     ia_installUrl := transportUrl addon;
     ia_installedAt := now;
     ia_installedVia :=
       match matching with Some _ => ViaSavedAddon | None => ViaManual end;
     ia_appliedTags := sa_tags <$> matching |}.

(** [existingState?.installedAddons.find((a) => a.addonId === id)] *)
Definition findExisting (existingState : option AccountAddonState) (i : string)
  : option InstalledAddon :=
  st ← existingState;
  snd <$> list_find (fun a => ia_addonId a = i) (st_installedAddons st).

(** The body of the loop of [syncAccountState] for one live addon;
    [installedAddons] is the local array. *)
Definition syncOne (existingState : option AccountAddonState)
    (addon : AddonDescriptor) : M (list InstalledAddon * World) unit :=
  match findExisting existingState (addon_id addon) with
  | Some existing =>
      modifyLocal (fun installedAddons =>
        installedAddons ++ [withInstallUrl (transportUrl addon) existing])
  | None =>
      l ← liftW (gets (fun w => library (addonStore w)));
      let matchingSavedAddon := findSavedAddonByUrl l (transportUrl addon) in
      now ← liftW newDate;
      modifyLocal (fun installedAddons =>
        installedAddons ++ [newEntry matchingSavedAddon addon now])
  end.

Definition syncAccountState (accountId accountAuthKey : string) : M World unit :=
  try_catch
    (key ← getEncryptionKey;
     authKey ← decrypt accountAuthKey key;
     currentAddons ← Api.getAddons authKey;
     existingState ← gets (fun w => accountStates (addonStore w) !! accountId);
     installedAddons ←
       withLocal [] (forEach (syncOne existingState) currentAddons;; getLocal);
     now ← newDate;
     let state := {| st_accountId := accountId;
                     st_installedAddons := installedAddons;
                     st_lastSync := now |} in
     states ← gets (fun w => accountStates (addonStore w));
     let accountStates := <[accountId := state]> states in
     setAccountStates accountStates;;
     saveAccountAddonStates accountStates)
    (fun e => throw e).

(** An account as the bulk operations receive it: [{ id, authKey }]. *)
Record AccountRef : Type := {
  ar_id : string;
  ar_authKey : string;
}.

Definition emptyBulkResult : BulkResult :=
  {| success := 0; failed := 0; errors := []; details := [] |}.

Definition incSuccess (r : BulkResult) : BulkResult :=
  {| success := S (success r); failed := failed r;
     errors := errors r; details := details r |}.

Definition pushDetail (d : BulkDetail) (r : BulkResult) : BulkResult :=
  {| success := success r; failed := failed r;
     errors := errors r; details := details r ++ [d] |}.

Definition incFailed (r : BulkResult) : BulkResult :=
  {| success := success r; failed := S (failed r);
     errors := errors r; details := details r |}.

Definition pushError (e : BulkError) (r : BulkResult) : BulkResult :=
  {| success := success r; failed := failed r;
     errors := errors r ++ [e]; details := details r |}.

(** The [catch] block of both bulk loops. *)
Definition recordFailure (accountId : string) (e : string)
  : M (BulkResult * World) unit :=
  modifyLocal incFailed;;
  modifyLocal (pushError {| be_accountId := accountId; be_error := e |}).

(** The body of the loop of [bulkApplySavedAddons] for one account; [result]
    is the local object. *)
Definition applyToAccount (savedAddons : list SavedAddon) (strategy : MergeStrategy)
    (account : AccountRef) : M (BulkResult * World) unit :=
  try_catch
    (key ← liftW getEncryptionKey;
     authKey ← liftW (decrypt (ar_authKey account) key);
     currentAddons ← liftW (Api.getAddons authKey);
     let merged := Merger.mergeAddons currentAddons savedAddons strategy in
     liftW (Api.updateAddons authKey merged.1);;
     modifyLocal incSuccess;;
     modifyLocal (pushDetail {| bd_accountId := ar_id account;
                                bd_result := merged.2 |});;
     liftW (syncAccountState (ar_id account) (ar_authKey account)))
    (recordFailure (ar_id account)).

Definition withLastUsed (now : nat) (s : SavedAddon) : SavedAddon :=
  {| sa_id := sa_id s; sa_name := sa_name s; sa_installUrl := sa_installUrl s;
     sa_manifest := sa_manifest s; sa_tags := sa_tags s;
     sa_createdAt := sa_createdAt s; sa_updatedAt := sa_updatedAt s;
     sa_lastUsed := Some now; sa_sourceType := sa_sourceType s;
     sa_sourceAccountId := sa_sourceAccountId s; sa_health := sa_health s |}.

(** [library[savedAddon.id] = { ...savedAddon, lastUsed: new Date() }] on the
    local copy of the library. *)
Definition stampOne (savedAddon : SavedAddon)
  : M (gmap string SavedAddon * World) unit :=
  now ← liftW newDate;
  modifyLocal (fun l => <[sa_id savedAddon := withLastUsed now savedAddon]> l).

(** [bulkApplySavedAddons]; the requested ids are looked up as library ids
    (none of [objectPrototypeKeys]). *)
Definition bulkApplySavedAddons (savedAddonIds : list string)
    (accountIds : list AccountRef) (strategy : MergeStrategy)
  : M World BulkResult :=
  setLoading true;; setError None;;
  try_finally
    (try_catch
       (l ← gets (fun w => library (addonStore w));
        let savedAddons := omap (fun i => l !! i) savedAddonIds in
        if decide (length savedAddons = 0) then
          throw "No valid saved addons found"
        else
          withLocal emptyBulkResult
            (forEach (applyToAccount savedAddons strategy) accountIds;;
             l0 ← liftW (gets (fun w => library (addonStore w)));
             library ← liftW (withLocal l0 (forEach stampOne savedAddons;; getLocal));
             liftW (setLibrary library);;
             liftW (saveAddonLibrary library);;
             getLocal))
       (fun e => setError (Some e);; throw e))
    (setLoading false).

(** [currentAddons.find((a) => a.manifest.id === id)?.manifest.name || id] *)
Definition nameOrId (currentAddons : list AddonDescriptor) (i : string) : string :=
  match list_find (fun a => addon_id a = i) currentAddons with
  | Some (_, a) => if decide (m_name (manifest a) = "") then i else m_name (manifest a)
  | None => i
  end.

(** The body of the loop of [bulkRemoveAddons] for one account. *)
Definition removeFromAccount (addonIds : list string) (account : AccountRef)
  : M (BulkResult * World) unit :=
  try_catch
    (key ← liftW getEncryptionKey;
     authKey ← liftW (decrypt (ar_authKey account) key);
     currentAddons ← liftW (Api.getAddons authKey);
     let removed := Merger.removeAddons currentAddons addonIds in
     liftW (Api.updateAddons authKey removed.1);;
     modifyLocal incSuccess;;
     modifyLocal (pushDetail
       {| bd_accountId := ar_id account;
          bd_result :=
            {| mr_added := []; mr_updated := []; mr_skipped := [];
               mr_protected :=
                 (fun i => {| addonId := i; name := nameOrId currentAddons i |})
                   <$> removed.2 |} |});;
     liftW (syncAccountState (ar_id account) (ar_authKey account)))
    (recordFailure (ar_id account)).

Definition bulkRemoveAddons (addonIds : list string) (accountIds : list AccountRef)
  : M World BulkResult :=
  setLoading true;; setError None;;
  try_finally
    (try_catch
       (withLocal emptyBulkResult
          (forEach (removeFromAccount addonIds) accountIds;; getLocal))
       (fun e => setError (Some e);; throw e))
    (setLoading false).

End AddonStoreOps.

(** ** The account store ([useAccountStore]) *)

Module AccountStoreOps.

(** [x ?? undefined] *)
Definition nullToUndefined {A} (x : nullable A) : nullable A :=
  match x with
  | Null => Undefined
  | other => other
  end.

Definition sanitizeAddonManifest (m : AddonManifest) : AddonManifest :=
  {| m_id := m_id m; m_name := m_name m; m_version := m_version m;
     m_description := m_description m;
     m_logo := nullToUndefined (m_logo m);
     m_background := nullToUndefined (m_background m);
     m_types := m_types m;
     m_idPrefixes := nullToUndefined (m_idPrefixes m) |}.

Definition normalizeAddon (a : AddonDescriptor) : AddonDescriptor :=
  {| transportUrl := transportUrl a; transportName := transportName a;
     manifest := sanitizeAddonManifest (manifest a); flags := flags a |}.

Definition setAccounts (l : list StremioAccount) : M World unit :=
  modify (setAccountStore (fun s =>
    {| accounts := l; as_loading := as_loading s; as_error := as_error s |})).

Definition setAccountsLoading (b : bool) : M World unit :=
  modify (setAccountStore (fun s =>
    {| accounts := accounts s; as_loading := b; as_error := as_error s |})).

Definition setAccountsError (e : option string) : M World unit :=
  modify (setAccountStore (fun s =>
    {| accounts := accounts s; as_loading := as_loading s; as_error := e |})).

(** Modelled from the spec: [decrypt] of [lib/encryption] is not part of the
    sources; it is the synchronous form of the capability of section 6. *)
Definition decrypt (ciphertext : string) : M World string :=
  p ← gets (fun w => cipher (env w) !! ciphertext);
  match p with
  | Some plaintext => mret plaintext
  | None => throw "Decryption failed"
  end.

(** [localforage.setItem(STORAGE_KEY, accounts)] *)
Definition persistAccounts (l : list StremioAccount) : M World unit :=
  f ← roundTrip SaveAccounts;
  match f with
  | Some flt => throw (faultMessage flt "Failed to save accounts")
  | None => mret tt
  end.

Definition withAddons (addons : list AddonDescriptor) (now : nat)
    (a : StremioAccount) : StremioAccount :=
  {| acc_id := acc_id a; acc_name := acc_name a; acc_email := acc_email a;
     acc_authKey := acc_authKey a; acc_password := acc_password a;
     acc_addons := addons; acc_lastSync := now; acc_status := acc_status a |}.

Definition removeAddonFromAccount (accountId addonId : string) : M World unit :=
  setAccountsLoading true;; setAccountsError None;;
  try_finally
    (try_catch
       (found ← gets (fun w =>
          list_find (fun a => acc_id a = accountId) (accounts (accountStore w)));
        match found with
        | None => throw "Account not found"
        | Some (_, account) =>
            authKey ← decrypt (acc_authKey account);
            updatedAddons ← Api.removeAddon authKey addonId;
            let normalizedAddons := normalizeAddon <$> updatedAddons in
            now ← newDate;
            let updatedAccount := withAddons normalizedAddons now account in
            current ← gets (fun w => accounts (accountStore w));
            let accounts :=
              (fun acc => if decide (acc_id acc = accountId)
                          then updatedAccount else acc) <$> current in
            setAccounts accounts;;
            persistAccounts accounts
        end)
       (fun e => setAccountsError (Some e);; throw e))
    (setAccountsLoading false).

End AccountStoreOps.

(** ** Fixtures *)

Module Fixtures.

Definition mkManifest (i n v : string) : AddonManifest :=
  {| m_id := i; m_name := n; m_version := v; m_description := "";
     m_logo := Undefined; m_background := Undefined; m_types := None;
     m_idPrefixes := Undefined |}.

Definition mkAddon (url i v : string) (f : option AddonFlags) : AddonDescriptor :=
  {| transportUrl := url; transportName := None;
     manifest := mkManifest i i v; flags := f |}.

Definition protectedFlags : option AddonFlags :=
  Some {| official := None; protected := Some true |}.

Definition officialFlags : option AddonFlags :=
  Some {| official := Some true; protected := None |}.

Definition mkSaved (i url mid v : string) : SavedAddon :=
  {| sa_id := i; sa_name := mid; sa_installUrl := url;
     sa_manifest := mkManifest mid mid v; sa_tags := ["tag"];
     sa_createdAt := 0; sa_updatedAt := 0; sa_lastUsed := None;
     sa_sourceType := SourceManual; sa_sourceAccountId := None;
     sa_health := None |}.

Definition ok (t : nat) : Event := {| elapsed := t; fault := None |}.
Definition failing (t : nat) : Event :=
  {| elapsed := t; fault := Some NetworkFault |}.

Definition mkWorld (r : gmap string (list AddonDescriptor))
    (l : gmap string SavedAddon) (sc : list Event) : World :=
  {| env := {| remote := r; served := ∅; online := ∅; script := sc;
               clock := 1000; calls := [];
               encryptionKey := Some "session"; cipher := {[ "enc1" := "key1"; "enc2" := "key2" ]} |};
     addonStore := {| library := l; accountStates := ∅; loading := false;
                      error := None; checkingHealth := false |};
     accountStore := {| accounts := []; as_loading := false; as_error := None |} |}.

Definition addonA : AddonDescriptor := mkAddon "https://a.example/manifest.json" "org.a" "1.0.0" protectedFlags.
Definition addonB : AddonDescriptor := mkAddon "https://b.example/manifest.json" "org.b" "1.0.0" None.
Definition savedB : SavedAddon := mkSaved "s1" "https://b.example/manifest.json" "org.b" "2.0.0".
Definition savedA : SavedAddon := mkSaved "s2" "https://a.example/manifest.json" "org.a" "2.0.0".
Definition savedC : SavedAddon := mkSaved "s3" "https://c.example/manifest.json" "org.c" "1.0.0".

Definition account1 : AddonStoreOps.AccountRef :=
  {| AddonStoreOps.ar_id := "acc1"; AddonStoreOps.ar_authKey := "enc1" |}.
Definition account2 : AddonStoreOps.AccountRef :=
  {| AddonStoreOps.ar_id := "acc2"; AddonStoreOps.ar_authKey := "enc2" |}.

Definition oneAccount : gmap string (list AddonDescriptor) :=
  {[ "key1" := [addonA; addonB] ]}.

Definition oneTemplate : gmap string SavedAddon := {[ "s1" := savedB ]}.

(** Every round trip succeeds and takes 5 ms. *)
Definition wCalm : World :=
  mkWorld oneAccount oneTemplate [ok 5; ok 5; ok 5; ok 5; ok 5; ok 5].

(** The read and the write of the collection succeed, the read made by the
    sync that follows fails. *)
Definition wSyncFails : World :=
  mkWorld oneAccount oneTemplate [ok 5; ok 5; failing 5].

(** The first read of the collection fails. *)
Definition wDown : World :=
  mkWorld oneAccount oneTemplate [failing 5].

Definition addonC : AddonDescriptor :=
  mkAddon "https://c.example/manifest.json" "org.c" "1.0.0" None.
Definition addonD : AddonDescriptor :=
  mkAddon "https://d.example/manifest.json" "org.d" "1.0.0" officialFlags.

(** The addon servers: [org.b] is now at 1.1.0, [org.c] still at 1.0.0; the
    servers of [org.a] and [org.d] would answer 9.9.9. *)
Definition wServed : World :=
  {| env := {| remote := oneAccount;
               served := {[ "https://a.example/manifest.json" := mkManifest "org.a" "org.a" "9.9.9";
                            "https://b.example/manifest.json" := mkManifest "org.b" "org.b" "1.1.0";
                            "https://c.example/manifest.json" := mkManifest "org.c" "org.c" "1.0.0";
                            "https://d.example/manifest.json" := mkManifest "org.d" "org.d" "9.9.9" ]};
               online := {[ "https://b.example/manifest.json" := true ]};
               script := []; clock := 1000; calls := [];
               encryptionKey := Some "session"; cipher := ∅ |};
     addonStore := {| library := ∅; accountStates := ∅; loading := false;
                      error := None; checkingHealth := false |};
     accountStore := {| accounts := []; as_loading := false; as_error := None |} |}.

(** As [wServed], with an account that has [org.c] before [org.b]. *)
Definition wReinstall : World :=
  setEnv (fun e =>
    {| remote := {[ "key1" := [addonC; addonB] ]}; served := served e;
       online := online e; script := script e; clock := clock e;
       calls := calls e; encryptionKey := encryptionKey e; cipher := cipher e |})
    wServed.

End Fixtures.

(** ** The auth store ([store/authStore]) *)

Module AuthStoreOps.

(** The library [lib/crypto] is not part of the sources.  Its functions are
    taken as an interface over the state [V] of the storage it keeps (the
    salt, the password hash and the session key); a key and a hash are
    strings, a salt is a value of [Salt]. *)
Class CryptoLib (V Salt : Type) : Type := {
  isPasswordSetup : V -> bool;
  generateSalt : V -> Salt;
  loadSalt : V -> option Salt;
  saveSalt : Salt -> V -> V;
  loadPasswordHash : V -> option string;
  savePasswordHash : string -> V -> V;
  hashPassword : string -> Salt -> string;
  deriveKey : string -> Salt -> string;
  saveSessionKey : string -> V -> V;
  loadSessionKey : V -> option string;
  clearSessionKey : V -> V;
}.

(** The state the auth store works on: the world of the other stores, whose
    [encryptionKey] is the key of the auth store, the [isLocked] flag and
    the storage of the crypto library. *)
Record AuthWorld (V : Type) : Type := {
  world : World;
  isLocked : bool;
  vault : V;
}.
Arguments world {V} a.
Arguments isLocked {V} a.
Arguments vault {V} a.

Section WithCrypto.
Context {V Salt : Type} `{!CryptoLib V Salt}.

(** [wipeAllData] of [lib/storage-reset] is not part of the sources and is
    taken as it comes. *)
Variable wipeAllData : M (AuthWorld V) unit.

Definition withKey (k : option string) (w : World) : World :=
  setEnv (fun e =>
    {| remote := remote e; served := served e; online := online e;
       script := script e; clock := clock e; calls := calls e;
       encryptionKey := k; cipher := cipher e |}) w.

(** [set({ isLocked: b })] *)
Definition setLocked (b : bool) : M (AuthWorld V) unit :=
  modify (fun a => {| world := world a; isLocked := b; vault := vault a |}).

(** [set({ encryptionKey: k, isLocked: b })] *)
Definition setKeyLocked (k : option string) (b : bool) : M (AuthWorld V) unit :=
  modify (fun a =>
    {| world := withKey k (world a); isLocked := b; vault := vault a |}).

Definition onVault (f : V -> V) : M (AuthWorld V) unit :=
  modify (fun a => {| world := world a; isLocked := isLocked a; vault := f (vault a) |}).

Definition initialize : M (AuthWorld V) unit :=
  passwordSet ← gets (fun a => isPasswordSetup (vault a));
  if negb passwordSet then setLocked false
  else
    sessionKey ← gets (fun a => loadSessionKey (vault a));
    match sessionKey with
    | Some key => setKeyLocked (Some key) false
    | None => setLocked true
    end.

Definition setupMasterPassword (password : string) : M (AuthWorld V) unit :=
  if decide (String.length password < 8) then
    throw "Password must be at least 8 characters"
  else
    wipeAllData;;
    salt ← gets (fun a => generateSalt (vault a));
    onVault (saveSalt salt);;
    let hash := hashPassword password salt in
    onVault (savePasswordHash hash);;
    let key := deriveKey password salt in
    onVault (saveSessionKey key);;
    setKeyLocked (Some key) false.

(** [unlock]: [!salt || !storedHash] holds for a missing salt, a missing hash
    and the empty hash. *)
Definition unlock (password : string) : M (AuthWorld V) bool :=
  salt ← gets (fun a => loadSalt (vault a));
  storedHash ← gets (fun a => loadPasswordHash (vault a));
  match salt, storedHash with
  | Some salt, Some storedHash =>
      if decide (storedHash = "") then throw "Master password not set up"
      else
        let hash := hashPassword password salt in
        if decide (hash <> storedHash) then mret false
        else
          let key := deriveKey password salt in
          onVault (saveSessionKey key);;
          setKeyLocked (Some key) false;;
          mret true
  | _, _ => throw "Master password not set up"
  end.

Definition lock : M (AuthWorld V) unit :=
  onVault clearSessionKey;;
  setKeyLocked None true.

Definition resetMasterPassword (password : string) : M (AuthWorld V) unit :=
  if decide (String.length password < 8) then
    throw "Password must be at least 8 characters"
  else
    wipeAllData;;
    setupMasterPassword password.

Definition isPasswordSet (a : AuthWorld V) : bool := isPasswordSetup (vault a).

End WithCrypto.

End AuthStoreOps.

(** ** The addon store, its other actions *)

Module LibraryOps.
Import AddonStoreOps.

Record SavedAddonUpdates : Type := {
  up_name : option string;
  up_tags : option (list string);
  up_installUrl : option string;
}.

Section WithHelpers.

(** [normalizeTagName] of [lib/addon-validator] is not part of the sources,
    and [trim] is the method of the language; both are taken as they come. *)
Variable normalizeTagName : string -> string.
Variable trim : string -> string.

(** [tags.map(normalizeTagName).filter(Boolean)] *)
Definition normalizeTags (tags : list string) : list string :=
  filter (fun t => t <> "") (normalizeTagName <$> tags).

(** [Object.values(library)].  The source enumerates the entries in the
    order they were inserted; the map keeps no such order, and the list here
    is in the order of the keys: the templates that the operations by tag
    hand on are the same, their order may differ. *)
Definition libraryValues (l : gmap string SavedAddon) : list SavedAddon :=
  snd <$> map_to_list l.

(** [createSavedAddon]; [uuid] is what [crypto.randomUUID()] gives. *)
Definition createSavedAddon (uuid : string) (name installUrl : string)
    (tags : list string) (existingManifest : option AddonManifest)
  : M World string :=
  setLoading true;; setError None;;
  try_finally
    (try_catch
       (match existingManifest with
        | None => throw "Existing manifest is required to create a saved addon"
        | Some manifest =>
            let normalizedTags := normalizeTags tags in
            now ← newDate;
            let savedAddon :=
              {| sa_id := uuid; sa_name := trim name; sa_installUrl := installUrl;
                 sa_manifest := manifest; sa_tags := normalizedTags;
                 sa_createdAt := now; sa_updatedAt := now; sa_lastUsed := None;
                 sa_sourceType := SourceManual; sa_sourceAccountId := None;
                 sa_health := None |} in
            l ← gets (fun w => library (addonStore w));
            let library := <[sa_id savedAddon := savedAddon]> l in
            setLibrary library;;
            saveAddonLibrary library;;
            mret (sa_id savedAddon)
        end)
       (fun e => setError (Some e);; throw e))
    (setLoading false).

Definition withName (n : string) (s : SavedAddon) : SavedAddon :=
  {| sa_id := sa_id s; sa_name := n; sa_installUrl := sa_installUrl s;
     sa_manifest := sa_manifest s; sa_tags := sa_tags s;
     sa_createdAt := sa_createdAt s; sa_updatedAt := sa_updatedAt s;
     sa_lastUsed := sa_lastUsed s; sa_sourceType := sa_sourceType s;
     sa_sourceAccountId := sa_sourceAccountId s; sa_health := sa_health s |}.

Definition withTags (t : list string) (s : SavedAddon) : SavedAddon :=
  {| sa_id := sa_id s; sa_name := sa_name s; sa_installUrl := sa_installUrl s;
     sa_manifest := sa_manifest s; sa_tags := t;
     sa_createdAt := sa_createdAt s; sa_updatedAt := sa_updatedAt s;
     sa_lastUsed := sa_lastUsed s; sa_sourceType := sa_sourceType s;
     sa_sourceAccountId := sa_sourceAccountId s; sa_health := sa_health s |}.

Definition withUpdatedAt (now : nat) (s : SavedAddon) : SavedAddon :=
  {| sa_id := sa_id s; sa_name := sa_name s; sa_installUrl := sa_installUrl s;
     sa_manifest := sa_manifest s; sa_tags := sa_tags s;
     sa_createdAt := sa_createdAt s; sa_updatedAt := now;
     sa_lastUsed := sa_lastUsed s; sa_sourceType := sa_sourceType s;
     sa_sourceAccountId := sa_sourceAccountId s; sa_health := sa_health s |}.

(** [updateSavedAddon]; [library[id]] is read for a library id (none of
    [objectPrototypeKeys]). *)
Definition updateSavedAddon (i : string) (updates : SavedAddonUpdates)
  : M World unit :=
  setLoading true;; setError None;;
  try_finally
    (try_catch
       (found ← gets (fun w => library (addonStore w) !! i);
        match found with
        | None => throw "Saved addon not found"
        | Some savedAddon =>
            let named :=
              match up_name updates with
              | Some n => withName (trim n) savedAddon
              | None => savedAddon
              end in
            let tagged :=
              match up_tags updates with
              | Some t => withTags (normalizeTags t) named
              | None => named
              end in
            now ← newDate;
            let updatedSavedAddon := withUpdatedAt now tagged in
            l ← gets (fun w => library (addonStore w));
            let library := <[i := updatedSavedAddon]> l in
            setLibrary library;;
            saveAddonLibrary library
        end)
       (fun e => setError (Some e);; throw e))
    (setLoading false).

Definition deleteSavedAddon (i : string) : M World unit :=
  l ← gets (fun w => library (addonStore w));
  let library := delete i l in
  setLibrary library;;
  saveAddonLibrary library.

(** [get().library[id] || null], for a library id (none of
    [objectPrototypeKeys]). *)
Definition getSavedAddon (i : string) (w : World) : option SavedAddon :=
  library (addonStore w) !! i.

Definition hasTag (normalizedTag : string) (s : SavedAddon) : Prop :=
  Exists (fun t => normalizeTagName t = normalizedTag) (sa_tags s).

Definition getSavedAddonsByTag (tag : string) (w : World) : list SavedAddon :=
  let normalizedTag := normalizeTagName tag in
  filter (hasTag normalizedTag) (libraryValues (library (addonStore w))).

(** [Array.from(tagsSet).sort()]: the tags of the library, each once, in
    the order of their code units. *)
Definition getAllTags (w : World) : list string :=
  merge_sort String.le
    (remove_dups (libraryValues (library (addonStore w)) ≫= sa_tags)).

(** What [renameTag] does to one saved addon: the first tag that normalizes
    to [normalizedOld] becomes [normalizedNew] and [updatedAt] is stamped.
    The source writes into the tag array of the stored entry; the entries of
    the library are given here as they are after the loop.  A tag array that
    a ledger entry shares ([appliedTags]) is written through as well, which
    lists as values do not show: nothing is said here about the ledger. *)
Definition renameIn (normalizedOld normalizedNew : string) (now : nat)
    (s : SavedAddon) : SavedAddon :=
  match list_find (fun t => normalizeTagName t = normalizedOld) (sa_tags s) with
  | Some (tagIndex, _) =>
      withUpdatedAt now (withTags (<[tagIndex := normalizedNew]> (sa_tags s)) s)
  | None => s
  end.

Definition renameTag (oldTag newTag : string) : M World unit :=
  let normalizedOld := normalizeTagName oldTag in
  let normalizedNew := normalizeTagName newTag in
  if decide (normalizedNew = "") then throw "Invalid new tag name"
  else
    l ← gets (fun w => library (addonStore w));
    now ← newDate;
    let library := renameIn normalizedOld normalizedNew now <$> l in
    let hasChanges :=
      bool_decide (Exists (hasTag normalizedOld) (libraryValues l)) in
    if hasChanges then
      setLibrary library;;
      saveAddonLibrary library
    else mret tt.

Definition applySavedAddonToAccount (savedAddonId accountId accountAuthKey : string)
    (strategy : MergeStrategy) : M World MergeResult :=
  setLoading true;; setError None;;
  try_finally
    (try_catch
       (found ← gets (fun w => library (addonStore w) !! savedAddonId);
        match found with
        | None => throw "Saved addon not found"
        | Some savedAddon =>
            key ← getEncryptionKey;
            authKey ← decrypt accountAuthKey key;
            currentAddons ← Api.getAddons authKey;
            let merged := Merger.mergeAddons currentAddons [savedAddon] strategy in
            Api.updateAddons authKey merged.1;;
            l ← gets (fun w => library (addonStore w));
            now ← newDate;
            let library := <[savedAddonId := withLastUsed now savedAddon]> l in
            setLibrary library;;
            saveAddonLibrary library;;
            syncAccountState accountId accountAuthKey;;
            mret merged.2
        end)
       (fun e => setError (Some e);; throw e))
    (setLoading false).

Definition applySavedAddonToAccounts (savedAddonId : string)
    (accountIds : list AccountRef) (strategy : MergeStrategy)
  : M World BulkResult :=
  found ← gets (fun w => library (addonStore w) !! savedAddonId);
  match found with
  | None => throw "Saved addon not found"
  | Some _ => bulkApplySavedAddons [savedAddonId] accountIds strategy
  end.

Definition applyTagToAccount (tag accountId accountAuthKey : string)
    (strategy : MergeStrategy) : M World MergeResult :=
  savedAddons ← gets (getSavedAddonsByTag tag);
  if decide (length savedAddons = 0) then
    throw ("No saved addons found with tag: " +:+ tag)
  else
    setLoading true;; setError None;;
    try_finally
      (try_catch
         (key ← getEncryptionKey;
          authKey ← decrypt accountAuthKey key;
          currentAddons ← Api.getAddons authKey;
          let merged := Merger.mergeAddons currentAddons savedAddons strategy in
          Api.updateAddons authKey merged.1;;
          l0 ← gets (fun w => library (addonStore w));
          library ← withLocal l0 (forEach stampOne savedAddons;; getLocal);
          setLibrary library;;
          saveAddonLibrary library;;
          syncAccountState accountId accountAuthKey;;
          mret merged.2)
         (fun e => setError (Some e);; throw e))
      (setLoading false).

Definition bulkApplyTag (tag : string) (accountIds : list AccountRef)
    (strategy : MergeStrategy) : M World BulkResult :=
  savedAddons ← gets (getSavedAddonsByTag tag);
  if decide (length savedAddons = 0) then
    throw ("No saved addons found with tag: " +:+ tag)
  else bulkApplySavedAddons (sa_id <$> savedAddons) accountIds strategy.

Definition applyTagToAccounts (tag : string) (accountIds : list AccountRef)
    (strategy : MergeStrategy) : M World BulkResult :=
  bulkApplyTag tag accountIds strategy.

Definition bulkRemoveByTag (tag : string) (accountIds : list AccountRef)
  : M World BulkResult :=
  savedAddons ← gets (getSavedAddonsByTag tag);
  if decide (length savedAddons = 0) then
    throw ("No saved addons found with tag: " +:+ tag)
  else
    let addonIds := (fun s => m_id (sa_manifest s)) <$> savedAddons in
    bulkRemoveAddons addonIds accountIds.

End WithHelpers.


End LibraryOps.

(** ** The addon API and the service client, the rest *)

Module ApiMore.
Import Api.

(** A saved addon as [checkSavedAddonUpdates] takes it. *)
Definition checkSavedOne (addon : SavedAddon)
  : M (list AddonUpdateInfo * World) unit :=
  try_catch
    (p ← liftW (fetchAndProbe (sa_installUrl addon));
     let latestManifest := p.1 in
     let hasUpdate :=
       bool_decide (m_version (manifest latestManifest) ≠ m_version (sa_manifest addon)) in
     modifyLocal (fun results => results ++
       [{| ui_addonId := sa_id addon;
           ui_name := sa_name addon;
           ui_transportUrl := sa_installUrl addon;
           ui_installedVersion := m_version (sa_manifest addon);
           ui_latestVersion := m_version (manifest latestManifest);
           ui_hasUpdate := hasUpdate;
           ui_isOnline := p.2 |}]))
    (fun _ => mret tt).

Definition checkSavedAddonUpdates (savedAddons : list SavedAddon)
  : M World (list AddonUpdateInfo) :=
  withLocal [] (forEach checkSavedOne savedAddons;; getLocal).

(** [s.endsWith(suffix)] and [s.includes(part)] on the code units. *)
Definition endsWith (s suffix : string) : bool :=
  bool_decide (String.list_ascii_of_string suffix `suffix_of` String.list_ascii_of_string s).

Fixpoint includes (s part : string) : bool :=
  String.prefix part s ||
  match s with
  | EmptyString => false
  | String _ rest => includes rest part
  end.

(** The manifest URL [fetchAddonManifest] asks for. *)
Definition manifestUrl (transportUrl : string) : string :=
  if endsWith transportUrl "/manifest.json" || includes transportUrl "/manifest.json?"
  then transportUrl
  else if endsWith transportUrl "/"
       then transportUrl +:+ "manifest.json"
       else transportUrl +:+ "/manifest.json".

(** The URL handed to the proxy: the manifest URL with the cache buster of
    the five minutes [now] lies in ([Math.floor(Date.now() / 300000)]). *)
Definition finalManifestUrl (transportUrl : string) (now : N) : string :=
  let fiveMinuteInterval := (now / 300000)%N in
  let cacheBuster := "cb=" +:+ pretty fiveMinuteInterval in
  let separator := if includes (manifestUrl transportUrl) "?" then "&" else "?" in
  manifestUrl transportUrl +:+ separator +:+ cacheBuster.

End ApiMore.

(** ** The account store, its other actions *)

Module AccountStoreMore.
Import AccountStoreOps.

Definition withStatus (st : AccountStatus) (a : StremioAccount) : StremioAccount :=
  {| acc_id := acc_id a; acc_name := acc_name a; acc_email := acc_email a;
     acc_authKey := acc_authKey a; acc_password := acc_password a;
     acc_addons := acc_addons a; acc_lastSync := acc_lastSync a;
     acc_status := st |}.

(** [accounts.map((acc) => (acc.id === id ? updated : acc))] *)
Definition replaceAccount (i : string) (updated : StremioAccount)
    (l : list StremioAccount) : list StremioAccount :=
  (fun acc => if decide (acc_id acc = i) then updated else acc) <$> l.

(** [accounts.map((acc) => (acc.id === id ? { ...acc, status: 'error' } : acc))] *)
Definition markError (i : string) (l : list StremioAccount) : list StremioAccount :=
  (fun acc => if decide (acc_id acc = i) then withStatus InError acc else acc) <$> l.

Definition removeAccount (i : string) : M World unit :=
  current ← gets (fun w => accounts (accountStore w));
  let accounts := filter (fun acc => acc_id acc <> i) current in
  setAccounts accounts;;
  persistAccounts accounts.

(** [syncAccount]; the toast it shows on failure is not part of the state. *)
Definition syncAccount (i : string) : M World unit :=
  setAccountsLoading true;; setAccountsError None;;
  try_finally
    (try_catch
       (found ← gets (fun w =>
          list_find (fun a => acc_id a = i) (accounts (accountStore w)));
        match found with
        | None => throw "Account not found"
        | Some (_, account) =>
            authKey ← decrypt (acc_authKey account);
            addons ← Api.getAddons authKey;
            let normalizedAddons := normalizeAddon <$> addons in
            now ← newDate;
            let updatedAccount :=
              withStatus Active (withAddons normalizedAddons now account) in
            current ← gets (fun w => accounts (accountStore w));
            let accounts := replaceAccount i updatedAccount current in
            setAccounts accounts;;
            persistAccounts accounts
        end)
       (fun e =>
          current ← gets (fun w => accounts (accountStore w));
          let accounts := markError i current in
          setAccounts accounts;; setAccountsError (Some e);;
          persistAccounts accounts;;
          throw e))
    (setAccountsLoading false).

(** The body of the loop of [syncAllAccounts] for one account. *)
Definition syncOneAccount (account : StremioAccount) : M World unit :=
  try_catch
    (authKey ← decrypt (acc_authKey account);
     addons ← Api.getAddons authKey;
     let normalizedAddons := normalizeAddon <$> addons in
     now ← newDate;
     let updatedAccount :=
       withStatus Active (withAddons normalizedAddons now account) in
     current ← gets (fun w => accounts (accountStore w));
     setAccounts (replaceAccount (acc_id account) updatedAccount current))
    (fun _ =>
       current ← gets (fun w => accounts (accountStore w));
       setAccounts (markError (acc_id account) current)).

Definition syncAllAccounts : M World unit :=
  setAccountsLoading true;; setAccountsError None;;
  snapshot ← gets (fun w => accounts (accountStore w));
  forEach syncOneAccount snapshot;;
  final ← gets (fun w => accounts (accountStore w));
  persistAccounts final;;
  setAccountsLoading false.

Definition installAddonToAccount (accountId addonUrl : string) : M World unit :=
  setAccountsLoading true;; setAccountsError None;;
  try_finally
    (try_catch
       (found ← gets (fun w =>
          list_find (fun a => acc_id a = accountId) (accounts (accountStore w)));
        match found with
        | None => throw "Account not found"
        | Some (_, account) =>
            authKey ← decrypt (acc_authKey account);
            updatedAddons ← Api.installAddon authKey addonUrl;
            let normalizedAddons := normalizeAddon <$> updatedAddons in
            now ← newDate;
            let updatedAccount := withAddons normalizedAddons now account in
            current ← gets (fun w => accounts (accountStore w));
            let accounts := replaceAccount accountId updatedAccount current in
            setAccounts accounts;;
            persistAccounts accounts
        end)
       (fun e => setAccountsError (Some e);; throw e))
    (setAccountsLoading false).

Definition reorderAddons (accountId : string) (newOrder : list AddonDescriptor)
  : M World unit :=
  setAccountsLoading true;; setAccountsError None;;
  try_finally
    (try_catch
       (found ← gets (fun w =>
          list_find (fun a => acc_id a = accountId) (accounts (accountStore w)));
        match found with
        | None => throw "Account not found"
        | Some (_, account) =>
            authKey ← decrypt (acc_authKey account);
            Api.updateAddons authKey newOrder;;
            now ← newDate;
            let updatedAccount := withAddons newOrder now account in
            current ← gets (fun w => accounts (accountStore w));
            let accounts := replaceAccount accountId updatedAccount current in
            setAccounts accounts;;
            persistAccounts accounts
        end)
       (fun e => setAccountsError (Some e);; throw e))
    (setAccountsLoading false).

End AccountStoreMore.

(** ** Notions used by the properties *)

Module MergerAux.
Import Merger.

(** The manifest ids of a collection, in order. *)
Definition ids (c : list AddonDescriptor) : list string := addon_id <$> c.

(** The merge loop from any intermediate state. *)
Definition run (s : MergeStrategy) (acc : list AddonDescriptor * MergeResult)
    (ts : list SavedAddon) : list AddonDescriptor * MergeResult :=
  foldl (mergeStep s) acc ts.

(** The state of a protected addon [P] during the merge loop: [P] sits at
    index [i], no earlier descriptor carries its id, and its id is not in the
    [updated] log. *)
Definition guarded (i : nat) (P : AddonDescriptor)
    (acc : list AddonDescriptor * MergeResult) : Prop :=
  acc.1 !! i = Some P /\
  (forall j y, acc.1 !! j = Some y -> j < i -> addon_id y <> addon_id P) /\
  addon_id P ∉ (addonId <$> mr_updated acc.2).

End MergerAux.

(** An invariant relation between the state before a computation and the
    state after it, whatever its outcome. *)
Definition keeps {S A} (R : S -> S -> Prop) (m : M S A) : Prop :=
  forall s r s', m s = (r, s') -> R s s'.

Module SyncAux.
Import AddonStoreOps.

(** The ledger entry [syncAccountState] makes for one live addon, as a
    function of the library, the earlier state and the time. *)
Definition syncEntry (l : gmap string SavedAddon)
    (existingState : option AccountAddonState) (now : nat)
    (addon : AddonDescriptor) : InstalledAddon :=
  match findExisting existingState (addon_id addon) with
  | Some existing => withInstallUrl (transportUrl addon) existing
  | None => newEntry (findSavedAddonByUrl l (transportUrl addon)) addon now
  end.

(** The state [syncAccountState] stores for an account. *)
Definition syncedState (accountId : string) (l : gmap string SavedAddon)
    (existingState : option AccountAddonState) (now : nat)
    (live : list AddonDescriptor) : AccountAddonState :=
  {| st_accountId := accountId;
     st_installedAddons := syncEntry l existingState now <$> live;
     st_lastSync := now |}.

(** The store and the service as one run of [syncAccountState] leaves them
    next to how it found them: only the account states may differ. *)
Definition sameButStates (w w' : World) : Prop :=
  library (addonStore w') = library (addonStore w) /\
  remote (env w') = remote (env w) /\
  cipher (env w') = cipher (env w) /\
  encryptionKey (env w') = encryptionKey (env w) /\
  clock (env w) <= clock (env w').

End SyncAux.

Module BulkAux.
Import AddonStoreOps.

(** What the bulk loops leave alone: the library is as it was, and the
    clock has not gone back. *)
Definition libraryKept (w w' : World) : Prop :=
  library (addonStore w') = library (addonStore w) /\
  clock (env w) <= clock (env w').

Definition libraryKeptL {L} (ls ls' : L * World) : Prop :=
  libraryKept ls.2 ls'.2.

(** The library after the templates have been stamped at time [now]. *)
Definition stamped (now : nat) (l : gmap string SavedAddon)
    (savedAddons : list SavedAddon) : gmap string SavedAddon :=
  foldl (fun acc s => <[sa_id s := withLastUsed now s]> acc) l savedAddons.

(** The templates a list of requested ids resolves to. *)
Definition resolved (l : gmap string SavedAddon) (savedAddonIds : list string)
  : list SavedAddon :=
  omap (fun i => l !! i) savedAddonIds.

(** What one account of a bulk loop does to the result object: a success, a
    failure, or a success followed by a failure. *)
Definition outcome (account : AccountRef) (r r' : BulkResult) : Prop :=
  (exists d, bd_accountId d = ar_id account /\ r' = pushDetail d (incSuccess r)) \/
  (exists e, be_accountId e = ar_id account /\ r' = pushError e (incFailed r)) \/
  (exists d e, bd_accountId d = ar_id account /\ be_accountId e = ar_id account /\
     r' = pushError e (incFailed (pushDetail d (incSuccess r)))).

(** The counters agree with the lists. *)
Definition tallied (r : BulkResult) : Prop :=
  success r = length (details r) /\ failed r = length (errors r).

(** The accounts a result reports on. *)
Definition accountsSeen (r : BulkResult) : list string :=
  (bd_accountId <$> details r) ++ (be_accountId <$> errors r).

(** What holds of the result of a bulk loop over [accts]. *)
Definition isolated (accts : list AccountRef) (res : BulkResult) : Prop :=
  length accts <= success res + failed res <= 2 * length accts /\
  tallied res /\
  (forall a, a ∈ accts -> ar_id a ∈ accountsSeen res).

End BulkAux.

Module ApiAux.
Import Api.

(** The entry [checkAddonUpdates] reports for an addon, given the descriptor
    fetched from its transport URL and the answer of the health probe. *)
Definition updateInfo (addon latestManifest : AddonDescriptor) (isOnline : bool)
  : AddonUpdateInfo :=
  {| ui_addonId := addon_id addon;
     ui_name := m_name (manifest addon);
     ui_transportUrl := transportUrl addon;
     ui_installedVersion := m_version (manifest addon);
     ui_latestVersion := m_version (manifest latestManifest);
     ui_hasUpdate :=
       bool_decide (m_version (manifest latestManifest) <> m_version (manifest addon));
     ui_isOnline := isOnline |}.

(** An entry of the result stems from a checked addon of [addons]: one that
    is neither protected nor official; its latest version is the version of
    the manifest [sv] serves at the addon's transport URL. *)
Definition reportsOn (sv : gmap string AddonManifest)
    (addons : list AddonDescriptor) (r : AddonUpdateInfo) : Prop :=
  exists a m,
    a ∈ addons /\ isProtected a = false /\ isOfficial a = false /\
    ui_addonId r = addon_id a /\
    ui_installedVersion r = m_version (manifest a) /\
    sv !! transportUrl a = Some m /\
    ui_latestVersion r = m_version m.

(** The world after a successful [updateAddons authKey addons]. *)
Definition written (authKey : string) (addons : list AddonDescriptor) (w : World)
  : World :=
  setEnv (fun e =>
    {| remote := <[authKey := addons]> (remote e); served := served e;
       online := online e; script := script e; clock := clock e;
       calls := calls e; encryptionKey := encryptionKey e; cipher := cipher e |})
    (setEnv (afterTrip (AddonCollectionSet authKey addons)) w).

(** The answer of [reinstallAddon] when it does nothing. *)
Definition untouched (currentAddons : list AddonDescriptor) : ReinstallResult :=
  {| rr_addons := currentAddons; rr_updatedAddon := None;
     rr_previousVersion := None; rr_newVersion := None |}.

End ApiAux.

Module FrameAux.

(** Only the script, the clock and the log of round trips have moved. *)
Definition tripsOnly (w w' : World) : Prop :=
  addonStore w' = addonStore w /\
  accountStore w' = accountStore w /\
  remote (env w') = remote (env w) /\
  served (env w') = served (env w) /\
  online (env w') = online (env w) /\
  cipher (env w') = cipher (env w) /\
  encryptionKey (env w') = encryptionKey (env w).

(** What a loop over accounts leaves alone in the addon store and around
    it: everything but the account states, the remote collections, the
    script, the clock and the log. *)
Definition quiet (w w' : World) : Prop :=
  library (addonStore w') = library (addonStore w) /\
  loading (addonStore w') = loading (addonStore w) /\
  error (addonStore w') = error (addonStore w) /\
  checkingHealth (addonStore w') = checkingHealth (addonStore w) /\
  accountStore w' = accountStore w /\
  served (env w') = served (env w) /\
  online (env w') = online (env w) /\
  cipher (env w') = cipher (env w) /\
  encryptionKey (env w') = encryptionKey (env w).

Definition quietL {L} (ls ls' : L * World) : Prop := quiet ls.2 ls'.2.

(** No round trip still to come fails. *)
Definition up (w : World) : Prop :=
  Forall (fun ev => fault ev = None) (script (env w)).

(** A manifest that passes the check of [fetchAddonManifest]. *)
Definition validManifest (m : AddonManifest) : Prop :=
  m_id m <> "" /\ m_name m <> "" /\ m_version m <> "".

(** The descriptor [fetchAddonManifest] makes of a manifest. *)
Definition fetched (url : string) (m : AddonManifest) : AddonDescriptor :=
  {| transportUrl := url; transportName := None; manifest := m; flags := None |}.

(** The collection [installAddon] writes. *)
Definition installInto (newAddon : AddonDescriptor)
    (currentAddons : list AddonDescriptor) : list AddonDescriptor :=
  match list_find (fun a => addon_id a = addon_id newAddon) currentAddons with
  | Some (existingIndex, _) => <[existingIndex := newAddon]> currentAddons
  | None => currentAddons ++ [newAddon]
  end.


(** The waits before the requests number [i], [i + 1], ... ([n] of them). *)
Definition waitsFrom (i n : nat) : nat :=
  sum_list ((fun j => 1000 * j) <$> seq i n).

(** The time the first [n] round trips of the script take. *)
Definition tripTime (n : nat) (w : World) : nat :=
  sum_list (elapsed <$> take n (script (env w))).

(** The ledger entries of the accounts outside [ids] are as they were. *)
Definition ledgerOutside (ids : list string) (w w' : World) : Prop :=
  forall k, k ∉ ids ->
    accountStates (addonStore w') !! k = accountStates (addonStore w) !! k.

Definition ledgerOutsideL {L} (ids : list string) (ls ls' : L * World) : Prop :=
  ledgerOutside ids ls.2 ls'.2.

(** Nothing was written to the service. *)
Definition readOnly (w w' : World) : Prop := remote (env w') = remote (env w).

(** The addon store is as it was. *)
Definition storeKept (w w' : World) : Prop := addonStore w' = addonStore w.

(** What a bulk operation reports in a locked app. *)
Definition lockedErrors (accts : list AddonStoreOps.AccountRef) : list BulkError :=
  (fun a => {| be_accountId := AddonStoreOps.ar_id a; be_error := "App is locked" |})
    <$> accts.

End FrameAux.

Module ApiMoreAux.
Import Api ApiMore.

(** The entry [checkSavedAddonUpdates] reports for a saved addon, given the
    descriptor fetched from its install URL and the answer of the probe. *)
Definition savedInfo (addon : SavedAddon) (latestManifest : AddonDescriptor)
    (isOnline : bool) : AddonUpdateInfo :=
  {| ui_addonId := sa_id addon;
     ui_name := sa_name addon;
     ui_transportUrl := sa_installUrl addon;
     ui_installedVersion := m_version (sa_manifest addon);
     ui_latestVersion := m_version (manifest latestManifest);
     ui_hasUpdate :=
       bool_decide (m_version (manifest latestManifest) <> m_version (sa_manifest addon));
     ui_isOnline := isOnline |}.

(** An entry of the result reports on the saved addon [s] against the
    manifests [sv] serves. *)
Definition reportsOnSaved (sv : gmap string AddonManifest) (s : SavedAddon)
    (r : AddonUpdateInfo) : Prop :=
  exists m,
    sv !! sa_installUrl s = Some m /\
    ui_addonId r = sa_id s /\ ui_name r = sa_name s /\
    ui_transportUrl r = sa_installUrl s /\
    ui_installedVersion r = m_version (sa_manifest s) /\
    ui_latestVersion r = m_version m /\
    (ui_hasUpdate r = true <-> m_version m <> m_version (sa_manifest s)).

(** The requests of the check of one addon at [url]: the manifest, the
    probe, and [k] further requests for the manifest. *)
Definition requestsOf (url : string) (k : nat) : list Call :=
  ManifestGet url :: HealthProbe url :: replicate k (ManifestGet url).

(** The addons of [addons] that are flagged neither protected nor official,
    in the order of [addons]. *)
Definition checkedOf (addons : list AddonDescriptor) : list AddonDescriptor :=
  filter (fun a => isProtected a = false /\ isOfficial a = false) addons.

(** What the check of the addon [a] comes to, against the manifests [sv]
    serves: [run.1] further requests for the manifest, at most two, and the
    entries [run.2] added to the results: none, or the one entry of [a] made
    of a manifest served at its transport URL that has an id, a name and a
    version. *)
Definition checkedAs (sv : gmap string AddonManifest) (a : AddonDescriptor)
    (run : nat * list AddonUpdateInfo) : Prop :=
  run.1 <= 2 /\
  (run.2 = [] \/
   exists m isOnline,
     sv !! transportUrl a = Some m /\ FrameAux.validManifest m /\
     run.2 = [ApiAux.updateInfo a (FrameAux.fetched (transportUrl a) m) isOnline]).

(** The test [fetchAddonManifest] makes on the transport URL. *)
Definition isManifestUrl (url : string) : bool :=
  endsWith url "/manifest.json" || includes url "/manifest.json?".

End ApiMoreAux.

Module AccountAux.
Import AccountStoreOps AccountStoreMore.

(** The keys of the accounts that [decrypt] opens, in the order of the
    accounts: the accounts [syncAllAccounts] can ask the service about. *)
Definition readableKeys (w : World) : list string :=
  omap (fun a => cipher (env w) !! acc_authKey a) (accounts (accountStore w)).

(** The event of the round trip that comes after [n] others. *)
Definition eventAt (n : nat) (w : World) : Event :=
  default {| elapsed := 0; fault := None |} (script (env w) !! n).

(** What the loop of [syncAllAccounts] makes of the entry [c] of the store
    when it comes to the account [a] of its snapshot: the entry marked as in
    error, or [a] made active with the sanitized collection of its key at
    the service, and a [lastSync] not before the start. *)
Definition syncedFrom (w : World) (a c c' : StremioAccount) : Prop :=
  c' = withStatus InError c \/
  exists key live now,
    cipher (env w) !! acc_authKey a = Some key /\
    remote (env w) !! key = Some live /\
    clock (env w) <= now /\
    c' = withStatus Active (withAddons (normalizeAddon <$> live) now a).

End AccountAux.

Module AuthAux.
Import AuthStoreOps.

(** What the auth store relies on from the storage of [lib/crypto]: what is
    saved is what is loaded, the three slots (salt, password hash, session
    key) do not disturb each other, and a hash is never the empty string. *)
Record StorageLaws {V Salt : Type} `{!CryptoLib V Salt} : Prop := {
  salt_saved (s : Salt) (v : V) : loadSalt (saveSalt s v) = Some s;
  salt_kept_hash (h : string) (v : V) :
    loadSalt (savePasswordHash h v) = loadSalt v;
  salt_kept_session (k : string) (v : V) :
    loadSalt (saveSessionKey k v) = loadSalt v;
  salt_kept_clear (v : V) : loadSalt (clearSessionKey v) = loadSalt v;
  hash_saved (h : string) (v : V) :
    loadPasswordHash (savePasswordHash h v) = Some h;
  hash_kept_session (k : string) (v : V) :
    loadPasswordHash (saveSessionKey k v) = loadPasswordHash v;
  hash_kept_clear (v : V) :
    loadPasswordHash (clearSessionKey v) = loadPasswordHash v;
  hash_not_empty (p : string) (s : Salt) : hashPassword p s <> "";
  setup_seen (h : string) (v : V) : isPasswordSetup (savePasswordHash h v) = true;
  setup_kept_session (k : string) (v : V) :
    isPasswordSetup (saveSessionKey k v) = isPasswordSetup v;
  setup_kept_clear (v : V) :
    isPasswordSetup (clearSessionKey v) = isPasswordSetup v;
  session_saved (k : string) (v : V) :
    loadSessionKey (saveSessionKey k v) = Some k;
  session_cleared (v : V) : loadSessionKey (clearSessionKey v) = None;
}.
Arguments StorageLaws V Salt {_}.

(** The key the stores work with. *)
Definition sessionKey {V} (a : AuthWorld V) : option string :=
  encryptionKey (env (world a)).

End AuthAux.

(** ** Further fixtures *)

Module MoreFixtures.
Import Fixtures FrameAux.

Definition urlB : string := "https://b.example/manifest.json".
Definition urlC : string := "https://c.example/manifest.json".

(** What the server of [org.b] answers in [wServed]. *)
Definition fetchedB : AddonDescriptor :=
  fetched urlB (mkManifest "org.b" "org.b" "1.1.0").

Definition fetchedC : AddonDescriptor :=
  fetched urlC (mkManifest "org.c" "org.c" "1.0.0").

Definition withScript (sc : list Event) (w : World) : World :=
  setEnv (fun e =>
    {| remote := remote e; served := served e; online := online e;
       script := sc; clock := clock e; calls := calls e;
       encryptionKey := encryptionKey e; cipher := cipher e |}) w.


Definition notFound (t : nat) : Event := {| elapsed := t; fault := Some Http404 |}.

(** As [wReinstall], with three round trips that succeed and a fourth that is
    answered by a 404. *)
Definition wGone : World := withScript [ok 5; ok 5; ok 5; notFound 5] wReinstall.

(** An account whose key cannot be decrypted. *)
Definition away : StremioAccount :=
  {| acc_id := "acc0"; acc_name := "Away"; acc_email := None;
     acc_authKey := "lost"; acc_password := None;
     acc_addons := []; acc_lastSync := 0; acc_status := Active |}.

(** An account of the account store whose key decrypts to [key1]. *)
Definition home : StremioAccount :=
  {| acc_id := "acc1"; acc_name := "Home"; acc_email := None;
     acc_authKey := "enc1"; acc_password := None;
     acc_addons := [addonA; addonB]; acc_lastSync := 0; acc_status := Active |}.

(** As [wServed], with [home] in the account store and its key readable. *)
Definition wHome : World :=
  {| env := {| remote := oneAccount; served := served (env wServed);
               online := ∅; script := []; clock := 1000; calls := [];
               encryptionKey := Some "session";
               cipher := {[ "enc1" := "key1" ]} |};
     addonStore := addonStore wServed;
     accountStore := {| accounts := [home]; as_loading := false;
                        as_error := None |} |}.

(** As [wHome], with [away] before [home] in the account store. *)
Definition wAway : World :=
  setAccountStore (fun s =>
    {| accounts := [away; home]; as_loading := as_loading s;
       as_error := as_error s |}) wHome.

(** An update of a saved addon that carries a name and an install URL. *)
Definition renamed : LibraryOps.SavedAddonUpdates :=
  {| LibraryOps.up_name := Some "B"; LibraryOps.up_tags := None;
     LibraryOps.up_installUrl := Some "https://elsewhere.example/manifest.json" |}.

(** Tags taken as they are. *)
Definition asGiven (t : string) : string := t.

(** A storage with three slots, and a crypto library over it that keeps
    the password and the salt readable in what it derives. *)
Record ToyVault : Type := {
  tv_salt : option string;
  tv_hash : option string;
  tv_session : option string;
}.

#[export] Instance toyCrypto : AuthStoreOps.CryptoLib ToyVault string := {|
  AuthStoreOps.isPasswordSetup v := bool_decide (is_Some (tv_hash v));
  AuthStoreOps.generateSalt _ := "salt";
  AuthStoreOps.loadSalt := tv_salt;
  AuthStoreOps.saveSalt s v :=
    {| tv_salt := Some s; tv_hash := tv_hash v; tv_session := tv_session v |};
  AuthStoreOps.loadPasswordHash := tv_hash;
  AuthStoreOps.savePasswordHash h v :=
    {| tv_salt := tv_salt v; tv_hash := Some h; tv_session := tv_session v |};
  AuthStoreOps.hashPassword p s := "h:" +:+ s +:+ ":" +:+ p;
  AuthStoreOps.deriveKey p s := "k:" +:+ s +:+ ":" +:+ p;
  AuthStoreOps.saveSessionKey k v :=
    {| tv_salt := tv_salt v; tv_hash := tv_hash v; tv_session := Some k |};
  AuthStoreOps.loadSessionKey := tv_session;
  AuthStoreOps.clearSessionKey v :=
    {| tv_salt := tv_salt v; tv_hash := tv_hash v; tv_session := None |};
|}.

Definition emptyVault : ToyVault :=
  {| tv_salt := None; tv_hash := None; tv_session := None |}.

(** [wipeAllData] over the toy storage: the three slots are emptied. *)
Definition toyWipe : M (AuthStoreOps.AuthWorld ToyVault) unit :=
  modify (fun a =>
    {| AuthStoreOps.world := AuthStoreOps.world a;
       AuthStoreOps.isLocked := AuthStoreOps.isLocked a;
       AuthStoreOps.vault := emptyVault |}).

(** The app before any password was set: locked, no key, nothing stored. *)
Definition aFresh : AuthStoreOps.AuthWorld ToyVault :=
  {| AuthStoreOps.world := AuthStoreOps.withKey None wCalm;
     AuthStoreOps.isLocked := true;
     AuthStoreOps.vault := emptyVault |}.

(** [wCalm] in a locked app. *)
Definition wLocked : World := AuthStoreOps.withKey None wCalm.

End MoreFixtures.

(** * Properties *)

(** ** The merge engine *)

Module MergerFacts.
Import Merger MergerAux.

Lemma run_snoc s acc ts t : run s acc (ts ++ [t]) = mergeStep s (run s acc ts) t.
Proof. apply foldl_snoc. Qed.

Lemma findById_Some i c k a :
  findById i c = Some (k, a) ->
  c !! k = Some a /\ addon_id a = i /\
  forall j y, c !! j = Some y -> j < k -> addon_id y <> i.
Proof. unfold findById. intros H. by apply list_find_Some in H. Qed.

Lemma findById_present i c :
  i ∈ ids c -> is_Some (findById i c).
Proof.
  unfold ids. intros (a & -> & Ha)%list_elem_of_fmap.
  unfold findById. by eapply list_find_elem_of.
Qed.

Lemma findById_None i c : findById i c = None -> i ∉ ids c.
Proof.
  intros H Hin. apply findById_present in Hin as [x Hx]. congruence.
Qed.

(** Replacing a found descriptor by the template's keeps every id in place. *)
Lemma ids_replace c t k a :
  findById (template_id t) c = Some (k, a) ->
  ids (<[k := descriptorOf t]> c) = ids c.
Proof.
  intros (Hk & Hid & _)%findById_Some. unfold ids.
  rewrite list_fmap_insert. apply list_insert_id.
  rewrite list_lookup_fmap, Hk. simpl. f_equal. by rewrite Hid.
Qed.

(** A step either keeps the id at every index and appends nothing (the
    template's id was found), or appends the template's descriptor and logs
    it as added (the id was not found). *)
Lemma mergeStep_shape s acc t :
  (ids (mergeStep s acc t).1 = ids acc.1 /\
   mr_added (mergeStep s acc t).2 = mr_added acc.2 /\
   template_id t ∈ ids acc.1) \/
  ((mergeStep s acc t).1 = acc.1 ++ [descriptorOf t] /\
   mr_added (mergeStep s acc t).2 = mr_added acc.2 ++ [entryOf t] /\
   template_id t ∉ ids acc.1).
Proof.
  unfold mergeStep.
  destruct (findById (template_id t) acc.1) as [[k a]|] eqn:Hf.
  - left.
    assert (Hin : template_id t ∈ ids acc.1).
    { apply findById_Some in Hf as (Hk & Hid & _). unfold ids.
      apply list_elem_of_fmap. exists a. split; [done|].
      by eapply list_elem_of_lookup_2. }
    destruct (isProtected a); [|destruct s]; simpl;
      rewrite ?(ids_replace _ _ _ _ Hf); by split_and!.
  - right. simpl. split_and!; [done..|]. by apply findById_None.
Qed.

(** The invariant of the merge loop behind the order guarantee. *)
Lemma run_ids s c ts :
  let r := run s (c, emptyMergeResult) ts in
  ids r.1 = ids c ++ (addonId <$> mr_added r.2) /\
  (addonId <$> mr_added r.2) `sublist_of` (template_id <$> ts) /\
  forall t, t ∈ ts -> template_id t ∈ ids r.1.
Proof.
  induction ts as [|t ts IH] using rev_ind; simpl.
  - split_and!.
    + by rewrite app_nil_r.
    + constructor.
    + intros t Ht. by apply elem_of_nil in Ht.
  - rewrite run_snoc. destruct IH as (IH1 & IH2 & IH3).
    set (acc := run s (c, emptyMergeResult) ts) in *.
    rewrite fmap_app. simpl.
    destruct (mergeStep_shape s acc t) as [(Hc & Ha & Hin)|(Hc & Ha & Hin)];
      rewrite Hc, Ha.
    + split_and!; [done | by apply sublist_inserts_r |].
      intros t' [Ht'| ->%list_elem_of_singleton]%elem_of_app; auto.
    + unfold ids in *. rewrite !fmap_app, IH1. simpl. split_and!.
      * by rewrite <-app_assoc.
      * by apply sublist_app.
      * intros t' [Ht'| ->%list_elem_of_singleton]%elem_of_app.
        -- rewrite <-IH1. apply elem_of_app. left. by apply IH3.
        -- set_solver.
Qed.

(** A step that finds the template's id leaves the collection as it is or
    replaces the descriptor found. *)
Lemma mergeStep_found s acc t k a :
  findById (template_id t) acc.1 = Some (k, a) ->
  (mergeStep s acc t).1 = acc.1 \/
  (mergeStep s acc t).1 = <[k := descriptorOf t]> acc.1.
Proof.
  intros Hf. unfold mergeStep. rewrite Hf.
  destruct (isProtected a); [by left|]. destruct s; [by right|by left].
Qed.

(** With templates of distinct ids, what follows the old collection is the
    descriptors of the templates whose id was not in it, in their order. *)
Lemma run_tail s c ts :
  NoDup (template_id <$> ts) ->
  drop (length c) (run s (c, emptyMergeResult) ts).1 =
  descriptorOf <$> filter (fun t => template_id t ∉ ids c) ts.
Proof.
  induction ts as [|t ts IH] using rev_ind; intros Hnd.
  - simpl. by rewrite drop_all.
  - rewrite fmap_app in Hnd. apply NoDup_app in Hnd as (Hnd & Hfresh & _).
    specialize (IH Hnd). rewrite run_snoc, filter_app, fmap_app.
    destruct (run_ids s c ts) as (Hids & Hsub & _).
    set (acc := run s (c, emptyMergeResult) ts) in *.
    assert (Hnew : template_id t ∉ (addonId <$> mr_added acc.2)).
    { intros Hin. apply (sublist_subseteq _ _ Hsub) in Hin.
      apply (Hfresh _ Hin). simpl. by left. }
    assert (Hlen : length c <= length acc.1).
    { rewrite <-(length_fmap addon_id c), <-(length_fmap addon_id acc.1).
      fold (ids c) (ids acc.1). rewrite Hids, length_app. lia. }
    destruct (findById (template_id t) acc.1) as [[k a]|] eqn:Hf.
    + assert (Hin : template_id t ∈ ids c).
      { pose proof Hf as (Hk & Hid & _)%findById_Some.
        assert (Ht : template_id t ∈ ids acc.1).
        { unfold ids. apply list_elem_of_fmap. exists a. split; [done|].
          by eapply list_elem_of_lookup_2. }
        rewrite Hids in Ht. by apply elem_of_app in Ht as [?|?]. }
      rewrite filter_cons_False by (intros Hn; by apply Hn).
      simpl. rewrite app_nil_r, <-IH.
      destruct (mergeStep_found s acc t k a Hf) as [->| ->]; [done|].
      apply drop_insert_lt.
      apply list_elem_of_lookup in Hin as [j Hj].
      pose proof (lookup_lt_Some _ _ _ Hj) as Hjn.
      unfold ids in Hjn. rewrite length_fmap in Hjn.
      assert (Hj' : ids acc.1 !! j = Some (template_id t)).
      { rewrite Hids. by apply lookup_app_l_Some. }
      unfold ids in Hj'. rewrite list_lookup_fmap in Hj'.
      destruct (acc.1 !! j) as [y|] eqn:Hy; simplify_eq/=.
      apply findById_Some in Hf as (_ & _ & Hleast).
      destruct (decide (k <= j)); [lia|].
      exfalso. apply (Hleast j y); [done|lia|done].
    + assert (Hout : template_id t ∉ ids c).
      { intros Hin. apply findById_None in Hf. apply Hf.
        rewrite Hids. apply elem_of_app. by left. }
      rewrite filter_cons_True by done. simpl.
      unfold mergeStep. rewrite Hf. simpl.
      by rewrite drop_app_le, IH by done.
Qed.

Lemma mergeStep_skipped_mono s acc t x :
  x ∈ (addonId <$> mr_skipped acc.2) ->
  x ∈ (addonId <$> mr_skipped (mergeStep s acc t).2).
Proof.
  intros Hx. unfold mergeStep.
  destruct (findById (template_id t) acc.1) as [[k a]|]; [|done].
  destruct (isProtected a); [done|]. destruct s; [done|].
  simpl. rewrite fmap_app. apply elem_of_app. by left.
Qed.

Lemma mergeStep_protected_mono s acc t x :
  x ∈ (addonId <$> mr_protected acc.2) ->
  x ∈ (addonId <$> mr_protected (mergeStep s acc t).2).
Proof.
  intros Hx. unfold mergeStep.
  destruct (findById (template_id t) acc.1) as [[k a]|]; [|done].
  destruct (isProtected a); [|by destruct s].
  simpl. rewrite fmap_app. apply elem_of_app. by left.
Qed.

Lemma run_logs_mono s ts : forall acc x,
  (x ∈ (addonId <$> mr_skipped acc.2) ->
   x ∈ (addonId <$> mr_skipped (run s acc ts).2)) /\
  (x ∈ (addonId <$> mr_protected acc.2) ->
   x ∈ (addonId <$> mr_protected (run s acc ts).2)).
Proof.
  induction ts as [|t ts IH]; intros acc x; [done|].
  unfold run. simpl. fold (run s (mergeStep s acc t) ts).
  destruct (IH (mergeStep s acc t) x) as [I1 I2]. split; intros Hx.
  - by apply I1, mergeStep_skipped_mono.
  - by apply I2, mergeStep_protected_mono.
Qed.

(** Under [add-only] a template whose id is present changes nothing: it is
    neither added nor used for an update, and it is logged as skipped, or as
    protected when the addon found for it is protected. *)
Lemma run_addOnly_present ts : forall acc,
  (forall t, t ∈ ts -> template_id t ∈ ids acc.1) ->
  (run AddOnly acc ts).1 = acc.1 /\
  mr_added (run AddOnly acc ts).2 = mr_added acc.2 /\
  mr_updated (run AddOnly acc ts).2 = mr_updated acc.2 /\
  (forall t, t ∈ ts ->
     template_id t ∈ (addonId <$> mr_skipped (run AddOnly acc ts).2) \/
     template_id t ∈ (addonId <$> mr_protected (run AddOnly acc ts).2)).
Proof.
  induction ts as [|t ts IH]; intros acc Hall.
  { split_and!; [done..|]. intros t Ht. by apply elem_of_nil in Ht. }
  unfold run. simpl. fold (run AddOnly (mergeStep AddOnly acc t) ts).
  assert (Hstep : (mergeStep AddOnly acc t).1 = acc.1 /\
                  mr_added (mergeStep AddOnly acc t).2 = mr_added acc.2 /\
                  mr_updated (mergeStep AddOnly acc t).2 = mr_updated acc.2 /\
                  (template_id t ∈ (addonId <$> mr_skipped (mergeStep AddOnly acc t).2) \/
                   template_id t ∈ (addonId <$> mr_protected (mergeStep AddOnly acc t).2))).
  { unfold mergeStep.
    destruct (findById_present (template_id t) acc.1) as [[k a] ->].
    { apply Hall. by left. }
    destruct (isProtected a); simpl; (split_and!; [done..|]);
      rewrite fmap_app; simpl; rewrite elem_of_app, list_elem_of_singleton; auto. }
  destruct Hstep as (H1 & H2 & H3 & H4).
  destruct (IH (mergeStep AddOnly acc t)) as (I1 & I2 & I3 & I4).
  { intros t' Ht'. rewrite H1. apply Hall. by right. }
  split_and!; [congruence..|].
  intros t' [->|Ht']%elem_of_cons; [|by apply I4].
  destruct (run_logs_mono AddOnly ts (mergeStep AddOnly acc t) (template_id t))
    as [M1 M2].
  destruct H4; [left; by apply M1|right; by apply M2].
Qed.

Lemma guarded_find i P acc :
  guarded i P acc -> findById (addon_id P) acc.1 = Some (i, P).
Proof.
  intros (Hi & Hlt & _). unfold findById. apply list_find_Some.
  split_and!; [done..|]. intros j y Hj Hji. by apply Hlt with j.
Qed.

Lemma mergeStep_guarded s i P acc t :
  isProtected P = true -> guarded i P acc -> guarded i P (mergeStep s acc t).
Proof.
  intros HP HG. pose proof (guarded_find _ _ _ HG) as HfP.
  destruct HG as (Hi & Hlt & Hup). unfold mergeStep.
  destruct (findById (template_id t) acc.1) as [[k a]|] eqn:Hf.
  - destruct (isProtected a) eqn:Hpa; [done|].
    destruct s; [|done]. simpl.
    pose proof Hf as (Hk & Hid & Hleast)%findById_Some.
    assert (Hne : template_id t <> addon_id P).
    { intros Heq. rewrite Heq in Hf. rewrite HfP in Hf.
      simplify_eq; congruence. }
    assert (Hki : k <> i).
    { intros ->. rewrite Hi in Hk. simplify_eq; congruence. }
    unfold guarded. simpl. split_and!.
    + by rewrite list_lookup_insert_ne.
    + intros j y Hj Hji. destruct (decide (j = k)) as [->|Hjk].
      * apply list_lookup_insert_Some in Hj as [(_ & <- & _)|[? _]]; [|done].
        unfold addon_id at 1. simpl. exact Hne.
      * rewrite list_lookup_insert_ne in Hj by done. by apply Hlt with j.
    + rewrite fmap_app. simpl. intros [?|Hx%list_elem_of_singleton]%elem_of_app; [done|].
      by symmetry in Hx.
  - unfold guarded. simpl. split_and!; [| |done].
    + by apply lookup_app_l_Some.
    + intros j y Hj Hji. apply Hlt with j; [|done].
      rewrite lookup_app_l in Hj; [done|].
      apply lookup_lt_Some in Hi. lia.
Qed.

Lemma mergeStep_protected_hit s i P acc t :
  isProtected P = true -> guarded i P acc -> template_id t = addon_id P ->
  addon_id P ∈ (addonId <$> mr_protected (mergeStep s acc t).2).
Proof.
  intros HP HG Heq. unfold mergeStep. rewrite Heq.
  rewrite (guarded_find _ _ _ HG), HP. simpl. rewrite fmap_app. simpl.
  rewrite Heq. set_solver.
Qed.

Lemma run_guarded s i P ts : forall acc,
  isProtected P = true -> guarded i P acc ->
  guarded i P (run s acc ts) /\
  ((addon_id P ∈ (addonId <$> mr_protected acc.2) \/
    exists t, t ∈ ts /\ template_id t = addon_id P) ->
   addon_id P ∈ (addonId <$> mr_protected (run s acc ts).2)).
Proof.
  induction ts as [|t ts IH]; intros acc HP HG.
  - split; [done|]. intros [?|(t & Ht & _)]; [done|]. by apply elem_of_nil in Ht.
  - unfold run. simpl. fold (run s (mergeStep s acc t) ts).
    pose proof (mergeStep_guarded s i P acc t HP HG) as HG'.
    destruct (IH _ HP HG') as [IH1 IH2]. split; [done|].
    intros [Hin|(t' & Ht' & Heq)]; apply IH2.
    + left. by apply mergeStep_protected_mono.
    + apply elem_of_cons in Ht' as [->|Ht'].
      * left. by eapply mergeStep_protected_hit.
      * right. eauto.
Qed.

Lemma NoDup_ids_first c i P :
  NoDup (ids c) -> c !! i = Some P ->
  forall j y, c !! j = Some y -> j < i -> addon_id y <> addon_id P.
Proof.
  intros Hnd Hi j y Hj Hji Heq.
  assert (j = i); [|lia].
  eapply (NoDup_lookup (ids c)); [done| |].
  - unfold ids. rewrite list_lookup_fmap, Hj. simpl. by rewrite Heq.
  - unfold ids. by rewrite list_lookup_fmap, Hi.
Qed.

(** C2. Protection invariant: in a collection with unique manifest ids, a
    protected addon [P] met by a template of the same id, under either
    strategy, is still at its index, unchanged, after the merge; the log has
    [P]'s id under [protected] and not under [updated]. *)
Theorem merge_keeps_protected (c : list AddonDescriptor) (ts : list SavedAddon)
    (s : MergeStrategy) (i : nat) (P : AddonDescriptor) (t : SavedAddon) :
  NoDup (addon_id <$> c) ->
  c !! i = Some P ->
  isProtected P = true ->
  t ∈ ts ->
  template_id t = addon_id P ->
  (mergeAddons c ts s).1 !! i = Some P /\
  addon_id P ∈ (addonId <$> mr_protected (mergeAddons c ts s).2) /\
  addon_id P ∉ (addonId <$> mr_updated (mergeAddons c ts s).2).
Proof.
  intros Hnd Hi HP Ht Hid.
  assert (HG : guarded i P (c, emptyMergeResult)).
  { split_and!; [done| |by apply not_elem_of_nil].
    by apply NoDup_ids_first. }
  destruct (run_guarded s i P ts _ HP HG) as [(H1 & _ & H3) H2].
  split_and!; [done| |done]. apply H2. right. eauto.
Qed.

Lemma merge_keeps_protected_witness :
  (mergeAddons [Fixtures.addonA; Fixtures.addonB] [Fixtures.savedA]
     ReplaceMatching).1 !! 0 = Some Fixtures.addonA /\
  addon_id Fixtures.addonA ∈
    (addonId <$> mr_protected
       (mergeAddons [Fixtures.addonA; Fixtures.addonB] [Fixtures.savedA]
          ReplaceMatching).2) /\
  addon_id Fixtures.addonA ∉
    (addonId <$> mr_updated
       (mergeAddons [Fixtures.addonA; Fixtures.addonB] [Fixtures.savedA]
          ReplaceMatching).2).
Proof.
  apply (merge_keeps_protected _ _ _ 0 Fixtures.addonA Fixtures.savedA).
  - refine (bool_decide_unpack (NoDup (addon_id <$> [Fixtures.addonA; Fixtures.addonB])) _).
    vm_compute. exact I.
  - reflexivity.
  - reflexivity.
  - apply list_elem_of_here.
  - reflexivity.
Defined.

(** C3. Order preservation: after a merge every index of the old collection
    still carries the manifest id it carried (a replaced addon stays at its
    index); what follows the old indices is exactly what the merge logged as
    added, in the order of the templates; every template whose id is not in
    the old collection is among them; and for templates of distinct ids the
    tail is the descriptors of the templates whose id was not in the old
    collection, in template order. *)
Theorem merge_preserves_order (c : list AddonDescriptor) (ts : list SavedAddon)
    (s : MergeStrategy) :
  (forall i a, c !! i = Some a ->
     exists a', (mergeAddons c ts s).1 !! i = Some a' /\ addon_id a' = addon_id a) /\
  addon_id <$> drop (length c) (mergeAddons c ts s).1 =
    addonId <$> mr_added (mergeAddons c ts s).2 /\
  (addonId <$> mr_added (mergeAddons c ts s).2) `sublist_of` (template_id <$> ts) /\
  (forall t, t ∈ ts -> template_id t ∉ (addon_id <$> c) ->
     template_id t ∈ (addonId <$> mr_added (mergeAddons c ts s).2)) /\
  (NoDup (template_id <$> ts) ->
     drop (length c) (mergeAddons c ts s).1 =
     descriptorOf <$> filter (fun t => template_id t ∉ (addon_id <$> c)) ts).
Proof.
  destruct (run_ids s c ts) as (H1 & H2 & H3).
  pose proof (run_tail s c ts) as H4.
  change (run s (c, emptyMergeResult) ts) with (mergeAddons c ts s) in *.
  set (r := mergeAddons c ts s) in *. unfold ids in *.
  split_and!.
  - intros i a Hi.
    assert (Hl : (addon_id <$> r.1) !! i = Some (addon_id a)).
    { rewrite H1. apply lookup_app_l_Some. by rewrite list_lookup_fmap, Hi. }
    rewrite list_lookup_fmap in Hl.
    destruct (r.1 !! i) as [a'|]; simplify_eq/=. eauto.
  - rewrite fmap_drop, H1.
    by rewrite drop_app_length' by (by rewrite length_fmap).
  - done.
  - intros t Ht Hnot. specialize (H3 t Ht). rewrite H1 in H3.
    apply elem_of_app in H3 as [?|?]; done.
  - done.
Qed.

(** C4. Add-only is idempotent on the collection: merging the same templates
    again into the result of an [add-only] merge gives the same collection;
    that second merge adds nothing and updates nothing, and logs every
    template as skipped, or as protected when the addon found for it is
    protected. *)
Theorem merge_addOnly_idempotent (c : list AddonDescriptor) (ts : list SavedAddon) :
  (mergeAddons (mergeAddons c ts AddOnly).1 ts AddOnly).1 =
    (mergeAddons c ts AddOnly).1 /\
  mr_added (mergeAddons (mergeAddons c ts AddOnly).1 ts AddOnly).2 = [] /\
  mr_updated (mergeAddons (mergeAddons c ts AddOnly).1 ts AddOnly).2 = [] /\
  (forall t, t ∈ ts ->
     template_id t ∈
       (addonId <$> mr_skipped (mergeAddons (mergeAddons c ts AddOnly).1 ts AddOnly).2) \/
     template_id t ∈
       (addonId <$> mr_protected (mergeAddons (mergeAddons c ts AddOnly).1 ts AddOnly).2)).
Proof.
  destruct (run_ids AddOnly c ts) as (_ & _ & H3).
  change (run AddOnly (c, emptyMergeResult) ts) with (mergeAddons c ts AddOnly) in H3.
  apply (run_addOnly_present ts ((mergeAddons c ts AddOnly).1, emptyMergeResult) H3).
Qed.

End MergerFacts.

(** ** Reasoning about computations *)

Section MonadFacts.
Context {S : Type}.

Lemma bind_eq {A B} (m : M S A) (f : A -> M S B) (s : S) :
  (m ≫= f) s =
  match m s with
  | (Ok a, s') => f a s'
  | (Throw e, s') => (Throw e, s')
  end.
Proof. reflexivity. Qed.

Lemma bind_Ok {A B} (m : M S A) (f : A -> M S B) s a s' :
  m s = (Ok a, s') -> (m ≫= f) s = f a s'.
Proof. intros H. by rewrite bind_eq, H. Qed.

Lemma bind_Throw {A B} (m : M S A) (f : A -> M S B) s e s' :
  m s = (Throw e, s') -> (m ≫= f) s = (Throw e, s').
Proof. intros H. by rewrite bind_eq, H. Qed.

Lemma bind_Ok_inv {A B} (m : M S A) (f : A -> M S B) s b s'' :
  (m ≫= f) s = (Ok b, s'') ->
  exists a s', m s = (Ok a, s') /\ f a s' = (Ok b, s'').
Proof.
  rewrite bind_eq. destruct (m s) as [[a|e] s']; [eauto|done].
Qed.

Lemma ret_eq {A} (a : A) (s : S) : (mret a : M S A) s = (Ok a, s).
Proof. reflexivity. Qed.

(** A handler that throws the error again changes nothing. *)
Lemma try_catch_rethrow {A} (m : M S A) (s : S) :
  try_catch m (fun e => throw e) s = m s.
Proof. unfold try_catch, throw. by destruct (m s) as [[a|e] s']. Qed.

Lemma forEach_app {A} (body : A -> M S unit) (l k : list A) (s : S) :
  forEach body (l ++ k) s =
  match forEach body l s with
  | (Ok _, s') => forEach body k s'
  | (Throw e, s') => (Throw e, s')
  end.
Proof.
  revert s. induction l as [|x l IH]; intros s; simpl; [done|].
  rewrite !bind_eq. destruct (body x s) as [[[]|e] s']; [apply IH|done].
Qed.


Lemma keeps_ret {A} (R : S -> S -> Prop) `{!Reflexive R} (a : A) :
  keeps R (mret a : M S A).
Proof. intros s r s' [= <- <-]. reflexivity. Qed.

Lemma keeps_throw {A} (R : S -> S -> Prop) `{!Reflexive R} e :
  keeps R (throw e : M S A).
Proof. intros s r s' [= <- <-]. reflexivity. Qed.

Lemma keeps_gets {A} (R : S -> S -> Prop) `{!Reflexive R} (f : S -> A) :
  keeps R (gets f).
Proof. intros s r s' [= <- <-]. reflexivity. Qed.

Lemma keeps_bind {A B} (R : S -> S -> Prop) `{!Transitive R}
    (m : M S A) (f : A -> M S B) :
  keeps R m -> (forall a, keeps R (f a)) -> keeps R (m ≫= f).
Proof.
  intros Hm Hf s r s'. rewrite bind_eq.
  destruct (m s) as [[a|e] s1] eqn:E.
  - intros H. etrans; [by eapply Hm|by eapply Hf].
  - intros [= <- <-]. by eapply Hm.
Qed.

Lemma keeps_try_catch {A} (R : S -> S -> Prop) `{!Transitive R}
    (m : M S A) (h : string -> M S A) :
  keeps R m -> (forall e, keeps R (h e)) -> keeps R (try_catch m h).
Proof.
  intros Hm Hh s r s'. unfold try_catch.
  destruct (m s) as [[a|e] s1] eqn:E.
  - intros [= <- <-]. by eapply Hm.
  - intros H. etrans; [by eapply Hm|by eapply Hh].
Qed.

Lemma keeps_try_finally {A} (R : S -> S -> Prop) `{!Transitive R}
    (m : M S A) (f : M S unit) :
  keeps R m -> keeps R f -> keeps R (try_finally m f).
Proof.
  intros Hm Hf s r s'. unfold try_finally.
  destruct (m s) as [r1 s1] eqn:E. destruct (f s1) as [[[]|e] s2] eqn:E2.
  - intros [= <- <-]. etrans; [by eapply Hm|by eapply Hf].
  - intros [= <- <-]. etrans; [by eapply Hm|by eapply Hf].
Qed.

Lemma keeps_forEach {A} (R : S -> S -> Prop) `{!Reflexive R} `{!Transitive R}
    (body : A -> M S unit) (l : list A) :
  (forall x, keeps R (body x)) -> keeps R (forEach body l).
Proof.
  intros Hb. induction l as [|x l IH]; simpl.
  - by apply keeps_ret.
  - apply keeps_bind; [done..|]. intros _. exact IH.
Qed.

End MonadFacts.

Lemma liftW_eq {L S A} (m : M S A) (l : L) (s : S) :
  liftW m (l, s) = ((m s).1, (l, (m s).2)).
Proof. unfold liftW. simpl. by destruct (m s). Qed.

Lemma keeps_liftW {L S A} (R : S -> S -> Prop) (m : M S A) :
  keeps R m -> keeps (fun ls ls' : L * S => R ls.2 ls'.2) (liftW m).
Proof.
  intros Hm [l s] r [l' s']. unfold liftW. simpl.
  destruct (m s) as [r1 s1] eqn:E. intros [= <- <- <-]. by eapply Hm.
Qed.

Lemma keeps_withLocal {L S A} (R : S -> S -> Prop) (l0 : L) (m : M (L * S) A) :
  keeps (fun ls ls' : L * S => R ls.2 ls'.2) m -> keeps R (withLocal l0 m).
Proof.
  intros Hm s r s'. unfold withLocal.
  destruct (m (l0, s)) as [r1 [l1 s1]] eqn:E. intros [= <- <-].
  by apply (Hm _ _ _ E).
Qed.

Lemma keeps_modifyLocal {L S} (R : S -> S -> Prop) `{!Reflexive R} (f : L -> L) :
  keeps (fun ls ls' : L * S => R ls.2 ls'.2) (modifyLocal f).
Proof. intros [l s] r [l' s'] [= <- <- <-]. reflexivity. Qed.

Lemma keeps_getLocal {L S} (R : S -> S -> Prop) `{!Reflexive R} :
  keeps (fun ls ls' : L * S => R ls.2 ls'.2) (@getLocal L S).
Proof. intros [l s] r [l' s'] [= <- <- <-]. reflexivity. Qed.

(** ** The service calls *)

Module ApiFacts.
Import Api.

Lemma getAddons_eq authKey w :
  getAddons authKey w =
  (match fault (nextEvent (env w)) with
   | Some flt => Throw (clientMessage flt "Failed to get addon collection")
   | None =>
       match remote (env w) !! authKey with
       | Some c => Ok c
       | None => Throw "Failed to get addon collection"
       end
   end, setEnv (afterTrip (AddonCollectionGet authKey)) w).
Proof.
  unfold getAddons, StremioClient.getAddonCollection. rewrite bind_eq. simpl.
  destruct (fault (nextEvent (env w))); [done|].
  rewrite bind_eq. simpl. by destruct (remote (env w) !! authKey).
Qed.

Lemma getAddons_Ok authKey w c w1 :
  getAddons authKey w = (Ok c, w1) ->
  remote (env w) !! authKey = Some c /\
  w1 = setEnv (afterTrip (AddonCollectionGet authKey)) w.
Proof.
  rewrite getAddons_eq.
  destruct (fault (nextEvent (env w))); [done|].
  destruct (remote (env w) !! authKey); [|done]. by intros [= -> <-].
Qed.

Lemma updateAddons_eq authKey addons w :
  updateAddons authKey addons w =
  match fault (nextEvent (env w)) with
  | Some flt => (Throw (clientMessage flt "Failed to set addon collection"),
                 setEnv (afterTrip (AddonCollectionSet authKey addons)) w)
  | None =>
      match remote (env w) !! authKey with
      | Some _ => (Ok tt, ApiAux.written authKey addons w)
      | None => (Throw "Failed to set addon collection",
                 setEnv (afterTrip (AddonCollectionSet authKey addons)) w)
      end
  end.
Proof.
  unfold updateAddons, StremioClient.setAddonCollection. rewrite bind_eq. simpl.
  destruct (fault (nextEvent (env w))); [done|].
  rewrite bind_eq. simpl. by destruct (remote (env w) !! authKey).
Qed.

End ApiFacts.

(** ** The account state synchronizer *)

Module SyncFacts.
Import AddonStoreOps SyncAux.

Lemma syncLoop_eq existing live : forall l w,
  forEach (syncOne existing) live (l, w) =
  (Ok tt,
   (l ++ (syncEntry (library (addonStore w)) existing (clock (env w)) <$> live), w)).
Proof.
  induction live as [|a live IH]; intros l w; simpl.
  - by rewrite app_nil_r.
  - rewrite bind_eq.
    assert (Hone : syncOne existing a (l, w) =
      (Ok tt, (l ++ [syncEntry (library (addonStore w)) existing (clock (env w)) a], w))).
    { unfold syncOne, syncEntry.
      by destruct (findExisting existing (addon_id a)). }
    rewrite Hone, IH. by rewrite <-app_assoc.
Qed.

(** What a successful run of [syncAccountState] has done. *)
Lemma syncAccountState_Ok accountId accountAuthKey w w' :
  syncAccountState accountId accountAuthKey w = (Ok tt, w') ->
  exists authKey live,
    cipher (env w) !! accountAuthKey = Some authKey /\
    remote (env w) !! authKey = Some live /\
    accountStates (addonStore w') =
      <[accountId :=
          syncedState accountId (library (addonStore w))
            (accountStates (addonStore w) !! accountId)
            (clock (env w) + elapsed (nextEvent (env w))) live]>
        (accountStates (addonStore w)) /\
    clock (env w) + elapsed (nextEvent (env w)) <= clock (env w') /\
    sameButStates w w'.
Proof.
  unfold syncAccountState. rewrite try_catch_rethrow.
  unfold getEncryptionKey, decrypt. rewrite !bind_eq. simpl.
  destruct (encryptionKey (env w)) as [key|] eqn:Hk; [|done].
  unfold mret at 1, M_ret at 1. rewrite !bind_eq. simpl.
  destruct (cipher (env w) !! accountAuthKey) as [authKey|] eqn:Hc; [|done].
  unfold mret at 1, M_ret at 1. rewrite !bind_eq, ApiFacts.getAddons_eq.
  destruct (fault (nextEvent (env w))) eqn:Hf; [done|].
  destruct (remote (env w) !! authKey) as [live|] eqn:Hlive; [|done].
  rewrite !bind_eq. simpl. unfold withLocal. rewrite !bind_eq, syncLoop_eq. simpl.
  unfold saveAccountAddonStates. repeat (rewrite bind_eq; simpl).
  match goal with
  | |- context [fault ?ev] => destruct (fault ev)
  end; [done|].
  unfold mret, M_ret. intros [= <-].
  exists authKey, live. split_and!; [done..|simpl; lia|].
  unfold sameButStates. simpl. split_and!; [done..|lia].
Qed.


Lemma findExisting_Some existing i e :
  findExisting existing i = Some e -> ia_addonId e = i.
Proof.
  unfold findExisting. destruct existing as [st|]; simpl; [|done].
  destruct (list_find _ _) as [[k x]|] eqn:Hf; simpl; [|done].
  intros [= <-]. by apply list_find_Some in Hf as (_ & ? & _).
Qed.


Lemma syncEntry_addonId l existing now a :
  ia_addonId (syncEntry l existing now a) = addon_id a.
Proof.
  unfold syncEntry.
  destruct (findExisting existing (addon_id a)) as [e|] eqn:He; [|done].
  simpl. by apply findExisting_Some in He.
Qed.

Lemma syncEntry_installUrl l existing now a :
  ia_installUrl (syncEntry l existing now a) = transportUrl a.
Proof.
  unfold syncEntry. by destruct (findExisting existing (addon_id a)).
Qed.

Lemma withInstallUrl_same e : withInstallUrl (ia_installUrl e) e = e.
Proof. by destruct e. Qed.

(** In a collection with unique ids the lookup of an addon's id finds it. *)
Lemma find_own_id (live : list AddonDescriptor) a :
  NoDup (addon_id <$> live) -> a ∈ live ->
  exists i, list_find (fun y => addon_id y = addon_id a) live = Some (i, a).
Proof.
  intros Hnd Ha.
  destruct (list_find_elem_of (fun y => addon_id y = addon_id a) live a Ha eq_refl)
    as [[j y] Hj].
  exists j. rewrite Hj. do 2 f_equal.
  apply list_find_Some in Hj as (Hy & Hid & _).
  apply list_elem_of_lookup in Ha as [i Hi].
  assert (j = i).
  { eapply (NoDup_lookup (addon_id <$> live)); [done| |].
    - rewrite list_lookup_fmap, Hy. simpl. by rewrite Hid.
    - by rewrite list_lookup_fmap, Hi. }
  subst j. congruence.
Qed.

(** The entry made for a live addon is made again, unchanged, by a second
    run over the same collection. *)
Lemma syncEntry_again accountId l prev t1 t2 live a :
  NoDup (addon_id <$> live) -> a ∈ live ->
  syncEntry l (Some (syncedState accountId l prev t1 live)) t2 a =
  syncEntry l prev t1 a.
Proof.
  intros Hnd Ha. unfold syncEntry at 1. unfold findExisting. simpl.
  rewrite list_find_fmap.
  rewrite (list_find_ext _ (fun y => addon_id y = addon_id a)).
  2:{ intros y. simpl. by rewrite syncEntry_addonId. }
  destruct (find_own_id live a Hnd Ha) as [i ->]. simpl.
  rewrite <-(syncEntry_installUrl l prev t1 a) at 1.
  apply withInstallUrl_same.
Qed.



(** C5 (as amended). Running [syncAccountState] twice in a row for an account
    whose live collection has unique manifest ids leaves, after the second
    run, the same account id and the same list of installed addons as after
    the first; [lastSync] is stamped anew by each run and does not go back. *)
Theorem sync_twice_same_entries (accountId accountAuthKey : string)
    (w w1 w2 : World) (authKey : string) (live : list AddonDescriptor) :
  cipher (env w) !! accountAuthKey = Some authKey ->
  remote (env w) !! authKey = Some live ->
  NoDup (addon_id <$> live) ->
  syncAccountState accountId accountAuthKey w = (Ok tt, w1) ->
  syncAccountState accountId accountAuthKey w1 = (Ok tt, w2) ->
  exists st1 st2,
    accountStates (addonStore w1) !! accountId = Some st1 /\
    accountStates (addonStore w2) !! accountId = Some st2 /\
    st_accountId st2 = st_accountId st1 /\
    st_installedAddons st2 = st_installedAddons st1 /\
    st_lastSync st1 <= st_lastSync st2.
Proof.
  intros Hc Hlive Hnd H1 H2.
  apply syncAccountState_Ok in H1 as (k1 & live1 & Hc1 & Hl1 & Hst1 & Ht1 & Hsame1).
  apply syncAccountState_Ok in H2 as (k2 & live2 & Hc2 & Hl2 & Hst2 & _ & Hsame2).
  destruct Hsame1 as (Hlib & Hrem & Hcip & _ & Hclk).
  rewrite Hcip in Hc2. rewrite Hrem in Hl2. simplify_eq.
  rewrite Hst1 in Hst2 at 1. rewrite lookup_insert_eq in Hst2.
  rewrite Hlib in Hst2.
  do 2 eexists. split; [by rewrite Hst1, lookup_insert_eq|].
  split; [by rewrite Hst2, lookup_insert_eq|].
  simpl. split_and!; [done| |lia].
  apply list_eq_same_length with (length live);
    [by rewrite length_fmap..|].
  intros i x y Hi Hx Hy.
  rewrite list_lookup_fmap in Hx. rewrite list_lookup_fmap in Hy.
  destruct (live !! i) as [a|] eqn:Ha; simplify_eq/=.
  eapply syncEntry_again; [done|]. by eapply list_elem_of_lookup_2.
Qed.


End SyncFacts.

(** ** The bulk orchestrator *)

Module BulkFacts.
Import AddonStoreOps BulkAux.

#[local] Instance libraryKept_refl : Reflexive libraryKept.
Proof. intros w. by split. Qed.

#[local] Instance libraryKept_trans : Transitive libraryKept.
Proof. intros a b c [H1 H2] [H3 H4]. split; [congruence|lia]. Qed.

#[local] Instance libraryKeptL_refl {L} : Reflexive (@libraryKeptL L).
Proof. intros ls. apply libraryKept_refl. Qed.

#[local] Instance libraryKeptL_trans {L} : Transitive (@libraryKeptL L).
Proof. intros a b c. apply libraryKept_trans. Qed.

Lemma keeps_roundTrip c : keeps libraryKept (roundTrip c).
Proof. intros w r w' [= <- <-]. split; simpl; [done|lia]. Qed.

Lemma keeps_getEncryptionKey : keeps libraryKept getEncryptionKey.
Proof.
  apply keeps_bind; [apply _|by apply keeps_gets|].
  intros [k|]; [by apply keeps_ret|by apply keeps_throw].
Qed.

Lemma keeps_decrypt c k : keeps libraryKept (decrypt c k).
Proof.
  apply keeps_bind; [apply _|by apply keeps_gets|].
  intros [p|]; [by apply keeps_ret|by apply keeps_throw].
Qed.

Lemma keeps_getAddons k : keeps libraryKept (Api.getAddons k).
Proof.
  intros w r w'. rewrite ApiFacts.getAddons_eq. intros [= <- <-].
  split; simpl; [done|lia].
Qed.

Lemma keeps_updateAddons k c : keeps libraryKept (Api.updateAddons k c).
Proof.
  intros w r w'. rewrite ApiFacts.updateAddons_eq.
  destruct (fault (nextEvent (env w))).
  - intros [= <- <-]. split; simpl; [done|lia].
  - destruct (remote (env w) !! k); intros [= <- <-]; split; simpl; (done || lia).
Qed.

Lemma keeps_syncAccountState a k : keeps libraryKept (syncAccountState a k).
Proof.
  intros w r w'. unfold syncAccountState. rewrite try_catch_rethrow.
  revert w r w'. change (keeps libraryKept
    (key ← getEncryptionKey;
     authKey ← decrypt k key;
     currentAddons ← Api.getAddons authKey;
     existingState ← gets (fun w => accountStates (addonStore w) !! a);
     installedAddons ←
       withLocal [] (forEach (syncOne existingState) currentAddons;; getLocal);
     now ← newDate;
     let state := {| st_accountId := a;
                     st_installedAddons := installedAddons;
                     st_lastSync := now |} in
     states ← gets (fun w => accountStates (addonStore w));
     let accountStates := <[a := state]> states in
     setAccountStates accountStates;;
     saveAccountAddonStates accountStates)).
  apply keeps_bind; [apply _|apply keeps_getEncryptionKey|]. intros key.
  apply keeps_bind; [apply _|apply keeps_decrypt|]. intros authKey.
  apply keeps_bind; [apply _|apply keeps_getAddons|]. intros live.
  apply keeps_bind; [apply _|by apply keeps_gets|]. intros existing.
  apply keeps_bind; [apply _| |].
  { intros w r w'. unfold withLocal. rewrite bind_eq, SyncFacts.syncLoop_eq.
    simpl. intros [= <- <-]. reflexivity. }
  intros installed.
  apply keeps_bind; [apply _|by apply keeps_gets|]. intros now.
  apply keeps_bind; [apply _|by apply keeps_gets|]. intros states. simpl.
  apply keeps_bind; [apply _| |].
  { intros w r w' [= <- <-]. by split. }
  intros _. unfold saveAccountAddonStates.
  apply keeps_bind; [apply _|apply keeps_roundTrip|].
  intros [f|]; [by apply keeps_throw|by apply keeps_ret].
Qed.

Lemma keeps_recordFailure a e : keeps libraryKeptL (recordFailure a e).
Proof.
  apply keeps_bind; [apply _|by apply (keeps_modifyLocal libraryKept)|].
  intros _. by apply (keeps_modifyLocal libraryKept).
Qed.

Lemma keeps_applyToAccount saved strategy account :
  keeps libraryKeptL (applyToAccount saved strategy account).
Proof.
  apply keeps_try_catch; [apply _| |intros e; apply keeps_recordFailure].
  apply keeps_bind; [apply _|apply keeps_liftW, keeps_getEncryptionKey|]. intros key.
  apply keeps_bind; [apply _|apply keeps_liftW, keeps_decrypt|]. intros authKey.
  apply keeps_bind; [apply _|apply keeps_liftW, keeps_getAddons|]. intros live.
  simpl.
  apply keeps_bind; [apply _|apply keeps_liftW, keeps_updateAddons|]. intros _.
  apply keeps_bind; [apply _|by apply (keeps_modifyLocal libraryKept)|]. intros _.
  apply keeps_bind; [apply _|by apply (keeps_modifyLocal libraryKept)|]. intros _.
  apply keeps_liftW, keeps_syncAccountState.
Qed.

Lemma stampLoop_eq saved : forall l w,
  forEach stampOne saved (l, w) = (Ok tt, (stamped (clock (env w)) l saved, w)).
Proof.
  induction saved as [|s saved IH]; intros l w; simpl; [done|].
  rewrite bind_eq. unfold stampOne at 1. rewrite bind_eq. simpl. by rewrite IH.
Qed.

#[local] Ltac failed_only :=
  rewrite bind_eq; simpl; do 2 eexists; (split; [reflexivity|]);
  right; left; eexists; (split; [|reflexivity]); reflexivity.

(** The three ways an account can go through the loop of
    [bulkApplySavedAddons]. *)
Lemma applyToAccount_outcome saved strategy account r w :
  exists r' w',
    applyToAccount saved strategy account (r, w) = (Ok tt, (r', w')) /\
    outcome account r r'.
Proof.
  unfold applyToAccount, try_catch, recordFailure.
  rewrite bind_eq, liftW_eq.
  destruct (getEncryptionKey w) as [[key|e] w1]; simpl;
    [|by failed_only].
  rewrite bind_eq, liftW_eq.
  destruct (decrypt (ar_authKey account) key w1) as [[authKey|e] w2]; simpl;
    [|by failed_only].
  rewrite bind_eq, liftW_eq.
  destruct (Api.getAddons authKey w2) as [[live|e] w3]; simpl;
    [|by failed_only].
  rewrite bind_eq, liftW_eq.
  destruct (Api.updateAddons authKey _ w3) as [[[]|e] w4]; simpl;
    [|by failed_only].
  repeat (rewrite bind_eq; simpl). rewrite liftW_eq.
  destruct (syncAccountState (ar_id account) (ar_authKey account) w4)
    as [[[]|e] w5]; simpl.
  - do 2 eexists. split; [done|]. left. eexists. split; [|done]. done.
  - rewrite bind_eq. simpl. do 2 eexists. split; [done|].
    right; right. do 2 eexists. split_and!; [| |done]; done.
Qed.

(** The same for the loop of [bulkRemoveAddons]. *)
Lemma removeFromAccount_outcome addonIds account r w :
  exists r' w',
    removeFromAccount addonIds account (r, w) = (Ok tt, (r', w')) /\
    outcome account r r'.
Proof.
  unfold removeFromAccount, try_catch, recordFailure.
  rewrite bind_eq, liftW_eq.
  destruct (getEncryptionKey w) as [[key|e] w1]; simpl;
    [|by failed_only].
  rewrite bind_eq, liftW_eq.
  destruct (decrypt (ar_authKey account) key w1) as [[authKey|e] w2]; simpl;
    [|by failed_only].
  rewrite bind_eq, liftW_eq.
  destruct (Api.getAddons authKey w2) as [[live|e] w3]; simpl;
    [|by failed_only].
  rewrite bind_eq, liftW_eq.
  destruct (Api.updateAddons authKey _ w3) as [[[]|e] w4]; simpl;
    [|by failed_only].
  repeat (rewrite bind_eq; simpl). rewrite liftW_eq.
  destruct (syncAccountState (ar_id account) (ar_authKey account) w4)
    as [[[]|e] w5]; simpl.
  - do 2 eexists. split; [done|]. left. eexists. split; [|done]. done.
  - rewrite bind_eq. simpl. do 2 eexists. split; [done|].
    right; right. do 2 eexists. split_and!; [| |done]; done.
Qed.

Lemma outcome_facts account r r' :
  outcome account r r' ->
  success r + failed r + 1 <= success r' + failed r' <= success r + failed r + 2 /\
  (tallied r -> tallied r') /\
  (forall x, x ∈ accountsSeen r -> x ∈ accountsSeen r') /\
  ar_id account ∈ accountsSeen r'.
Proof.
  unfold tallied, accountsSeen.
  intros [(d & Hd & ->)|[(e & He & ->)|(d & e & Hd & He & ->)]]; simpl;
    rewrite ?fmap_app, ?length_app; simpl; rewrite ?Hd, ?He;
    (split_and!; [lia|lia|intros [-> ->]; lia| |];
     [intros x|]; rewrite ?elem_of_app, ?list_elem_of_singleton; tauto).
Qed.

(** A bulk loop reaches the end of its list of accounts whatever happens for
    each of them, and reports on every account. *)
Lemma loop_isolates (body : AccountRef -> M (BulkResult * World) unit) accts :
  (forall a r w, exists r' w',
     body a (r, w) = (Ok tt, (r', w')) /\ outcome a r r') ->
  forall r w, exists r' w',
    forEach body accts (r, w) = (Ok tt, (r', w')) /\
    success r + failed r + length accts <= success r' + failed r'
      <= success r + failed r + 2 * length accts /\
    (tallied r -> tallied r') /\
    (forall x, x ∈ accountsSeen r -> x ∈ accountsSeen r') /\
    (forall a, a ∈ accts -> ar_id a ∈ accountsSeen r').
Proof.
  intros Hbody. induction accts as [|a accts IH]; intros r w; simpl.
  - exists r, w. split_and!; [done|lia|lia|done|done|].
    intros a Ha. by apply elem_of_nil in Ha.
  - rewrite bind_eq. destruct (Hbody a r w) as (r1 & w1 & -> & Hout).
    apply outcome_facts in Hout as (Hn & Ht & Hs & Ha).
    destruct (IH r1 w1) as (r2 & w2 & -> & Hn2 & Ht2 & Hs2 & Ha2).
    exists r2, w2. split_and!; [done|lia|lia|auto|auto|].
    intros a' [->|Ha']%elem_of_cons; auto.
Qed.

(** [bulkRemoveAddons] always returns a result, and the result reports on
    every account. *)
Lemma bulkRemoveAddons_isolates addonIds accts w :
  exists res w',
    bulkRemoveAddons addonIds accts w = (Ok res, w') /\ isolated accts res.
Proof.
  unfold bulkRemoveAddons. repeat (rewrite bind_eq; simpl).
  unfold try_finally, try_catch, withLocal. rewrite bind_eq.
  match goal with |- context [forEach ?b accts (?r0, ?w0)] =>
    destruct (loop_isolates b accts (removeFromAccount_outcome addonIds) r0 w0)
      as (r' & w' & -> & Hn & Ht & _ & Ha)
  end.
  simpl. do 2 eexists. split; [done|]. simpl in Hn.
  split_and!; [lia|lia| |done]. by apply Ht.
Qed.

(** What a run of [bulkApplySavedAddons] that returns has done to the
    library: the resolved templates are stamped, all at one time [now]; and
    its result reports on every account. *)
Lemma bulkApplySavedAddons_Ok ids accts strategy w res w' :
  bulkApplySavedAddons ids accts strategy w = (Ok res, w') ->
  isolated accts res /\
  exists now,
    clock (env w) <= now <= clock (env w') /\
    library (addonStore w') =
      stamped now (library (addonStore w)) (resolved (library (addonStore w)) ids).
Proof.
  unfold bulkApplySavedAddons. repeat (rewrite bind_eq; simpl).
  unfold try_finally, try_catch. repeat (rewrite bind_eq; simpl).
  fold (resolved (library (addonStore w)) ids).
  set (saved := resolved (library (addonStore w)) ids).
  destruct (decide (length saved = 0)) as [?|Hne]; [done|].
  unfold withLocal. rewrite bind_eq.
  match goal with |- context [forEach ?b accts (?r0, ?w0)] =>
    destruct (loop_isolates b accts (applyToAccount_outcome saved strategy) r0 w0)
      as (r & wb & Hloop & Hn & Ht & _ & Ha);
    pose proof (keeps_forEach libraryKeptL b accts
                  (keeps_applyToAccount saved strategy) _ _ _ Hloop) as [Hlib Hclk];
    rewrite Hloop
  end.
  simpl in Hlib, Hclk, Hn.
  repeat (rewrite bind_eq; simpl). unfold liftW at 1. simpl.
  unfold withLocal. rewrite bind_eq, stampLoop_eq. simpl.
  repeat (rewrite bind_eq; simpl).
  unfold liftW at 1, saveAddonLibrary. repeat (rewrite bind_eq; simpl).
  match goal with |- context [fault ?ev] => destruct (fault ev) end; [done|].
  simpl. intros [= <- <-]. split.
  - split_and!; [lia|lia| |done]. by apply Ht.
  - exists (clock (env wb)). simpl. split; [lia|]. by rewrite Hlib.
Qed.

End BulkFacts.

(** ** Updates, reinstall and single removal *)

Module UpdateFacts.
Import Api ApiAux.

Lemma fetchAttempts_S url left i lastError :
  StremioClient.fetchAttempts url (S left) i lastError =
  ((if decide (0 < i) then sleep (1000 * i) else mret tt);;
   f ← roundTrip (ManifestGet url);
   match f with
   | Some Http404 => throw "Addon manifest not found at this URL"
   | Some flt =>
       StremioClient.fetchAttempts url left (S i)
         (faultMessage flt "Failed to fetch addon manifest after retries")
   | None =>
       d ← gets (fun w => served (env w) !! url);
       match d with
       | None =>
           StremioClient.fetchAttempts url left (S i)
             "Invalid addon manifest - could not parse JSON"
       | Some m =>
           if decide (m_id m = "" \/ m_name m = "" \/ m_version m = "")
           then StremioClient.fetchAttempts url left (S i)
                  "Invalid addon manifest - missing required fields"
           else mret {| transportUrl := url; transportName := None;
                        manifest := m; flags := None |}
       end
   end).
Proof. reflexivity. Qed.

(** C9. When the collection read from the account has no addon with the
    requested id, or the addon found for it is protected, [reinstallAddon]
    returns the collection it read with [updatedAddon = null]; the read is
    the only round trip it makes, and the account's collection is as it was. *)
Theorem reinstallAddon_noop (authKey addonId : string) (w : World)
    (currentAddons : list AddonDescriptor) :
  fault (nextEvent (env w)) = None ->
  remote (env w) !! authKey = Some currentAddons ->
  addonId ∉ (addon_id <$> currentAddons) \/
    (exists i a, list_find (fun a => addon_id a = addonId) currentAddons = Some (i, a) /\
                 isProtected a = true) ->
  exists w',
    reinstallAddon authKey addonId w = (Ok (untouched currentAddons), w') /\
    calls (env w') = calls (env w) ++ [AddonCollectionGet authKey] /\
    remote (env w') = remote (env w).
Proof.
  intros Hok Hcur Hskip.
  exists (setEnv (afterTrip (AddonCollectionGet authKey)) w).
  split; [|by split].
  unfold reinstallAddon. rewrite bind_eq, ApiFacts.getAddons_eq, Hok, Hcur.
  destruct Hskip as [Habsent|(i & a & -> & Hprot)].
  - destruct (list_find _ currentAddons) as [[i a]|] eqn:Hfind; [|done].
    apply list_find_Some in Hfind as (Hi & Hid & _).
    exfalso. apply Habsent. apply list_elem_of_fmap. exists a.
    split; [done|]. by eapply list_elem_of_lookup_2.
  - by rewrite Hprot.
Qed.

(** C10. When neither round trip fails, [removeAddon] sends back to the
    account exactly the collection it read without the descriptors whose
    manifest id is the requested one, and returns it.  No flag is looked at:
    a protected descriptor with that id is dropped like any other. *)
Theorem removeAddon_writes_filtered (authKey addonId : string) (w : World)
    (currentAddons : list AddonDescriptor) :
  fault (nextEvent (env w)) = None ->
  remote (env w) !! authKey = Some currentAddons ->
  fault (nextEvent (afterTrip (AddonCollectionGet authKey) (env w))) = None ->
  exists w',
    removeAddon authKey addonId w =
      (Ok (filter (fun a => addon_id a <> addonId) currentAddons), w') /\
    calls (env w') =
      calls (env w) ++
        [AddonCollectionGet authKey;
         AddonCollectionSet authKey
           (filter (fun a => addon_id a <> addonId) currentAddons)] /\
    remote (env w') !! authKey =
      Some (filter (fun a => addon_id a <> addonId) currentAddons) /\
    (forall a, a ∈ currentAddons -> addon_id a = addonId -> isProtected a = true ->
       a ∉ filter (fun a => addon_id a <> addonId) currentAddons).
Proof.
  intros Hget Hcur Hset.
  set (updated := filter (fun a => addon_id a <> addonId) currentAddons).
  exists (ApiAux.written authKey updated
            (setEnv (afterTrip (AddonCollectionGet authKey)) w)).
  split_and!.
  - unfold removeAddon. rewrite bind_eq, ApiFacts.getAddons_eq, Hget, Hcur.
    fold updated. rewrite bind_eq, ApiFacts.updateAddons_eq. simpl.
    by rewrite Hset, Hcur.
  - simpl. by rewrite <-app_assoc.
  - simpl. by rewrite lookup_insert_eq.
  - intros a _ Hid _ Hin. apply list_elem_of_filter in Hin as [Hne _]. done.
Qed.

(** The account store's removal goes through [removeAddon]: when it
    succeeds, the account's collection at the service is the filtered one,
    and the stored account holds its sanitized copy. *)
Lemma removeAddonFromAccount_Ok (accountId addonId : string) (w w' : World) :
  AccountStoreOps.removeAddonFromAccount accountId addonId w = (Ok tt, w') ->
  exists account authKey currentAddons,
    account ∈ accounts (accountStore w) /\
    acc_id account = accountId /\
    cipher (env w) !! acc_authKey account = Some authKey /\
    remote (env w) !! authKey = Some currentAddons /\
    remote (env w') !! authKey =
      Some (filter (fun a => addon_id a <> addonId) currentAddons) /\
    (forall acc, acc ∈ accounts (accountStore w') -> acc_id acc = accountId ->
       acc_addons acc =
         AccountStoreOps.normalizeAddon <$>
           filter (fun a => addon_id a <> addonId) currentAddons).
Proof.
  unfold AccountStoreOps.removeAddonFromAccount.
  repeat (rewrite bind_eq; simpl).
  unfold try_finally, try_catch. repeat (rewrite bind_eq; simpl).
  destruct (list_find _ (accounts (accountStore w))) as [[i account]|] eqn:Hfind; [|done].
  apply list_find_Some in Hfind as (Hi & Hid & _).
  unfold AccountStoreOps.decrypt. repeat (rewrite bind_eq; simpl).
  destruct (cipher (env w) !! acc_authKey account) as [authKey|] eqn:Hc; [|done].
  unfold mret at 1, M_ret at 1. rewrite bind_eq.
  unfold removeAddon. rewrite bind_eq, ApiFacts.getAddons_eq. simpl.
  destruct (fault (nextEvent (env w))); [done|].
  destruct (remote (env w) !! authKey) as [currentAddons|] eqn:Hcur; [|done].
  rewrite bind_eq, ApiFacts.updateAddons_eq. simpl.
  match goal with |- context [fault ?ev] => destruct (fault ev) end; [done|].
  rewrite Hcur. unfold mret at 1, M_ret at 1.
  repeat (rewrite bind_eq; simpl).
  unfold AccountStoreOps.persistAccounts. repeat (rewrite bind_eq; simpl).
  match goal with |- context [fault ?ev] => destruct (fault ev) end; [done|].
  simpl. intros [= <-]. exists account, authKey, currentAddons. simpl.
  split_and!; [by eapply list_elem_of_lookup_2|done..|by rewrite lookup_insert_eq|].
  intros acc (acc0 & -> & _)%list_elem_of_fmap.
  destruct (decide (acc_id acc0 = accountId)); [done|]. by intros ?.
Qed.

End UpdateFacts.

(** ** The properties on the fixtures *)

Module Instances.
Import Fixtures AddonStoreOps BulkAux.

(** C1. An account whose collection was written but whose sync then failed
    is counted both as a success and as a failure: with one account,
    [bulkApplySavedAddons] and [bulkRemoveAddons] return [success = 1] and
    [failed = 1], so [success + failed] is not the number of accounts. *)
Theorem bulk_counts_account_twice :
  (exists res,
     (bulkApplySavedAddons ["s1"] [account1] ReplaceMatching wSyncFails).1 = Ok res /\
     success res = 1 /\ failed res = 1 /\
     be_accountId <$> errors res = ["acc1"] /\
     bd_accountId <$> details res = ["acc1"] /\
     success res + failed res <> length [account1]) /\
  (exists res,
     (bulkRemoveAddons ["org.b"] [account1] wSyncFails).1 = Ok res /\
     success res = 1 /\ failed res = 1 /\
     be_accountId <$> errors res = ["acc1"] /\
     bd_accountId <$> details res = ["acc1"] /\
     success res + failed res <> length [account1]).
Proof.
  split; eexists; (split; [vm_compute; reflexivity|]); simpl;
    split_and!; try reflexivity; lia.
Qed.

(** A failure for the first account does not keep the second from being
    processed. *)
Example bulk_goes_on_after_failure :
  exists res,
    (bulkRemoveAddons ["org.b"] [account2; account1] wCalm).1 = Ok res /\
    be_accountId <$> errors res = ["acc2"] /\
    bd_accountId <$> details res = ["acc1"].
Proof. eexists. split; [vm_compute; reflexivity|]. by split. Qed.

Lemma sync_twice_same_entries_witness :
  exists st1 st2,
    accountStates (addonStore (syncAccountState "acc1" "enc1" wCalm).2)
      !! "acc1" = Some st1 /\
    accountStates
      (addonStore (syncAccountState "acc1" "enc1"
                     (syncAccountState "acc1" "enc1" wCalm).2).2)
      !! "acc1" = Some st2 /\
    st_accountId st2 = st_accountId st1 /\
    st_installedAddons st2 = st_installedAddons st1 /\
    st_lastSync st1 <= st_lastSync st2.
Proof.
  apply (SyncFacts.sync_twice_same_entries "acc1" "enc1" wCalm _ _ "key1"
           [addonA; addonB]).
  - reflexivity.
  - reflexivity.
  - refine (bool_decide_unpack (NoDup (addon_id <$> [addonA; addonB])) _).
    vm_compute. exact I.
  - vm_compute. reflexivity.
  - vm_compute. reflexivity.
Defined.

(** C5, as stated, fails: a second run over the same collection, with the
    library untouched, stores another [lastSync], so the stored state is not
    the one of the first run. *)
Lemma sync_twice_changes_lastSync :
  let w1 := (syncAccountState "acc1" "enc1" wCalm).2 in
  let w2 := (syncAccountState "acc1" "enc1" w1).2 in
  (syncAccountState "acc1" "enc1" wCalm).1 = Ok tt /\
  (syncAccountState "acc1" "enc1" w1).1 = Ok tt /\
  remote (env w1) = remote (env wCalm) /\
  library (addonStore w1) = library (addonStore wCalm) /\
  st_lastSync <$> accountStates (addonStore w1) !! "acc1" = Some 1005 /\
  st_lastSync <$> accountStates (addonStore w2) !! "acc1" = Some 1015 /\
  accountStates (addonStore w2) !! "acc1" <> accountStates (addonStore w1) !! "acc1".
Proof.
  split_and!; try (vm_compute; reflexivity).
  vm_compute. intros [=].
Qed.


(** C6. [bulkApplySavedAddons] stamps a template that was applied to no
    account. The only account cannot be read: the result counts no success
    and one failure, no collection is written, and yet [lastUsed] of the
    template, null before, is set, at the time of the end of the loop. The
    same template applied to the same account, in the same world, by
    [applySavedAddonToAccount] throws and leaves [lastUsed] null: there the
    stamp comes after the write of the collection has succeeded. *)
Theorem bulkApply_stamps_without_apply :
  let out := bulkApplySavedAddons ["s1"] [account1] ReplaceMatching wDown in
  let one :=
    LibraryOps.applySavedAddonToAccount "s1" "acc1" "enc1" ReplaceMatching wDown in
  (exists res, out.1 = Ok res /\ success res = 0 /\ failed res = 1 /\
               details res = []) /\
  calls (env out.2) = [AddonCollectionGet "key1"; SaveAddonLibrary] /\
  remote (env out.2) = remote (env wDown) /\
  library (addonStore wDown) !! "s1" ≫= sa_lastUsed = None /\
  clock (env out.2) = 1005 /\
  library (addonStore out.2) !! "s1" ≫= sa_lastUsed = Some 1005 /\
  (exists e, one.1 = Throw e) /\
  calls (env one.2) = [AddonCollectionGet "key1"] /\
  library (addonStore one.2) !! "s1" ≫= sa_lastUsed = None.
Proof.
  split_and!; try (vm_compute; reflexivity).
  - eexists. split; [vm_compute; reflexivity|]. by split_and!.
  - eexists. vm_compute. reflexivity.
Qed.

Lemma reinstallAddon_noop_witness :
  exists w',
    Api.reinstallAddon "key1" "org.a" wCalm =
      (Ok (ApiAux.untouched [addonA; addonB]), w') /\
    calls (env w') = calls (env wCalm) ++ [AddonCollectionGet "key1"] /\
    remote (env w') = remote (env wCalm).
Proof.
  apply (UpdateFacts.reinstallAddon_noop "key1" "org.a" wCalm [addonA; addonB]).
  - reflexivity.
  - reflexivity.
  - right. exists 0, addonA. split; reflexivity.
Defined.

Lemma removeAddon_writes_filtered_witness :
  exists w',
    Api.removeAddon "key1" "org.a" wCalm =
      (Ok (filter (fun a => addon_id a <> "org.a") [addonA; addonB]), w') /\
    calls (env w') =
      calls (env wCalm) ++
        [AddonCollectionGet "key1";
         AddonCollectionSet "key1"
           (filter (fun a => addon_id a <> "org.a") [addonA; addonB])] /\
    remote (env w') !! "key1" =
      Some (filter (fun a => addon_id a <> "org.a") [addonA; addonB]) /\
    (forall a, a ∈ [addonA; addonB] -> addon_id a = "org.a" -> isProtected a = true ->
       a ∉ filter (fun a => addon_id a <> "org.a") [addonA; addonB]).
Proof.
  apply (UpdateFacts.removeAddon_writes_filtered "key1" "org.a" wCalm [addonA; addonB]).
  - reflexivity.
  - reflexivity.
  - reflexivity.
Defined.

(** The scenario of the specification for the update check: the installed
    1.0.0 against a fetched 1.1.0 is an update, against a fetched 1.0.0 it is
    not; the protected and the official addon are not looked at. *)
Example checkUpdates_scenario :
  let out := Api.checkAddonUpdates [addonA; addonB; addonC; addonD] wServed in
  (exists infos,
     out.1 = Ok infos /\
     Api.ui_addonId <$> infos = ["org.b"; "org.c"] /\
     Api.ui_latestVersion <$> infos = ["1.1.0"; "1.0.0"] /\
     Api.ui_hasUpdate <$> infos = [true; false]) /\
  calls (env out.2) =
    [ManifestGet "https://b.example/manifest.json";
     HealthProbe "https://b.example/manifest.json";
     ManifestGet "https://c.example/manifest.json";
     HealthProbe "https://c.example/manifest.json"].
Proof.
  split; [|vm_compute; reflexivity].
  eexists. split; [vm_compute; reflexivity|]. by split_and!.
Qed.

(** The ledger a first sync makes on the fixture: [org.a] has no library
    entry and is linked to nothing, [org.b] is linked to the template [s1]
    whose [installUrl] is its [transportUrl]. *)
Example sync_scenario :
  (fun st => (fun e => (ia_addonId e, ia_savedAddonId e, ia_installedVia e))
               <$> st_installedAddons st)
    <$> accountStates (addonStore (syncAccountState "acc1" "enc1" wCalm).2) !! "acc1" =
  Some [("org.a", None, ViaManual); ("org.b", Some "s1", ViaSavedAddon)].
Proof. vm_compute. reflexivity. Qed.

(** A reinstall of an id that is not installed reads the collection and
    stops. *)
Example reinstall_absent :
  let out := Api.reinstallAddon "key1" "org.zzz" wCalm in
  out.1 = Ok (ApiAux.untouched [addonA; addonB]) /\
  calls (env out.2) = [AddonCollectionGet "key1"].
Proof. split; vm_compute; reflexivity. Qed.

(** A reinstall of an unprotected addon removes it, installs it again from
    its transport URL, puts it back at its index and reads the collection
    once more. *)
Example reinstall_scenario :
  let out := Api.reinstallAddon "key1" "org.c" wReinstall in
  out.1 = Ok {| Api.rr_addons := [addonC; addonB];
                Api.rr_updatedAddon := Some addonC;
                Api.rr_previousVersion := Some "1.0.0";
                Api.rr_newVersion := Some "1.0.0" |} /\
  calls (env out.2) =
    [AddonCollectionGet "key1";
     AddonCollectionGet "key1"; AddonCollectionSet "key1" [addonB];
     ManifestGet "https://c.example/manifest.json";
     AddonCollectionGet "key1"; AddonCollectionSet "key1" [addonB; addonC];
     AddonCollectionSet "key1" [addonC; addonB];
     AddonCollectionGet "key1"].
Proof. split; vm_compute; reflexivity. Qed.

(** The single removal drops the protected addon that the removal engine of
    the bulk path keeps. *)
Example removal_paths_differ :
  filter (fun a => addon_id a <> "org.a") [addonA; addonB] = [addonB] /\
  Merger.removeAddons [addonA; addonB] ["org.a"; "org.b"] = ([addonA], ["org.a"]).
Proof. split; vm_compute; reflexivity. Qed.

(** The scenarios of the specification for the merge and removal engines. *)
Example merge_scenario_update :
  Merger.mergeAddons [addonA; addonB] [savedB] ReplaceMatching =
  ([addonA; Merger.descriptorOf savedB],
   {| mr_added := []; mr_updated := [{| addonId := "org.b"; name := "org.b" |}];
      mr_skipped := []; mr_protected := [] |}).
Proof. vm_compute. reflexivity. Qed.

Example merge_scenario_protected (s : MergeStrategy) :
  Merger.mergeAddons [addonA] [savedA] s =
  ([addonA],
   {| mr_added := []; mr_updated := []; mr_skipped := [];
      mr_protected := [{| addonId := "org.a"; name := "org.a" |}] |}).
Proof. destruct s; vm_compute; reflexivity. Qed.

End Instances.

(** * Further properties *)

(** ** Frames *)

Module FrameFacts.
Import FrameAux.

#[export] Instance tripsOnly_refl : Reflexive tripsOnly.
Proof. intros w. by repeat split. Qed.

#[export] Instance tripsOnly_trans : Transitive tripsOnly.
Proof.
  intros a b c (?&?&?&?&?&?&?) (?&?&?&?&?&?&?).
  repeat split; congruence.
Qed.

#[export] Instance quiet_refl : Reflexive quiet.
Proof. intros w. by repeat split. Qed.

#[export] Instance quiet_trans : Transitive quiet.
Proof.
  intros a b c (?&?&?&?&?&?&?&?&?) (?&?&?&?&?&?&?&?&?).
  repeat split; congruence.
Qed.

#[export] Instance quietL_refl {L} : Reflexive (@quietL L).
Proof. intros ls. apply quiet_refl. Qed.

#[export] Instance quietL_trans {L} : Transitive (@quietL L).
Proof. intros a b c. apply quiet_trans. Qed.

Lemma tripsOnly_quiet w w' : tripsOnly w w' -> quiet w w'.
Proof.
  intros (Ha & ? & ? & ? & ? & ? & ?). unfold quiet. rewrite Ha. by repeat split.
Qed.

Lemma trips_roundTrip c : keeps tripsOnly (roundTrip c).
Proof. intros w r w' [= <- <-]. by repeat split. Qed.

Lemma trips_sleep ms : keeps tripsOnly (sleep ms).
Proof. intros w r w' [= <- <-]. by repeat split. Qed.

Lemma trips_getAddons k : keeps tripsOnly (Api.getAddons k).
Proof.
  intros w r w'. rewrite ApiFacts.getAddons_eq. intros [= <- <-]. by repeat split.
Qed.

Lemma trips_fetchAttempts url left : forall i lastError,
  keeps tripsOnly (StremioClient.fetchAttempts url left i lastError).
Proof.
  induction left as [|left IH]; intros i lastError.
  - by apply keeps_throw.
  - rewrite UpdateFacts.fetchAttempts_S.
    apply keeps_bind; [apply _| |].
    { destruct (decide (0 < i)); [apply trips_sleep|by apply keeps_ret]. }
    intros _. apply keeps_bind; [apply _|apply trips_roundTrip|].
    intros [[| | |msg]|]; try apply IH; [by apply keeps_throw|].
    apply keeps_bind; [apply _|by apply keeps_gets|].
    intros [m|]; [|apply IH].
    destruct (decide _); [apply IH|by apply keeps_ret].
Qed.

Lemma trips_fetchAddonManifest url :
  keeps tripsOnly (StremioClient.fetchAddonManifest url).
Proof. apply trips_fetchAttempts. Qed.

Lemma trips_checkAddonHealth url : keeps tripsOnly (checkAddonHealth url).
Proof.
  apply keeps_bind; [apply _|apply trips_roundTrip|].
  intros [f|]; [by apply keeps_ret|by apply keeps_gets].
Qed.

Lemma quiet_roundTrip c : keeps quiet (roundTrip c).
Proof. intros w r w' H. by apply tripsOnly_quiet, (trips_roundTrip c w r w'). Qed.

Lemma quiet_getAddons k : keeps quiet (Api.getAddons k).
Proof. intros w r w' H. by apply tripsOnly_quiet, (trips_getAddons k w r w'). Qed.

Lemma quiet_updateAddons k c : keeps quiet (Api.updateAddons k c).
Proof.
  intros w r w'. rewrite ApiFacts.updateAddons_eq.
  destruct (fault (nextEvent (env w))).
  - intros [= <- <-]. by repeat split.
  - destruct (remote (env w) !! k); intros [= <- <-]; by repeat split.
Qed.

Lemma quiet_getEncryptionKey : keeps quiet AddonStoreOps.getEncryptionKey.
Proof.
  apply keeps_bind; [apply _|by apply keeps_gets|].
  intros [k|]; [by apply keeps_ret|by apply keeps_throw].
Qed.

Lemma quiet_decrypt c k : keeps quiet (AddonStoreOps.decrypt c k).
Proof.
  apply keeps_bind; [apply _|by apply keeps_gets|].
  intros [p|]; [by apply keeps_ret|by apply keeps_throw].
Qed.

Lemma quiet_syncAccountState a k : keeps quiet (AddonStoreOps.syncAccountState a k).
Proof.
  intros w r w'. unfold AddonStoreOps.syncAccountState. rewrite try_catch_rethrow.
  unfold AddonStoreOps.getEncryptionKey, AddonStoreOps.decrypt.
  rewrite !bind_eq. simpl.
  destruct (encryptionKey (env w)) as [key|]; [|by intros [= <- <-]].
  unfold mret at 1, M_ret at 1. rewrite !bind_eq. simpl.
  destruct (cipher (env w) !! k) as [authKey|]; [|by intros [= <- <-]].
  unfold mret at 1, M_ret at 1. rewrite !bind_eq, ApiFacts.getAddons_eq.
  destruct (fault (nextEvent (env w))); [intros [= <- <-]; by repeat split|].
  destruct (remote (env w) !! authKey) as [live|];
    [|intros [= <- <-]; by repeat split].
  rewrite !bind_eq. simpl. unfold withLocal.
  rewrite !bind_eq, SyncFacts.syncLoop_eq. simpl.
  unfold AddonStoreOps.saveAccountAddonStates. repeat (rewrite bind_eq; simpl).
  match goal with
  | |- context [fault ?ev] => destruct (fault ev)
  end; intros [= <- <-]; by repeat split.
Qed.

Lemma quiet_recordFailure a e : keeps quietL (AddonStoreOps.recordFailure a e).
Proof.
  apply keeps_bind; [apply _|by apply (keeps_modifyLocal quiet)|].
  intros _. by apply (keeps_modifyLocal quiet).
Qed.

Lemma quiet_applyToAccount saved strategy account :
  keeps quietL (AddonStoreOps.applyToAccount saved strategy account).
Proof.
  apply keeps_try_catch; [apply _| |intros e; apply quiet_recordFailure].
  apply keeps_bind; [apply _|apply keeps_liftW, quiet_getEncryptionKey|]. intros key.
  apply keeps_bind; [apply _|apply keeps_liftW, quiet_decrypt|]. intros authKey.
  apply keeps_bind; [apply _|apply keeps_liftW, quiet_getAddons|]. intros live.
  simpl.
  apply keeps_bind; [apply _|apply keeps_liftW, quiet_updateAddons|]. intros _.
  apply keeps_bind; [apply _|by apply (keeps_modifyLocal quiet)|]. intros _.
  apply keeps_bind; [apply _|by apply (keeps_modifyLocal quiet)|]. intros _.
  apply keeps_liftW, quiet_syncAccountState.
Qed.

Lemma quiet_removeFromAccount addonIds account :
  keeps quietL (AddonStoreOps.removeFromAccount addonIds account).
Proof.
  apply keeps_try_catch; [apply _| |intros e; apply quiet_recordFailure].
  apply keeps_bind; [apply _|apply keeps_liftW, quiet_getEncryptionKey|]. intros key.
  apply keeps_bind; [apply _|apply keeps_liftW, quiet_decrypt|]. intros authKey.
  apply keeps_bind; [apply _|apply keeps_liftW, quiet_getAddons|]. intros live.
  simpl.
  apply keeps_bind; [apply _|apply keeps_liftW, quiet_updateAddons|]. intros _.
  apply keeps_bind; [apply _|by apply (keeps_modifyLocal quiet)|]. intros _.
  apply keeps_bind; [apply _|by apply (keeps_modifyLocal quiet)|]. intros _.
  apply keeps_liftW, quiet_syncAccountState.
Qed.

(** When no round trip fails, none fails after one more. *)
Lemma up_next w : up w -> fault (nextEvent (env w)) = None.
Proof.
  unfold up, nextEvent. destruct (script (env w)) as [|ev rest]; [done|].
  by intros [? _]%Forall_cons.
Qed.

Lemma up_afterTrip c w : up w -> up (setEnv (afterTrip c) w).
Proof.
  unfold up. simpl. destruct (script (env w)) as [|ev rest]; [done|].
  by intros [_ ?]%Forall_cons.
Qed.

End FrameFacts.

(** ** The manifest fetch *)

Module FetchFacts.
Import FrameAux FrameFacts.

#[local] Arguments Nat.mul : simpl never.

Lemma sleep_or_not (i : nat) (w : World) :
  (if decide (0 < i) then sleep (1000 * i) else mret tt) w =
  (Ok tt, setEnv (fun e =>
     {| remote := remote e; served := served e; online := online e;
        script := script e; clock := clock e + 1000 * i; calls := calls e;
        encryptionKey := encryptionKey e; cipher := cipher e |}) w).
Proof.
  destruct (decide (0 < i)); [done|].
  assert (i = 0) as -> by lia. destruct w as [[] ? ?]. unfold mret, M_ret, setEnv.
  simpl. do 3 f_equal. lia.
Qed.

(** A descriptor that [fetchAddonManifest] returns is made of the manifest
    served at the URL, which has an id, a name and a version. *)
Lemma fetchAttempts_Ok url left : forall i lastError w d w',
  StremioClient.fetchAttempts url left i lastError w = (Ok d, w') ->
  exists m, served (env w) !! url = Some m /\ validManifest m /\ d = fetched url m.
Proof.
  induction left as [|left IH]; intros i lastError w d w'; [done|].
  rewrite UpdateFacts.fetchAttempts_S, bind_eq, sleep_or_not, bind_eq. simpl.
  match goal with |- context [fault ?ev] => destruct (fault ev) as [[| | |msg]|] end;
    try (intros H; apply IH in H as (m & ? & ? & ?); by exists m).
  - done.
  - rewrite bind_eq. simpl.
    destruct (served (env w) !! url) as [m|] eqn:Hm;
      [|intros H; apply IH in H as (m & Hs & ? & ?); simpl in Hs; congruence].
    destruct (decide _) as [|Hvalid];
      [intros H; apply IH in H as (m' & Hs & ? & ?); simpl in Hs;
       exists m'; split_and!; [congruence|done|done]|].
    intros [= <- <-]. exists m. split; [done|]. split; [|done].
    unfold validManifest. tauto.
Qed.

Lemma waitsFrom_S i n : waitsFrom i (S n) = 1000 * i + waitsFrom (S i) n.
Proof. reflexivity. Qed.

Lemma tripTime_S n w w1 :
  script (env w1) = tail (script (env w)) ->
  tripTime (S n) w = elapsed (nextEvent (env w)) + tripTime n w1.
Proof.
  unfold tripTime, nextEvent. intros ->.
  destruct (script (env w)); simpl; [by rewrite take_nil|done].
Qed.

(** The requests, the time and the end of the retry loop. *)
Lemma fetchAttempts_bounded url left : forall i lastError w r w',
  StremioClient.fetchAttempts url left i lastError w = (r, w') ->
  exists n,
    n <= left /\ (0 < left -> 0 < n) /\
    calls (env w') = calls (env w) ++ replicate n (ManifestGet url) /\
    script (env w') = drop n (script (env w)) /\
    clock (env w') = clock (env w) + tripTime n w + waitsFrom i n /\
    (n < left ->
     (exists d, r = Ok d) \/ r = Throw "Addon manifest not found at this URL").
Proof.
  induction left as [|left IH]; intros i lastError w r w'.
  - intros [= <- <-]. exists 0. unfold tripTime, waitsFrom. simpl.
    rewrite app_nil_r, drop_0. split_and!; [done|lia|done|done|lia|lia].
  - rewrite UpdateFacts.fetchAttempts_S, bind_eq, sleep_or_not, bind_eq. simpl.
    set (w1 := setEnv _ (setEnv _ w)).
    assert (Hretry : forall e,
      StremioClient.fetchAttempts url left (S i) e w1 = (r, w') ->
      exists n,
        n <= S left /\ (0 < S left -> 0 < n) /\
        calls (env w') = calls (env w) ++ replicate n (ManifestGet url) /\
        script (env w') = drop n (script (env w)) /\
        clock (env w') = clock (env w) + tripTime n w + waitsFrom i n /\
        (n < S left ->
         (exists d, r = Ok d) \/ r = Throw "Addon manifest not found at this URL")).
    { intros e H. apply IH in H as (n & Hn & _ & Hcalls & Hscript & Hclock & Hend).
      exists (S n). split_and!; [lia|lia| | | |].
      - rewrite Hcalls. simpl. by rewrite <-app_assoc.
      - rewrite Hscript. simpl. destruct (script (env w)); simpl; [apply drop_nil|done].
      - rewrite Hclock, waitsFrom_S, (tripTime_S n w w1) by done. simpl.
        unfold nextEvent. simpl. lia.
      - intros Hlt. apply Hend. lia. }
    assert (Hstop : forall r0, r = r0 -> w' = w1 ->
      ((exists d, r0 = Ok d) \/ r0 = Throw "Addon manifest not found at this URL") ->
      exists n,
        n <= S left /\ (0 < S left -> 0 < n) /\
        calls (env w') = calls (env w) ++ replicate n (ManifestGet url) /\
        script (env w') = drop n (script (env w)) /\
        clock (env w') = clock (env w) + tripTime n w + waitsFrom i n /\
        (n < S left ->
         (exists d, r = Ok d) \/ r = Throw "Addon manifest not found at this URL")).
    { intros r0 -> -> Hr0. exists 1. split_and!; [lia|lia|done| | |done].
      - simpl. destruct (script (env w)); simpl; [done|by rewrite drop_0].
      - rewrite waitsFrom_S, (tripTime_S 0 w w1) by done.
        subst w1. unfold tripTime, waitsFrom, nextEvent. rewrite take_0. simpl.
        unfold nextEvent. simpl. lia. }
    match goal with |- context [fault ?ev] => destruct (fault ev) as [[| | |msg]|] end;
      try apply Hretry.
    + intros [= <- <-]. eapply Hstop; [done..|by right].
    + rewrite bind_eq. simpl.
      destruct (served (env w) !! url) as [m|]; [|apply Hretry].
      destruct (decide _); [apply Hretry|].
      intros [= <- <-]. eapply Hstop; [done..|]. left. eauto.
Qed.


(** X1. A descriptor returned by [fetchAddonManifest] carries the URL it was
    asked for, no flags and no transport name, and its manifest is the one
    served at that URL, with an id, a name and a version that are not
    empty. *)
Theorem fetchAddonManifest_descriptor (url : string) (w w' : World)
    (d : AddonDescriptor) :
  StremioClient.fetchAddonManifest url w = (Ok d, w') ->
  transportUrl d = url /\ flags d = None /\ transportName d = None /\
  served (env w) !! url = Some (manifest d) /\
  m_id (manifest d) <> "" /\ m_name (manifest d) <> "" /\
  m_version (manifest d) <> "".
Proof.
  intros H. apply fetchAttempts_Ok in H as (m & Hm & (? & ? & ?) & ->).
  by split_and!.
Qed.


End FetchFacts.

(** ** Installing and reinstalling *)

Module InstallFacts.
Import Api ApiAux FrameAux FrameFacts FetchFacts.

Lemma up_written k c w : up w -> up (written k c w).
Proof. intros H. by apply (up_afterTrip (AddonCollectionSet k c)) in H. Qed.

Lemma getAddons_up k c w :
  up w -> remote (env w) !! k = Some c ->
  getAddons k w = (Ok c, setEnv (afterTrip (AddonCollectionGet k)) w).
Proof. intros Hup Hc. by rewrite ApiFacts.getAddons_eq, (up_next w Hup), Hc. Qed.

Lemma updateAddons_up k c c0 w :
  up w -> remote (env w) !! k = Some c0 ->
  updateAddons k c w = (Ok tt, written k c w).
Proof. intros Hup Hc. by rewrite ApiFacts.updateAddons_eq, (up_next w Hup), Hc. Qed.

Lemma fetchAddonManifest_up url m w :
  up w -> served (env w) !! url = Some m -> validManifest m ->
  StremioClient.fetchAddonManifest url w =
    (Ok (fetched url m), setEnv (afterTrip (ManifestGet url)) w).
Proof.
  intros Hup Hm (Hi & Hn & Hv). unfold StremioClient.fetchAddonManifest.
  rewrite UpdateFacts.fetchAttempts_S, bind_eq.
  destruct (decide (0 < 0)); [lia|].
  unfold mret at 1, M_ret at 1. rewrite bind_eq. simpl.
  rewrite (up_next w Hup), bind_eq. simpl. rewrite Hm.
  destruct (decide _) as [[?|[?|?]]|]; done.
Qed.

(** *** What [installAddon] writes *)

Lemma installInto_found d c i a :
  list_find (fun a => addon_id a = addon_id d) c = Some (i, a) ->
  installInto d c = <[i := d]> c.
Proof. unfold installInto. by intros ->. Qed.

Lemma installInto_absent d c :
  addon_id d ∉ addon_id <$> c -> installInto d c = c ++ [d].
Proof.
  intros Hnot. unfold installInto.
  destruct (list_find _ c) as [[i a]|] eqn:Hfind; [|done].
  apply list_find_Some in Hfind as (Hi & Hid & _). exfalso. apply Hnot.
  apply list_elem_of_fmap. exists a. split; [done|]. by eapply list_elem_of_lookup_2.
Qed.

Lemma installInto_first d c :
  exists i, list_find (fun a => addon_id a = addon_id d) (installInto d c) = Some (i, d).
Proof.
  unfold installInto.
  destruct (list_find _ c) as [[i a]|] eqn:Hfind.
  - exists i. apply list_find_Some in Hfind as (Hi & Hid & Hbefore).
    apply list_find_Some. split_and!; [|done|].
    + rewrite list_lookup_insert_eq; [done|]. by eapply lookup_lt_Some.
    + intros j y Hj Hlt. rewrite list_lookup_insert_ne in Hj by lia. by eapply Hbefore.
  - exists (length c). apply list_find_None in Hfind.
    apply list_find_Some. split_and!; [|done|].
    + by rewrite lookup_app_r, Nat.sub_diag.
    + intros j y Hj Hlt. rewrite lookup_app_l in Hj by done.
      eapply Forall_lookup_1 in Hfind; [|done]. done.
Qed.

Lemma installInto_others d c j a :
  c !! j = Some a -> addon_id a <> addon_id d -> installInto d c !! j = Some a.
Proof.
  intros Hj Hne. unfold installInto.
  destruct (list_find _ c) as [[i b]|] eqn:Hfind.
  - apply list_find_Some in Hfind as (Hi & Hid & _).
    rewrite list_lookup_insert_ne; [done|]. intros ->. congruence.
  - by apply lookup_app_l_Some.
Qed.

Lemma installInto_ids d c :
  addon_id d ∈ addon_id <$> c ->
  addon_id <$> installInto d c = addon_id <$> c.
Proof.
  intros Hin. unfold installInto.
  destruct (list_find _ c) as [[i a]|] eqn:Hfind.
  - apply list_find_Some in Hfind as (Hi & Hid & _).
    rewrite list_fmap_insert. apply list_insert_id.
    by rewrite list_lookup_fmap, Hi, <-Hid.
  - apply list_find_None in Hfind. exfalso.
    apply list_elem_of_fmap in Hin as (a & Ha & Hin).
    rewrite Forall_forall in Hfind. by apply (Hfind a).
Qed.

Lemma installInto_NoDup d c :
  NoDup (addon_id <$> c) -> NoDup (addon_id <$> installInto d c).
Proof.
  intros Hnd. destruct (decide (addon_id d ∈ addon_id <$> c)) as [Hin|Hnot].
  - by rewrite installInto_ids.
  - rewrite installInto_absent by done. rewrite fmap_app. simpl.
    apply NoDup_app. split_and!; [done| |apply NoDup_singleton].
    intros x Hx ->%list_elem_of_singleton. done.
Qed.

Lemma installInto_again d c : installInto d (installInto d c) = installInto d c.
Proof.
  destruct (installInto_first d c) as [i Hfind].
  rewrite (installInto_found d _ i d Hfind).
  apply list_insert_id. by apply list_find_Some in Hfind as (? & _).
Qed.

(** The run of a successful [installAddon]. *)
Lemma installAddon_Ok k url w updated w' :
  installAddon k url w = (Ok updated, w') ->
  exists m current,
    served (env w) !! url = Some m /\ validManifest m /\
    remote (env w) !! k = Some current /\
    updated = installInto (fetched url m) current /\
    remote (env w') = <[k := updated]> (remote (env w)) /\
    served (env w') = served (env w).
Proof.
  unfold installAddon. rewrite bind_eq.
  destruct (StremioClient.fetchAddonManifest url w) as [[d|e] w1] eqn:Hfetch; [|done].
  pose proof (trips_fetchAddonManifest url w _ w1 Hfetch)
    as (_ & _ & Hr1 & Hs1 & _).
  apply fetchAttempts_Ok in Hfetch as (m & Hm & Hvalid & ->).
  rewrite bind_eq, ApiFacts.getAddons_eq.
  destruct (fault (nextEvent (env w1))); [done|].
  rewrite Hr1.
  destruct (remote (env w) !! k) as [current|] eqn:Hcur; [|done].
  fold (installInto (fetched url m) current).
  rewrite bind_eq, ApiFacts.updateAddons_eq. simpl.
  match goal with |- context [fault ?ev] => destruct (fault ev) end; [done|].
  rewrite Hr1, Hcur. intros [= <- <-]. exists m, current. simpl.
  split_and!; [done..|by rewrite Hr1|done].
Qed.

(** X3. A successful [installAddon] leaves at the service the collection it
    returns.  The descriptor made of the served manifest is the first one
    with its manifest id in it: it takes the place of the first installed
    addon with that id, whose flags are lost, and is appended when there is
    none.  Every other position keeps its addon, and ids that were unique
    stay unique. *)
Theorem installAddon_in_place (k url : string) (w w' : World)
    (updated : list AddonDescriptor) :
  installAddon k url w = (Ok updated, w') ->
  exists m current,
    served (env w) !! url = Some m /\
    remote (env w) !! k = Some current /\
    remote (env w') !! k = Some updated /\
    (exists i, list_find (fun a => addon_id a = m_id m) updated =
                 Some (i, fetched url m)) /\
    (forall j a, current !! j = Some a -> addon_id a <> m_id m ->
       updated !! j = Some a) /\
    (m_id m ∈ addon_id <$> current ->
       addon_id <$> updated = addon_id <$> current) /\
    (m_id m ∉ addon_id <$> current -> updated = current ++ [fetched url m]) /\
    (NoDup (addon_id <$> current) -> NoDup (addon_id <$> updated)).
Proof.
  intros H. apply installAddon_Ok in H as (m & current & Hm & _ & Hcur & -> & Hr & _).
  exists m, current. split_and!; [done|done| | | | | |].
  - by rewrite Hr, lookup_insert_eq.
  - apply (installInto_first (fetched url m)).
  - intros j a. apply (installInto_others (fetched url m)).
  - apply (installInto_ids (fetched url m)).
  - apply (installInto_absent (fetched url m)).
  - apply installInto_NoDup.
Qed.

(** X4. Installing the same URL a second time changes nothing: the second
    [installAddon] returns the collection of the first, and the collections
    at the service are the same after both. *)
Theorem installAddon_twice (k url : string) (w w1 w2 : World)
    (u1 u2 : list AddonDescriptor) :
  installAddon k url w = (Ok u1, w1) ->
  installAddon k url w1 = (Ok u2, w2) ->
  u2 = u1 /\ remote (env w2) = remote (env w1).
Proof.
  intros H1 H2.
  apply installAddon_Ok in H1 as (m & current & Hm & _ & Hcur & -> & Hr1 & Hs1).
  apply installAddon_Ok in H2 as (m' & current' & Hm' & _ & Hcur' & -> & Hr2 & _).
  rewrite Hs1, Hm in Hm'. injection Hm' as <-.
  rewrite Hr1, lookup_insert_eq in Hcur'. injection Hcur' as <-.
  rewrite installInto_again in Hr2 |- *. split; [done|].
  by rewrite Hr2, Hr1, insert_insert_eq.
Qed.

(** *** Reinstalling *)

Lemma filter_all {A} (P : A -> Prop) `{!forall x, Decision (P x)} (l : list A) :
  Forall P l -> filter P l = l.
Proof.
  induction 1 as [|x l Hx _ IH]; [done|]. by rewrite filter_cons_True, IH.
Qed.

(** Without the addon at position [i], a collection with unique ids is what
    the filter on its id leaves. *)
Lemma filter_out_unique (c : list AddonDescriptor) i a :
  NoDup (addon_id <$> c) -> c !! i = Some a ->
  filter (fun b => addon_id b <> addon_id a) c = take i c ++ drop (S i) c.
Proof.
  intros Hnd Hi.
  rewrite <-(take_drop_middle c i a Hi) at 1.
  rewrite <-(take_drop_middle c i a Hi) in Hnd.
  rewrite fmap_app, fmap_cons in Hnd.
  apply NoDup_app in Hnd as (_ & Hleft & Hright).
  apply NoDup_cons in Hright as [Hright _].
  rewrite filter_app, filter_cons_False by (intros ?; done).
  f_equal.
  - apply filter_all. apply Forall_forall. intros b Hb Heq.
    apply (Hleft (addon_id a)); [|by left].
    apply list_elem_of_fmap. by exists b.
  - apply filter_all. apply Forall_forall. intros b Hb Heq.
    apply Hright. apply list_elem_of_fmap. by exists b.
Qed.

Lemma find_appended (rest : list AddonDescriptor) d :
  addon_id d ∉ addon_id <$> rest ->
  list_find (fun a => addon_id a = addon_id d) (rest ++ [d]) = Some (length rest, d).
Proof.
  intros Hnot. apply list_find_Some. split_and!; [|done|].
  - by rewrite lookup_app_r, Nat.sub_diag.
  - intros j y Hj Hlt. rewrite lookup_app_l in Hj by done. intros Heq.
    apply Hnot. apply list_elem_of_fmap. exists y. split; [done|].
    by eapply list_elem_of_lookup_2.
Qed.

Lemma find_inserted (c : list AddonDescriptor) i a d :
  NoDup (addon_id <$> c) -> c !! i = Some a -> addon_id d = addon_id a ->
  list_find (fun b => addon_id b = addon_id a) (<[i := d]> c) = Some (i, d).
Proof.
  intros Hnd Hi Hid. apply list_find_Some. split_and!; [|done|].
  - rewrite list_lookup_insert_eq; [done|]. by eapply lookup_lt_Some.
  - intros j y Hj Hlt Heq. rewrite list_lookup_insert_ne in Hj by lia.
    assert (j = i); [|lia].
    eapply (NoDup_lookup (addon_id <$> c) j i (addon_id a)); [done| |].
    + by rewrite list_lookup_fmap, Hj, <-Heq.
    + by rewrite list_lookup_fmap, Hi.
Qed.

Lemma insert_as_splice (c : list AddonDescriptor) i a d :
  c !! i = Some a -> <[i := d]> c = take i c ++ d :: drop (S i) c.
Proof.
  intros Hi. apply lookup_lt_Some in Hi. by rewrite insert_take_drop.
Qed.

(** X5. When no round trip fails, the ids of the collection are unique, the
    addon with the requested id is not protected and its server answers with
    a manifest of the same id, [reinstallAddon] returns and leaves at the
    service the collection it read with the fetched descriptor at the
    position of the addon, every other addon where it was; it reports the
    installed version as previous and the served one as new. *)
Theorem reinstallAddon_keeps_position (k addonId : string) (w : World)
    (current : list AddonDescriptor) (i : nat) (a : AddonDescriptor)
    (m : AddonManifest) :
  up w ->
  remote (env w) !! k = Some current ->
  NoDup (addon_id <$> current) ->
  current !! i = Some a -> addon_id a = addonId -> isProtected a = false ->
  served (env w) !! transportUrl a = Some m -> validManifest m -> m_id m = addonId ->
  exists w',
    reinstallAddon k addonId w =
      (Ok {| rr_addons := <[i := fetched (transportUrl a) m]> current;
             rr_updatedAddon := Some (fetched (transportUrl a) m);
             rr_previousVersion := Some (m_version (manifest a));
             rr_newVersion := Some (m_version m) |}, w') /\
    remote (env w') !! k = Some (<[i := fetched (transportUrl a) m]> current) /\
    length (<[i := fetched (transportUrl a) m]> current) = length current.
Proof.
  intros Hup Hcur Hnd Hi Hid Hprot Hm Hvalid Hmid. subst addonId.
  set (d := fetched (transportUrl a) m).
  assert (Hd : addon_id d = addon_id a) by done.
  set (rest := take i current ++ drop (S i) current).
  assert (Hrest : filter (fun b => addon_id b <> addon_id a) current = rest)
    by by apply filter_out_unique.
  assert (Hnot : addon_id d ∉ addon_id <$> rest).
  { rewrite Hd, <-Hrest. intros (b & Hb & Hin)%list_elem_of_fmap.
    by apply list_elem_of_filter in Hin as [Hne _]. }
  assert (Hlen : length rest = length current - 1).
  { unfold rest. apply lookup_lt_Some in Hi.
    rewrite length_app, length_take, length_drop. lia. }
  assert (Hilt : i < length current) by by eapply lookup_lt_Some.
  assert (Hfind : list_find (fun b => addon_id b = addon_id a) current = Some (i, a)).
  { apply list_find_Some. split_and!; [done..|].
    intros j y Hj Hlt Heq. assert (j = i); [|lia].
    eapply (NoDup_lookup (addon_id <$> current) j i (addon_id a)); [done| |].
    - by rewrite list_lookup_fmap, Hj, <-Heq.
    - by rewrite list_lookup_fmap, Hi. }
  unfold reinstallAddon.
  rewrite (bind_Ok _ _ _ _ _ (getAddons_up k current w Hup Hcur)).
  rewrite Hfind, Hprot.
  set (w1 := setEnv (afterTrip (AddonCollectionGet k)) w).
  assert (Hup1 : up w1) by by apply up_afterTrip.
  (* the removal *)
  assert (Hremove : removeAddon k (addon_id a) w1 =
            (Ok rest, written k rest (setEnv (afterTrip (AddonCollectionGet k)) w1))).
  { unfold removeAddon.
    rewrite (bind_Ok _ _ _ _ _ (getAddons_up k current w1 Hup1 Hcur)), Hrest.
    rewrite (bind_Ok _ _ _ _ _
               (updateAddons_up k rest current _ (up_afterTrip _ _ Hup1) Hcur)).
    done. }
  rewrite (bind_Ok _ _ _ _ _ Hremove).
  set (w2 := written k rest (setEnv (afterTrip (AddonCollectionGet k)) w1)).
  assert (Hup2 : up w2) by by apply up_written, up_afterTrip.
  assert (Hcur2 : remote (env w2) !! k = Some rest) by (simpl; by rewrite lookup_insert_eq).
  (* the installation *)
  set (w3 := setEnv (afterTrip (ManifestGet (transportUrl a))) w2).
  set (w4 := setEnv (afterTrip (AddonCollectionGet k)) w3).
  assert (Hinstall : installAddon k (transportUrl a) w2 =
            (Ok (rest ++ [d]), written k (rest ++ [d]) w4)).
  { unfold installAddon.
    rewrite (bind_Ok _ _ _ _ _
               (fetchAddonManifest_up (transportUrl a) m w2 Hup2 Hm Hvalid)).
    fold d w3.
    assert (Hup3 : up w3) by by apply up_afterTrip.
    rewrite (bind_Ok _ _ _ _ _ (getAddons_up k rest w3 Hup3 Hcur2)).
    fold w4. fold (installInto d rest). rewrite (installInto_absent d rest Hnot).
    rewrite (bind_Ok _ _ _ _ _
               (updateAddons_up k (rest ++ [d]) rest w4 (up_afterTrip _ _ Hup3) Hcur2)).
    done. }
  rewrite (bind_Ok _ _ _ _ _ Hinstall).
  set (w5 := written k (rest ++ [d]) w4).
  assert (Hup5 : up w5) by by apply up_written, up_afterTrip, up_afterTrip.
  assert (Hcur5 : remote (env w5) !! k = Some (rest ++ [d]))
    by (simpl; by rewrite lookup_insert_eq).
  rewrite <-Hd, (find_appended rest d Hnot).
  rewrite length_app. simpl.
  destruct (decide (i < length rest + 1 - 1)) as [Hinner|Hlast].
  - (* the addon was not the last one: it is moved back *)
    assert (Hwithout : filter (fun b => addon_id b <> addon_id d) (rest ++ [d]) = rest).
    { rewrite filter_app, filter_cons_False, filter_nil, app_nil_r by (intros ?; done).
      apply filter_all. apply Forall_forall. intros b Hb Heq. apply Hnot.
      apply list_elem_of_fmap. by exists b. }
    rewrite Hwithout.
    assert (Hsplice : spliceIn i d rest = <[i := d]> current).
    { unfold spliceIn, rest. rewrite (insert_as_splice current i a d Hi).
      rewrite take_app_le, drop_app_ge, take_take, length_take
        by (rewrite ?length_take; lia).
      replace (i `min` i) with i by lia.
      replace (i - i `min` length current) with 0 by lia.
      by rewrite drop_0. }
    rewrite Hsplice.
    rewrite (bind_Ok _ _ _ _ _
               (updateAddons_up k (<[i := d]> current) (rest ++ [d]) w5 Hup5 Hcur5)).
    set (w6 := written k (<[i := d]> current) w5).
    assert (Hcur6 : remote (env w6) !! k = Some (<[i := d]> current))
      by (simpl; by rewrite lookup_insert_eq).
    rewrite (bind_Ok _ _ _ _ _
               (getAddons_up k (<[i := d]> current) w6
                  (up_written _ _ _ Hup5) Hcur6)).
    rewrite Hd, (find_inserted current i a d Hnd Hi Hd). simpl.
    eexists. split; [reflexivity|]. split; [done|]. apply length_insert.
  - (* the addon was the last one: it is where the installation put it *)
    assert (i = length current - 1) as Hi' by lia.
    assert (Hsame : rest ++ [d] = <[i := d]> current).
    { unfold rest. rewrite (insert_as_splice current i a d Hi).
      rewrite (drop_ge current (S i)) by lia. by rewrite app_nil_r. }
    rewrite Hsame. rewrite Hsame in Hcur5.
    eexists. split; [reflexivity|]. split; [done|]. apply length_insert.
Qed.

(** X6. [reinstallAddon] is not atomic.  When the three round trips of the
    read and of the removal succeed and the addon server then answers 404,
    the call throws and the account is left without the addon: the
    collection at the service is the one read minus the addon, and nothing
    puts it back. *)
Theorem reinstallAddon_not_atomic (k addonId : string) (w : World)
    (current : list AddonDescriptor) (i : nat) (a : AddonDescriptor) :
  fault <$> take 4 (script (env w)) = [None; None; None; Some Http404] ->
  remote (env w) !! k = Some current ->
  list_find (fun b => addon_id b = addonId) current = Some (i, a) ->
  isProtected a = false ->
  exists w',
    reinstallAddon k addonId w =
      (Throw "Addon manifest not found at this URL", w') /\
    remote (env w') !! k =
      Some (filter (fun b => addon_id b <> addonId) current) /\
    (addonId ∉ addon_id <$> filter (fun b => addon_id b <> addonId) current) /\
    calls (env w') =
      calls (env w) ++
        [AddonCollectionGet k; AddonCollectionGet k;
         AddonCollectionSet k (filter (fun b => addon_id b <> addonId) current);
         ManifestGet (transportUrl a)].
Proof.
  intros Hscript Hcur Hfind Hprot.
  destruct w as [[rem srv onl scr clk cls key cph] ast acs]. simpl in *.
  destruct scr as [|[t1 f1] [|[t2 f2] [|[t3 f3] [|[t4 f4] scr]]]]; try done.
  simpl in Hscript. injection Hscript as -> -> -> ->.
  unfold reinstallAddon.
  rewrite bind_eq, ApiFacts.getAddons_eq. simpl. rewrite Hcur, Hfind, Hprot.
  rewrite bind_eq. unfold removeAddon.
  rewrite bind_eq, ApiFacts.getAddons_eq. simpl. rewrite Hcur.
  rewrite bind_eq, ApiFacts.updateAddons_eq. simpl. rewrite Hcur.
  unfold mret at 1, M_ret at 1. unfold installAddon, StremioClient.fetchAddonManifest.
  rewrite bind_eq, UpdateFacts.fetchAttempts_S, bind_eq.
  destruct (decide (0 < 0)); [lia|].
  unfold mret at 1, M_ret at 1. rewrite bind_eq. simpl.
  eexists. split; [reflexivity|]. simpl. split_and!.
  - by rewrite lookup_insert_eq.
  - intros (b & Hb & Hin)%list_elem_of_fmap.
    by apply list_elem_of_filter in Hin as [Hne _].
  - by rewrite <-!app_assoc.
Qed.

End InstallFacts.

(** ** The update check of the library and the manifest URL *)

Module ApiMoreFacts.
Import Api ApiMore ApiMoreAux FrameAux FrameFacts.

#[local] Arguments StremioClient.fetchAttempts : simpl never.

Lemma trips_afterFirstRequest url f :
  keeps tripsOnly (StremioClient.afterFirstRequest url f).
Proof.
  unfold StremioClient.afterFirstRequest.
  destruct f as [[| | |msg]|]; try apply trips_fetchAttempts;
    [by apply keeps_throw|].
  apply keeps_bind; [apply _|by apply keeps_gets|].
  intros [m|]; [|apply trips_fetchAttempts].
  destruct (decide _); [apply trips_fetchAttempts|by apply keeps_ret].
Qed.

(** The first request answered, [afterFirstRequest] is the rest of
    [fetchAddonManifest]. *)
Lemma fetchAddonManifest_first url :
  StremioClient.fetchAddonManifest url =
  (f ← roundTrip (ManifestGet url); StremioClient.afterFirstRequest url f).
Proof. reflexivity. Qed.

Lemma afterFirstRequest_Ok url f w d w' :
  StremioClient.afterFirstRequest url f w = (Ok d, w') ->
  exists m, served (env w) !! url = Some m /\ validManifest m /\ d = fetched url m.
Proof.
  unfold StremioClient.afterFirstRequest.
  destruct f as [[| | |msg]|];
    try (intros H; by apply FetchFacts.fetchAttempts_Ok in H); [done|].
  rewrite bind_eq. simpl.
  destruct (served (env w) !! url) as [m|] eqn:Hm;
    [|intros H; apply FetchFacts.fetchAttempts_Ok in H as (m & Hs & _);
      congruence].
  destruct (decide _) as [|Hvalid];
    [intros H; apply FetchFacts.fetchAttempts_Ok in H as (m' & Hs & ? & ?);
     exists m'; split_and!; [congruence|done|done]|].
  intros [= <- <-]. exists m. split; [done|]. split; [|done].
  unfold validManifest. tauto.
Qed.

Lemma afterFirstRequest_calls url f w r w' :
  StremioClient.afterFirstRequest url f w = (r, w') ->
  exists k, k <= 2 /\
    calls (env w') = calls (env w) ++ replicate k (ManifestGet url).
Proof.
  assert (Hretry : forall e,
    StremioClient.fetchAttempts url 2 1 e w = (r, w') ->
    exists k, k <= 2 /\
      calls (env w') = calls (env w) ++ replicate k (ManifestGet url)).
  { intros e H. apply FetchFacts.fetchAttempts_bounded in H as (n & ? & _ & ? & _).
    by exists n. }
  assert (Hnone : (r, w') = (r, w) ->
    exists k, k <= 2 /\
      calls (env w') = calls (env w) ++ replicate k (ManifestGet url)).
  { intros [= <-]. exists 0. split; [lia|]. simpl. by rewrite app_nil_r. }
  unfold StremioClient.afterFirstRequest.
  destruct f as [[| | |msg]|]; try apply Hretry.
  - intros [= <- <-]. by apply Hnone.
  - rewrite bind_eq. simpl.
    destruct (served (env w) !! url) as [m|]; [|apply Hretry].
    destruct (decide _); [apply Hretry|].
    intros [= <- <-]. by apply Hnone.
Qed.

Lemma trips_fetchAndProbe url : keeps tripsOnly (fetchAndProbe url).
Proof.
  intros w r w'. unfold fetchAndProbe.
  destruct (roundTrip (ManifestGet url) w) as [[f|e] w1] eqn:Hfirst;
    apply trips_roundTrip in Hfirst; [|by intros [= <- <-]].
  destruct (checkAddonHealth url w1) as [r2 w2] eqn:Hprobe.
  destruct (StremioClient.afterFirstRequest url f w2) as [r1 w3] eqn:Hrest.
  apply trips_checkAddonHealth in Hprobe. apply trips_afterFirstRequest in Hrest.
  assert (tripsOnly w w3) by (etrans; [done|by etrans]).
  destruct r1, r2; by intros [= <- <-].
Qed.

Lemma fetchAndProbe_Ok url w latest isOnline w' :
  fetchAndProbe url w = (Ok (latest, isOnline), w') ->
  exists m, served (env w) !! url = Some m /\ validManifest m /\
            latest = fetched url m.
Proof.
  unfold fetchAndProbe.
  destruct (roundTrip (ManifestGet url) w) as [[f|e] w1] eqn:Hfirst; [|done].
  destruct (checkAddonHealth url w1) as [r2 w2] eqn:Hprobe.
  destruct (StremioClient.afterFirstRequest url f w2) as [r1 w3] eqn:Hrest.
  apply trips_roundTrip in Hfirst as (_ & _ & _ & Hs1 & _).
  apply trips_checkAddonHealth in Hprobe as (_ & _ & _ & Hs2 & _).
  destruct r1 as [d|], r2; try done. intros [= -> _ _].
  apply afterFirstRequest_Ok in Hrest as (m & Hm & ? & ?).
  exists m. split_and!; [congruence|done..].
Qed.

(** The requests of [fetchAndProbe], in the order they are sent. *)
Lemma fetchAndProbe_calls url w r w' :
  fetchAndProbe url w = (r, w') ->
  exists k, k <= 2 /\ calls (env w') = calls (env w) ++ requestsOf url k.
Proof.
  unfold fetchAndProbe. simpl.
  set (w1 := setEnv (afterTrip (ManifestGet url)) w).
  destruct (checkAddonHealth url w1) as [r2 w2] eqn:Hprobe.
  assert (Hc2 : calls (env w2) =
                calls (env w) ++ [ManifestGet url; HealthProbe url]).
  { revert Hprobe. unfold checkAddonHealth. rewrite bind_eq. simpl.
    destruct (fault _); unfold mret, M_ret, gets; intros [= _ <-]; subst w1;
      simpl; by rewrite <-app_assoc. }
  destruct (StremioClient.afterFirstRequest url _ w2) as [r1 w3] eqn:Hrest.
  apply afterFirstRequest_calls in Hrest as (k & Hk & Hc3).
  assert (calls (env w3) = calls (env w) ++ requestsOf url k).
  { rewrite Hc3, Hc2, <-app_assoc. done. }
  destruct r1, r2; intros [= _ <-]; by exists k.
Qed.

Lemma checkSavedOne_outcome s l w :
  exists l' w',
    checkSavedOne s (l, w) = (Ok tt, (l', w')) /\
    tripsOnly w w' /\
    (l' = l \/
     exists latest isOnline,
       served (env w) !! sa_installUrl s = Some (manifest latest) /\
       l' = l ++ [savedInfo s latest isOnline]).
Proof.
  unfold checkSavedOne, try_catch. rewrite bind_eq, liftW_eq.
  destruct (fetchAndProbe (sa_installUrl s) w) as [[[latest isOnline]|e] w1] eqn:Hrun;
    simpl; pose proof (trips_fetchAndProbe _ _ _ _ Hrun) as Htrips.
  - do 2 eexists. split; [reflexivity|]. split; [done|]. right.
    exists latest, isOnline. split; [|done].
    by apply fetchAndProbe_Ok in Hrun as (m & ? & _ & ->).
  - do 2 eexists. split; [reflexivity|]. split; [done|]. by left.
Qed.

Lemma checkSavedLoop_outcome sv savedAddons : forall l w,
  served (env w) = sv ->
  exists new w',
    forEach checkSavedOne savedAddons (l, w) = (Ok tt, (l ++ new, w')) /\
    tripsOnly w w' /\
    ui_addonId <$> new `sublist_of` sa_id <$> savedAddons /\
    Forall (fun r => exists s, s ∈ savedAddons /\ reportsOnSaved sv s r) new.
Proof.
  induction savedAddons as [|s savedAddons IH]; intros l w Hsv; simpl.
  - exists [], w. rewrite app_nil_r. by split_and!.
  - rewrite bind_eq.
    destruct (checkSavedOne_outcome s l w) as (l1 & w1 & -> & Ht1 & Hout).
    destruct (IH l1 w1) as (new & w2 & -> & Ht2 & Hsub & Hnew).
    { destruct Ht1 as (_ & _ & _ & -> & _). done. }
    assert (Hlater : Forall (fun r => exists s0, s0 ∈ s :: savedAddons /\
                                       reportsOnSaved sv s0 r) new).
    { eapply Forall_impl; [exact Hnew|]. intros r (s0 & ? & ?).
      exists s0. split; [by right|done]. }
    destruct Hout as [->|(latest & on & Hf & ->)].
    + exists new, w2. split_and!; [done|by etrans| |done].
      by apply sublist_cons.
    + exists (savedInfo s latest on :: new), w2.
      rewrite <-app_assoc. split_and!; [done|by etrans| |].
      * simpl. by apply sublist_skip.
      * constructor; [|done]. exists s. split; [by left|].
        exists (manifest latest). rewrite <-Hsv.
        split_and!; [done..|]. simpl. apply bool_decide_eq_true.
Qed.

(** X7. [checkSavedAddonUpdates] always returns.  Its entries follow the
    order of the saved addons, at most one for each; every entry names a
    saved addon of the input by its library id, name and install URL, with
    the version of its stored manifest as installed and the version served
    at its install URL as latest, and [hasUpdate] true exactly when the two
    strings differ.  A saved addon whose manifest cannot be fetched is left
    out.  Only the log, the script and the clock change. *)
Theorem checkSavedAddonUpdates_reports (savedAddons : list SavedAddon) (w : World) :
  exists results w',
    checkSavedAddonUpdates savedAddons w = (Ok results, w') /\
    tripsOnly w w' /\
    ui_addonId <$> results `sublist_of` sa_id <$> savedAddons /\
    forall r, r ∈ results ->
      exists s, s ∈ savedAddons /\ reportsOnSaved (served (env w)) s r.
Proof.
  unfold checkSavedAddonUpdates, withLocal. rewrite bind_eq.
  destruct (checkSavedLoop_outcome (served (env w)) savedAddons [] w eq_refl)
    as (new & w' & -> & Htrips & Hsub & Hnew).
  simpl. exists new, w'. split_and!; [done..|]. by apply Forall_forall.
Qed.

Lemma fetchAndProbe_up url m w :
  up w -> served (env w) !! url = Some m -> validManifest m ->
  fetchAndProbe url w =
    (Ok (fetched url m, default false (online (env w) !! url)),
     setEnv (afterTrip (HealthProbe url)) (setEnv (afterTrip (ManifestGet url)) w)).
Proof.
  intros Hup Hm Hvalid. unfold fetchAndProbe. simpl.
  rewrite (up_next _ Hup).
  unfold checkAddonHealth. rewrite bind_eq. simpl.
  pose proof (up_next _ (up_afterTrip (ManifestGet url) w Hup)) as Hnext.
  simpl in Hnext. rewrite Hnext. simpl.
  unfold StremioClient.afterFirstRequest. rewrite bind_eq. simpl. rewrite Hm.
  destruct (decide _) as [Hbad|_]; [unfold validManifest in Hvalid; tauto|].
  done.
Qed.

Lemma checkSavedLoop_up savedAddons : forall l w,
  up w ->
  Forall (fun s => exists m, served (env w) !! sa_installUrl s = Some m /\
                             validManifest m) savedAddons ->
  exists new w',
    forEach checkSavedOne savedAddons (l, w) = (Ok tt, (l ++ new, w')) /\
    ui_addonId <$> new = sa_id <$> savedAddons /\
    calls (env w') =
      calls (env w) ++
        (savedAddons ≫= fun s => [ManifestGet (sa_installUrl s);
                                   HealthProbe (sa_installUrl s)]).
Proof.
  induction savedAddons as [|s savedAddons IH]; intros l w Hup Hall; simpl.
  - exists [], w. by rewrite !app_nil_r.
  - apply Forall_cons in Hall as [(m & Hm & Hvalid) Hall].
    rewrite bind_eq. unfold checkSavedOne at 1, try_catch.
    rewrite bind_eq, liftW_eq, (fetchAndProbe_up _ m w Hup Hm Hvalid). simpl.
    match goal with |- context [forEach checkSavedOne savedAddons (?l1, ?w1)] =>
      destruct (IH l1 w1) as (new & w' & -> & Hids & Hcalls)
    end.
    { by do 2 apply up_afterTrip. }
    { done. }
    eexists (_ :: new), w'. rewrite <-app_assoc. split; [reflexivity|].
    split.
    + rewrite fmap_cons, Hids. reflexivity.
    + rewrite Hcalls. simpl. by rewrite <-!app_assoc.
Qed.

(** X29. When no round trip fails and the server of every saved addon
    answers with a manifest that has an id, a name and a version,
    [checkSavedAddonUpdates] reports on every saved addon, once and in the
    order given, with two requests for each: the manifest, then the probe. *)
Theorem checkSavedAddonUpdates_complete (savedAddons : list SavedAddon) (w : World) :
  up w ->
  Forall (fun s => exists m, served (env w) !! sa_installUrl s = Some m /\
                             validManifest m) savedAddons ->
  exists results w',
    checkSavedAddonUpdates savedAddons w = (Ok results, w') /\
    ui_addonId <$> results = sa_id <$> savedAddons /\
    calls (env w') =
      calls (env w) ++
        (savedAddons ≫= fun s => [ManifestGet (sa_installUrl s);
                                   HealthProbe (sa_installUrl s)]).
Proof.
  intros Hup Hall. unfold checkSavedAddonUpdates, withLocal. rewrite bind_eq.
  destruct (checkSavedLoop_up savedAddons [] w Hup Hall) as (new & w' & -> & Hids & Hcalls).
  simpl. by exists new, w'.
Qed.

(** *** The manifest URL *)

Lemma list_ascii_app (a b : string) :
  String.list_ascii_of_string (a +:+ b) =
  String.list_ascii_of_string a ++ String.list_ascii_of_string b.
Proof. induction a as [|c a IH]; simpl; [done|]. by rewrite IH. Qed.

Lemma endsWith_app (a b : string) : endsWith (a +:+ b) b = true.
Proof.
  apply bool_decide_eq_true. rewrite list_ascii_app. by apply suffix_app_r.
Qed.

Lemma endsWith_slash (a : string) :
  endsWith a "/" = true ->
  endsWith (a +:+ "manifest.json") "/manifest.json" = true.
Proof.
  intros [k Hk]%bool_decide_eq_true. apply bool_decide_eq_true.
  rewrite list_ascii_app, Hk. exists k. by rewrite <-app_assoc.
Qed.

Lemma isManifestUrl_manifestUrl (u : string) : isManifestUrl (manifestUrl u) = true.
Proof.
  unfold manifestUrl.
  destruct (endsWith u "/manifest.json" || includes u "/manifest.json?") eqn:Hu;
    [done|].
  unfold isManifestUrl. apply orb_true_iff. left.
  destruct (endsWith u "/") eqn:Hslash.
  - by apply endsWith_slash.
  - apply (endsWith_app u "/manifest.json").
Qed.

(** X8. The manifest URL [fetchAddonManifest] derives from a transport URL
    is the transport URL followed by nothing, by [manifest.json] or by
    [/manifest.json]; it always ends with [/manifest.json] or contains
    [/manifest.json?], so deriving it again from the result changes
    nothing. *)
Theorem manifestUrl_idempotent (u : string) :
  manifestUrl (manifestUrl u) = manifestUrl u /\
  isManifestUrl (manifestUrl u) = true /\
  (isManifestUrl u = true -> manifestUrl u = u) /\
  (manifestUrl u = u \/
   endsWith (manifestUrl u) "/manifest.json" = true /\
   (manifestUrl u = u +:+ "manifest.json" /\ endsWith u "/" = true \/
    manifestUrl u = u +:+ "/manifest.json" /\ endsWith u "/" = false)).
Proof.
  assert (Hfix : forall v, isManifestUrl v = true -> manifestUrl v = v).
  { intros v Hv. unfold manifestUrl. unfold isManifestUrl in Hv. by rewrite Hv. }
  split_and!.
  - apply Hfix, isManifestUrl_manifestUrl.
  - apply isManifestUrl_manifestUrl.
  - apply Hfix.
  - unfold manifestUrl.
    destruct (endsWith u "/manifest.json" || includes u "/manifest.json?");
      [by left|right].
    destruct (endsWith u "/") eqn:Hslash.
    + split; [by apply endsWith_slash|by left].
    + split; [apply (endsWith_app u "/manifest.json")|by right].
Qed.

(** X9. The URL handed to the proxy is the manifest URL with one more
    parameter, the number of the five-minute window the request is made in:
    two requests for one transport URL use the same URL exactly when they
    fall into the same window. *)
Theorem finalManifestUrl_window (u : string) (t1 t2 : N) :
  finalManifestUrl u t1 = finalManifestUrl u t2 <->
  (t1 / 300000 = t2 / 300000)%N.
Proof.
  unfold finalManifestUrl. split.
  - intros H. do 3 apply String.app_inj in H. by apply pretty_N_inj in H.
  - by intros ->.
Qed.

End ApiMoreFacts.

(** ** The update check of the installed addons *)

Module PolicyFacts.
Import Api ApiAux ApiMore ApiMoreAux FrameAux FrameFacts ApiMoreFacts.

Lemma checkedOf_eq addons :
  filter (fun a => checkable a = true) addons = checkedOf addons.
Proof.
  unfold checkedOf. induction addons as [|a addons IH]; [done|].
  rewrite !filter_cons, IH. unfold checkable.
  destruct (isProtected a), (isOfficial a); simpl;
    repeat case_decide; try done; naive_solver.
Qed.

Lemma checkOne_outcome a l w :
  exists run w',
    checkOne a (l, w) = (Ok tt, (l ++ run.2, w')) /\
    tripsOnly w w' /\
    checkedAs (served (env w)) a run /\
    calls (env w') = calls (env w) ++ requestsOf (transportUrl a) run.1 /\
    (up w ->
     forall m, served (env w) !! transportUrl a = Some m -> validManifest m ->
       run = (0, [updateInfo a (fetched (transportUrl a) m)
                    (default false (online (env w) !! transportUrl a))]) /\
       up w').
Proof.
  unfold checkOne, try_catch. rewrite bind_eq, liftW_eq.
  destruct (fetchAndProbe (transportUrl a) w) as [[[latest isOnline]|e] w1] eqn:Hrun;
    simpl; pose proof (trips_fetchAndProbe _ _ _ _ Hrun) as Htrips;
    destruct (fetchAndProbe_calls _ _ _ _ Hrun) as (k & Hk & Hcalls).
  - destruct (fetchAndProbe_Ok _ _ _ _ _ Hrun) as (m & Hm & Hvalid & ->).
    exists (k, [updateInfo a (fetched (transportUrl a) m) isOnline]), w1.
    split_and!; [done|done| |done|].
    + split; [done|]. right. by exists m, isOnline.
    + intros Hup m' Hm' Hvalid'.
      rewrite (fetchAndProbe_up _ m' w Hup Hm' Hvalid') in Hrun.
      injection Hrun as Hl Ho Hw. subst w1. split; [|by do 2 apply up_afterTrip].
      assert (m' = m) as -> by congruence.
      assert (k = 0) as ->; [|by rewrite Ho].
      simpl in Hcalls. rewrite <-app_assoc in Hcalls.
      apply app_inv_head in Hcalls. unfold requestsOf in Hcalls.
      injection Hcalls as Hrep. by destruct k.
  - exists (k, []), w1. rewrite app_nil_r.
    split_and!; [done|done| |done|].
    + split; [done|]. by left.
    + intros Hup m Hm Hvalid.
      by rewrite (fetchAndProbe_up _ m w Hup Hm Hvalid) in Hrun.
Qed.

Lemma checkLoop_outcome addons : forall l w,
  exists runs w',
    forEach checkOne addons (l, w) = (Ok tt, (l ++ (runs ≫= snd), w')) /\
    Forall2 (checkedAs (served (env w))) addons runs /\
    calls (env w') =
      calls (env w) ++
        mjoin (zip_with (fun a run => requestsOf (transportUrl a) run.1)
                        addons runs) /\
    (up w ->
     Forall (fun a => exists m, served (env w) !! transportUrl a = Some m /\
                                validManifest m) addons ->
     Forall2 (fun a r =>
                exists m, served (env w) !! transportUrl a = Some m /\
                  r = updateInfo a (fetched (transportUrl a) m)
                        (default false (online (env w) !! transportUrl a)))
             addons (runs ≫= snd) /\
     Forall (fun run => run.1 = 0) runs).
Proof.
  induction addons as [|a addons IH]; intros l w; simpl.
  - exists [], w. simpl. rewrite !app_nil_r. split_and!; [done..|].
    intros _ _. by split.
  - rewrite bind_eq.
    destruct (checkOne_outcome a l w) as (run & w1 & -> & Ht1 & Hrun & Hc1 & Hup1).
    destruct (IH (l ++ run.2) w1) as (runs & w2 & -> & Hruns & Hc2 & Hup2).
    destruct Ht1 as (_ & _ & _ & Hs & Ho & _).
    exists (run :: runs), w2. simpl. rewrite <-app_assoc.
    split_and!; [done| | |].
    + constructor; [done|]. by rewrite <-Hs.
    + by rewrite Hc2, Hc1, <-app_assoc.
    + intros Hup Hall. apply Forall_cons in Hall as [(m & Hm & Hvalid) Hall].
      destruct (Hup1 Hup m Hm Hvalid) as [-> Hupw1].
      destruct Hup2 as [Hentries Hzero]; [done|by rewrite Hs|].
      rewrite Hs, Ho in Hentries. simpl. split.
      * constructor; [by exists m|done].
      * by constructor.
Qed.

Lemma runs_entries sv addons runs :
  Forall2 (checkedAs sv) addons runs ->
  forall r, r ∈ runs ≫= snd ->
    exists a m isOnline,
      a ∈ addons /\ sv !! transportUrl a = Some m /\
      r = updateInfo a (fetched (transportUrl a) m) isOnline.
Proof.
  induction 1 as [|a run addons runs [_ Hrun] _ IH]; intros r; simpl.
  - by intros ?%elem_of_nil.
  - intros [Hr|Hr]%elem_of_app.
    + destruct Hrun as [Hnone|(m & on & Hm & _ & Hone)].
      * rewrite Hnone in Hr. by apply elem_of_nil in Hr.
      * rewrite Hone in Hr. apply list_elem_of_singleton in Hr as ->.
        exists a, m, on. split; [by left|done].
    + destruct (IH r Hr) as (a' & m & on & ? & ? & ?).
      exists a', m, on. split; [by right|done].
Qed.

(** C8. [checkAddonUpdates] always returns, and the addons flagged protected
    or official play no part in it: the run is the run over the others, in
    their order. Each of the others is checked once: a request for its
    manifest, the probe, at most two further requests for the manifest, and
    no request at any other URL; and it gets no entry in the result, or one
    entry, made of the addon and of a manifest served at its transport URL;
    the result lists these entries in the order of the addons. Every entry
    has [hasUpdate] true exactly when the string of the version served
    differs from the string of the installed version. When no round trip
    fails and every checked addon is served a manifest with an id, a name
    and a version, every checked addon has its entry, and no request is
    repeated. *)
Theorem checkAddonUpdates_policy (addons : list AddonDescriptor) (w : World) :
  checkAddonUpdates (checkedOf addons) w = checkAddonUpdates addons w /\
  exists results w' runs,
    checkAddonUpdates addons w = (Ok results, w') /\
    Forall2 (checkedAs (served (env w))) (checkedOf addons) runs /\
    results = runs ≫= snd /\
    calls (env w') =
      calls (env w) ++
        mjoin (zip_with (fun a run => requestsOf (transportUrl a) run.1)
                        (checkedOf addons) runs) /\
    (forall r, r ∈ results ->
       reportsOn (served (env w)) addons r /\
       (ui_hasUpdate r = true <-> ui_latestVersion r <> ui_installedVersion r)) /\
    (up w ->
     Forall (fun a => exists m, served (env w) !! transportUrl a = Some m /\
                                validManifest m) (checkedOf addons) ->
     Forall2 (fun a r =>
                exists m, served (env w) !! transportUrl a = Some m /\
                  r = updateInfo a (fetched (transportUrl a) m)
                        (default false (online (env w) !! transportUrl a)))
             (checkedOf addons) results /\
     Forall (fun run => run.1 = 0) runs).
Proof.
  split.
  - unfold checkAddonUpdates. rewrite <-!checkedOf_eq. f_equal. f_equal. f_equal.
    apply list_filter_filter_l. tauto.
  - unfold checkAddonUpdates, withLocal. rewrite bind_eq, checkedOf_eq.
    destruct (checkLoop_outcome (checkedOf addons) [] w)
      as (runs & w' & -> & Hruns & Hcalls & Hup).
    simpl. exists (runs ≫= snd), w', runs. split_and!; [done..| |done].
    intros r Hr.
    destruct (runs_entries _ _ _ Hruns r Hr) as (a & m & on & Ha & Hm & ->).
    apply list_elem_of_filter in Ha as [[Hp Ho] Ha]. split.
    + exists a, m. by split_and!.
    + simpl. apply bool_decide_eq_true.
Qed.

End PolicyFacts.

(** ** The library of saved addons *)

Module LibraryFacts.
Import AddonStoreOps LibraryOps.

(** X12. After [deleteSavedAddon] of an id that is no member name of
    [Object.prototype], [getSavedAddon] answers null for the id, also when
    the write of the library fails; the other entries are as they were.  The
    ledger of the accounts is not looked at: an installed addon linked to
    the deleted entry keeps its link. *)
Theorem deleteSavedAddon_removes (i : string) (w : World) :
  (i ∉ objectPrototypeKeys) ->
  exists r w',
    deleteSavedAddon i w = (r, w') /\
    getSavedAddon i w' = None /\
    (forall k, k <> i -> getSavedAddon k w' = getSavedAddon k w) /\
    accountStates (addonStore w') = accountStates (addonStore w) /\
    calls (env w') = calls (env w) ++ [SaveAddonLibrary] /\
    (r = Ok tt <-> fault (nextEvent (env w)) = None).
Proof.
  intros _. unfold deleteSavedAddon, saveAddonLibrary, getSavedAddon.
  repeat (rewrite bind_eq; simpl).
  destruct (fault (nextEvent (env w))) as [flt|]; simpl;
    do 2 eexists; (split; [reflexivity|]); simpl; rewrite lookup_delete_eq;
    (split_and!; [done|intros k Hk; by rewrite lookup_delete_ne|done..]).
Qed.

Lemma libraryValues_elem (l : gmap string SavedAddon) (s : SavedAddon) :
  s ∈ libraryValues l <-> exists k, l !! k = Some s.
Proof.
  unfold libraryValues. rewrite list_elem_of_fmap. split.
  - intros ([k s'] & -> & Hin). exists k. by apply elem_of_map_to_list.
  - intros [k Hk]. exists (k, s). split; [done|]. by apply elem_of_map_to_list.
Qed.

(** X13. [getAllTags] lists the tags of the library in ascending order, each
    once: a string is in the list exactly when it is a tag of some saved
    addon. *)
Theorem getAllTags_sorted_unique (w : World) :
  StronglySorted String.le (getAllTags w) /\
  NoDup (getAllTags w) /\
  forall t, t ∈ getAllTags w <->
    exists k s, library (addonStore w) !! k = Some s /\ t ∈ sa_tags s.
Proof.
  unfold getAllTags. split_and!.
  - apply StronglySorted_merge_sort; apply _.
  - rewrite merge_sort_Permutation. apply NoDup_remove_dups.
  - intros t. rewrite merge_sort_Permutation, elem_of_remove_dups, list_elem_of_bind.
    split.
    + intros (s & Ht & [k Hk]%libraryValues_elem). eauto.
    + intros (k & s & Hk & Ht). exists s. split; [done|].
      apply libraryValues_elem. eauto.
Qed.

Section WithHelpers.
Variable normalizeTagName : string -> string.
Variable trim : string -> string.

Lemma normalizeTags_spec (tags : list string) :
  Forall (fun t => t <> "" /\ exists t0, t0 ∈ tags /\ t = normalizeTagName t0)
         (normalizeTags normalizeTagName tags).
Proof.
  apply Forall_forall. intros t [Hne Hin]%list_elem_of_filter.
  apply list_elem_of_fmap in Hin as (t0 & -> & Hin). eauto.
Qed.

(** X10. [createSavedAddon] with a manifest puts the new entry into the
    store under the generated id before it writes the library out: the entry
    is there whether or not the write succeeds.  It has the trimmed name, the
    URL and the manifest given, no empty tag, every tag the normal form of a
    given one, both dates at the current time and no [lastUsed]; the other
    entries are as they were, [loading] is off, and [error] holds the message
    exactly when the call throws.  Without a manifest nothing is stored or
    written. *)
Theorem createSavedAddon_stores (uuid name installUrl : string)
    (tags : list string) (m : AddonManifest) (w : World) :
  (exists r w' s,
     createSavedAddon normalizeTagName trim uuid name installUrl tags (Some m) w
       = (r, w') /\
     getSavedAddon uuid w' = Some s /\
     sa_id s = uuid /\ sa_name s = trim name /\ sa_installUrl s = installUrl /\
     sa_manifest s = m /\
     sa_createdAt s = clock (env w) /\ sa_updatedAt s = clock (env w) /\
     sa_lastUsed s = None /\
     Forall (fun t => t <> "" /\ exists t0, t0 ∈ tags /\ t = normalizeTagName t0)
            (sa_tags s) /\
     (forall k, k <> uuid -> getSavedAddon k w' = getSavedAddon k w) /\
     calls (env w') = calls (env w) ++ [SaveAddonLibrary] /\
     loading (addonStore w') = false /\
     (r = Ok uuid /\ error (addonStore w') = None \/
      exists e, r = Throw e /\ error (addonStore w') = Some e)) /\
  (exists w',
     createSavedAddon normalizeTagName trim uuid name installUrl tags None w
       = (Throw "Existing manifest is required to create a saved addon", w') /\
     library (addonStore w') = library (addonStore w) /\
     env w' = env w /\
     loading (addonStore w') = false /\
     error (addonStore w') =
       Some "Existing manifest is required to create a saved addon").
Proof.
  split.
  - unfold createSavedAddon, try_finally, try_catch, saveAddonLibrary.
    repeat (rewrite bind_eq; simpl).
    match goal with |- context [fault ?ev] => destruct (fault ev) as [flt|] end;
      simpl; do 3 eexists; (split; [reflexivity|]); simpl; unfold getSavedAddon; simpl;
      rewrite lookup_insert_eq; (split; [reflexivity|]); simpl;
      (split_and!; [done..|apply normalizeTags_spec| |done|done|]).
    + intros k Hk. by rewrite lookup_insert_ne.
    + right. eauto.
    + intros k Hk. by rewrite lookup_insert_ne.
    + by left.
  - unfold createSavedAddon, try_finally, try_catch.
    repeat (rewrite bind_eq; simpl). eexists. by split_and!.
Qed.

(** X11. [updateSavedAddon] changes the name and the tags at most: the id,
    the install URL, the manifest, the creation date and [lastUsed] of the
    entry stay, also when the update carries an install URL; [updatedAt] is
    stamped, the other entries are as they were and [loading] is off at the
    end.  For an id the library does not have, and that is no member name of
    [Object.prototype], it throws ['Saved addon not found'], records the
    message, and writes nothing. *)
Theorem updateSavedAddon_frame (i : string) (updates : SavedAddonUpdates)
    (w : World) :
  (i ∉ objectPrototypeKeys) ->
  exists r w',
    updateSavedAddon normalizeTagName trim i updates w = (r, w') /\
    loading (addonStore w') = false /\
    (forall k, k <> i -> getSavedAddon k w' = getSavedAddon k w) /\
    match getSavedAddon i w with
    | None =>
        r = Throw "Saved addon not found" /\
        getSavedAddon i w' = None /\
        error (addonStore w') = Some "Saved addon not found" /\
        env w' = env w
    | Some s =>
        exists s',
          getSavedAddon i w' = Some s' /\
          sa_id s' = sa_id s /\ sa_installUrl s' = sa_installUrl s /\
          sa_manifest s' = sa_manifest s /\
          sa_createdAt s' = sa_createdAt s /\ sa_lastUsed s' = sa_lastUsed s /\
          sa_updatedAt s' = clock (env w) /\
          sa_name s' = default (sa_name s) (trim <$> up_name updates) /\
          sa_tags s' =
            default (sa_tags s) (normalizeTags normalizeTagName <$> up_tags updates) /\
          calls (env w') = calls (env w) ++ [SaveAddonLibrary]
    end.
Proof.
  intros _.
  unfold updateSavedAddon, try_finally, try_catch, saveAddonLibrary, getSavedAddon.
  repeat (rewrite bind_eq; simpl).
  destruct (library (addonStore w) !! i) as [s|] eqn:Hs.
  - repeat (rewrite bind_eq; simpl).
    match goal with |- context [fault ?ev] => destruct (fault ev) as [flt|] end;
      simpl; do 2 eexists; (split; [reflexivity|]); simpl;
      (split_and!; [done|intros k Hk; by rewrite lookup_insert_ne|]);
      rewrite lookup_insert_eq; eexists; (split; [reflexivity|]);
      destruct updates as [[n|] [t|] u]; simpl; by split_and!.
  - repeat (rewrite bind_eq; simpl). do 2 eexists. split; [reflexivity|]. simpl.
    by rewrite Hs.
Qed.

End WithHelpers.

(** *** Tags *)

Section WithTags.
Variable normalizeTagName : string -> string.

Lemma getSavedAddonsByTag_elem (tag : string) (w : World) (s : SavedAddon) :
  s ∈ getSavedAddonsByTag normalizeTagName tag w <->
  (exists k, library (addonStore w) !! k = Some s) /\
  hasTag normalizeTagName (normalizeTagName tag) s.
Proof.
  unfold getSavedAddonsByTag. rewrite list_elem_of_filter, libraryValues_elem. tauto.
Qed.

Lemma getSavedAddonsByTag_none (tag : string) (w : World) :
  (forall k s, library (addonStore w) !! k = Some s ->
     ~ hasTag normalizeTagName (normalizeTagName tag) s) ->
  getSavedAddonsByTag normalizeTagName tag w = [].
Proof.
  intros Hnone.
  destruct (getSavedAddonsByTag normalizeTagName tag w) as [|s rest] eqn:Hl; [done|].
  assert (Hin : s ∈ getSavedAddonsByTag normalizeTagName tag w)
    by (rewrite Hl; by left).
  apply getSavedAddonsByTag_elem in Hin as [[k Hk] Htag].
  by destruct (Hnone k s Hk).
Qed.

(** X14. The operations by tag look the tag up in its normal form among the
    normal forms of the stored tags.  When no saved addon carries it they
    throw, naming the tag as it was given, before anything is done: no flag
    of the store is set, no round trip is made. *)
Theorem tag_operations_need_a_match (tag accountId accountAuthKey : string)
    (accts : list AccountRef) (strategy : MergeStrategy) (w : World) :
  (forall k s, library (addonStore w) !! k = Some s ->
     Forall (fun t => normalizeTagName t <> normalizeTagName tag) (sa_tags s)) ->
  applyTagToAccount normalizeTagName tag accountId accountAuthKey strategy w =
    (Throw ("No saved addons found with tag: " +:+ tag), w) /\
  applyTagToAccounts normalizeTagName tag accts strategy w =
    (Throw ("No saved addons found with tag: " +:+ tag), w) /\
  bulkApplyTag normalizeTagName tag accts strategy w =
    (Throw ("No saved addons found with tag: " +:+ tag), w) /\
  bulkRemoveByTag normalizeTagName tag accts w =
    (Throw ("No saved addons found with tag: " +:+ tag), w).
Proof.
  intros Hnone.
  assert (Hempty : getSavedAddonsByTag normalizeTagName tag w = []).
  { apply getSavedAddonsByTag_none. intros k s Hk Htag.
    apply Exists_exists in Htag as (t & Hin & Ht).
    specialize (Hnone k s Hk). rewrite Forall_forall in Hnone. by apply (Hnone t). }
  unfold applyTagToAccounts, applyTagToAccount, bulkApplyTag, bulkRemoveByTag.
  rewrite !bind_eq. simpl. by rewrite Hempty.
Qed.

(** A tag list where no two tags have the same normal form has at most one
    tag of a given normal form. *)
Lemma renameIn_tags (normalizedOld normalizedNew : string) (now : nat)
    (s : SavedAddon) :
  (forall t, normalizeTagName (normalizeTagName t) = normalizeTagName t) ->
  normalizedNew = normalizeTagName normalizedNew ->
  normalizedNew <> normalizedOld ->
  NoDup (normalizeTagName <$> sa_tags s) ->
  ~ hasTag normalizeTagName normalizedOld
      (renameIn normalizeTagName normalizedOld normalizedNew now s) /\
  (hasTag normalizeTagName normalizedOld s ->
   hasTag normalizeTagName normalizedNew
      (renameIn normalizeTagName normalizedOld normalizedNew now s)) /\
  (~ hasTag normalizeTagName normalizedOld s ->
   renameIn normalizeTagName normalizedOld normalizedNew now s = s).
Proof.
  intros Hidem Hnew Hne Hnd. unfold renameIn, hasTag.
  destruct (list_find _ (sa_tags s)) as [[j t]|] eqn:Hfind.
  - apply list_find_Some in Hfind as (Hj & Ht & _). simpl. split_and!.
    + intros (t' & Hin & Ht')%Exists_exists.
      apply list_elem_of_lookup in Hin as [j' Hj'].
      apply list_lookup_insert_Some in Hj' as [(<- & <- & _)|[Hjj' Hj']].
      * congruence.
      * apply Hjj'.
        eapply (NoDup_lookup (normalizeTagName <$> sa_tags s) j j' normalizedOld);
          [done| |]; rewrite list_lookup_fmap.
        -- by rewrite Hj, <-Ht.
        -- by rewrite Hj', <-Ht'.
    + intros _. apply Exists_exists. exists normalizedNew. split; [|done].
      apply list_elem_of_lookup. exists j.
      rewrite list_lookup_insert_eq; [done|]. by eapply lookup_lt_Some.
    + intros []. apply Exists_exists. exists t. split; [|done].
      by eapply list_elem_of_lookup_2.
  - apply list_find_None in Hfind.
    assert (Hno : ~ Exists (fun t => normalizeTagName t = normalizedOld) (sa_tags s)).
    { intros (t & Hin & Ht)%Exists_exists. rewrite Forall_forall in Hfind.
      by apply (Hfind t). }
    split_and!; [done| |done]. intros Htag. by destruct Hno.
Qed.

(** X15. When the normal form of a tag is its own normal form and no saved
    addon has two tags of the same normal form, a [renameTag] that returns
    has moved the tag: no saved addon carries the old tag any more, every
    one that carried it carries the new one and has as many tags as before,
    and the saved addons that did not carry it are untouched.  The keys and
    the ids of the library stay. *)
Theorem renameTag_moves_tag (oldTag newTag : string) (w w' : World) :
  (forall t, normalizeTagName (normalizeTagName t) = normalizeTagName t) ->
  normalizeTagName newTag <> normalizeTagName oldTag ->
  (forall k s, library (addonStore w) !! k = Some s ->
     NoDup (normalizeTagName <$> sa_tags s)) ->
  renameTag normalizeTagName oldTag newTag w = (Ok tt, w') ->
  getSavedAddonsByTag normalizeTagName oldTag w' = [] /\
  forall k,
    match library (addonStore w) !! k with
    | None => library (addonStore w') !! k = None
    | Some s =>
        exists s',
          library (addonStore w') !! k = Some s' /\
          sa_id s' = sa_id s /\
          length (sa_tags s') = length (sa_tags s) /\
          (hasTag normalizeTagName (normalizeTagName oldTag) s ->
           hasTag normalizeTagName (normalizeTagName newTag) s') /\
          (~ hasTag normalizeTagName (normalizeTagName oldTag) s -> s' = s)
    end.
Proof.
  intros Hidem Hne Hnd. unfold renameTag.
  destruct (decide (normalizeTagName newTag = "")) as [|Hvalid]; [done|].
  repeat (rewrite bind_eq; simpl).
  set (l := library (addonStore w)).
  set (f := renameIn normalizeTagName (normalizeTagName oldTag)
              (normalizeTagName newTag) (clock (env w))).
  assert (Hf : forall k s, l !! k = Some s ->
    ~ hasTag normalizeTagName (normalizeTagName oldTag) (f s) /\
    (hasTag normalizeTagName (normalizeTagName oldTag) s ->
     hasTag normalizeTagName (normalizeTagName newTag) (f s)) /\
    (~ hasTag normalizeTagName (normalizeTagName oldTag) s -> f s = s)).
  { intros k s Hk. apply renameIn_tags; [done|by rewrite Hidem|done|by eapply Hnd]. }
  assert (Hshape : forall s, sa_id (f s) = sa_id s /\
                             length (sa_tags (f s)) = length (sa_tags s)).
  { intros s. unfold f, renameIn.
    destruct (list_find _ (sa_tags s)) as [[j t]|]; simpl; [|done].
    by rewrite length_insert. }
  destruct (bool_decide _) eqn:Hchanges.
  - repeat (rewrite bind_eq; simpl). unfold saveAddonLibrary.
    repeat (rewrite bind_eq; simpl).
    match goal with |- context [fault ?ev] => destruct (fault ev) end; [done|].
    intros [= <-]. split.
    + apply getSavedAddonsByTag_none. simpl. intros k s'.
      rewrite lookup_fmap. fold l.
      destruct (l !! k) as [s|] eqn:Hk; [|done]. intros [= <-].
      by apply (Hf k s Hk).
    + intros k. simpl. rewrite lookup_fmap. fold l.
      destruct (l !! k) as [s|] eqn:Hk; [|done]. simpl.
      exists (f s). destruct (Hshape s) as [? ?]. destruct (Hf k s Hk) as (_ & ? & ?).
      by split_and!.
  - intros [= <-]. apply bool_decide_eq_false in Hchanges.
    assert (Hnone : forall k s, l !! k = Some s ->
              ~ hasTag normalizeTagName (normalizeTagName oldTag) s).
    { intros k s Hk Htag. apply Hchanges. apply Exists_exists. exists s.
      split; [|done]. apply libraryValues_elem. eauto. }
    split.
    + by apply getSavedAddonsByTag_none.
    + intros k. fold l. destruct (l !! k) as [s|] eqn:Hk; [|done].
      exists s. split_and!; [done..| |done]. intros Htag. by destruct (Hnone k s Hk).
Qed.

End WithTags.

End LibraryFacts.

(** ** The bulk operations and the sync of the ledger *)

Module StoreFacts.
Import AddonStoreOps LibraryOps BulkAux SyncAux FrameAux FrameFacts.

#[local] Instance ledgerOutside_refl ids : Reflexive (ledgerOutside ids).
Proof. by intros w k _. Qed.

#[local] Instance ledgerOutside_trans ids : Transitive (ledgerOutside ids).
Proof. intros a b c H1 H2 k Hk. by rewrite H2, H1. Qed.

#[local] Instance ledgerOutsideL_refl {L} ids : Reflexive (@ledgerOutsideL L ids).
Proof. intros ls. apply ledgerOutside_refl. Qed.

#[local] Instance ledgerOutsideL_trans {L} ids : Transitive (@ledgerOutsideL L ids).
Proof. intros a b c. apply ledgerOutside_trans. Qed.

#[local] Instance readOnly_refl : Reflexive readOnly.
Proof. by intros w. Qed.

#[local] Instance readOnly_trans : Transitive readOnly.
Proof. intros a b c H1 H2. unfold readOnly in *. congruence. Qed.

Lemma storeKept_ledger ids {A} (m : M World A) :
  keeps storeKept m -> keeps (ledgerOutside ids) m.
Proof. intros Hm w r w' Hrun k _. by rewrite (Hm w r w' Hrun). Qed.

Lemma store_getEncryptionKey : keeps storeKept getEncryptionKey.
Proof.
  intros w r w'. unfold getEncryptionKey. rewrite bind_eq. simpl.
  destruct (encryptionKey (env w)); by intros [= <- <-].
Qed.

Lemma store_decrypt c k : keeps storeKept (decrypt c k).
Proof.
  intros w r w'. unfold decrypt. rewrite bind_eq. simpl.
  destruct (cipher (env w) !! c); by intros [= <- <-].
Qed.

Lemma store_getAddons k : keeps storeKept (Api.getAddons k).
Proof. intros w r w'. rewrite ApiFacts.getAddons_eq. by intros [= <- <-]. Qed.

Lemma store_updateAddons k c : keeps storeKept (Api.updateAddons k c).
Proof.
  intros w r w'. rewrite ApiFacts.updateAddons_eq.
  destruct (fault (nextEvent (env w))); [by intros [= <- <-]|].
  destruct (remote (env w) !! k); by intros [= <- <-].
Qed.

(** A sync reads the service and writes the ledger entry of its account. *)
Lemma sync_frame a k :
  keeps (fun w w' => readOnly w w' /\ ledgerOutside [a] w w') (syncAccountState a k).
Proof.
  intros w r w'. unfold syncAccountState. rewrite try_catch_rethrow.
  unfold getEncryptionKey, decrypt.
  rewrite !bind_eq. simpl.
  destruct (encryptionKey (env w)) as [key|]; [|by intros [= <- <-]].
  unfold mret at 1, M_ret at 1. rewrite !bind_eq. simpl.
  destruct (cipher (env w) !! k) as [authKey|]; [|by intros [= <- <-]].
  unfold mret at 1, M_ret at 1. rewrite !bind_eq, ApiFacts.getAddons_eq.
  destruct (fault (nextEvent (env w))); [by intros [= <- <-]|].
  destruct (remote (env w) !! authKey) as [live|]; [|by intros [= <- <-]].
  rewrite !bind_eq. simpl. unfold withLocal.
  rewrite !bind_eq, SyncFacts.syncLoop_eq. simpl.
  unfold saveAccountAddonStates. repeat (rewrite bind_eq; simpl).
  match goal with
  | |- context [fault ?ev] => destruct (fault ev)
  end; intros [= <- <-]; (split; [done|]); intros i Hi; simpl;
    apply lookup_insert_ne; intros ->; apply Hi; by left.
Qed.

Lemma ledger_syncAccountState ids a k :
  a ∈ ids -> keeps (ledgerOutside ids) (syncAccountState a k).
Proof.
  intros Ha w r w' Hrun i Hi. apply (sync_frame a k w r w' Hrun).
  intros ->%list_elem_of_singleton. done.
Qed.

Lemma ledger_recordFailure ids a e : keeps (ledgerOutsideL ids) (recordFailure a e).
Proof.
  apply keeps_bind; [apply _|by apply (keeps_modifyLocal (ledgerOutside ids))|].
  intros _. by apply (keeps_modifyLocal (ledgerOutside ids)).
Qed.

Lemma ledger_removeFromAccount ids addonIds account :
  ar_id account ∈ ids ->
  keeps (ledgerOutsideL ids) (removeFromAccount addonIds account).
Proof.
  intros Hin.
  apply keeps_try_catch; [apply _| |intros e; apply ledger_recordFailure].
  apply keeps_bind;
    [apply _|apply keeps_liftW, storeKept_ledger, store_getEncryptionKey|].
  intros key.
  apply keeps_bind; [apply _|apply keeps_liftW, storeKept_ledger, store_decrypt|].
  intros authKey.
  apply keeps_bind; [apply _|apply keeps_liftW, storeKept_ledger, store_getAddons|].
  intros live. simpl.
  apply keeps_bind;
    [apply _|apply keeps_liftW, storeKept_ledger, store_updateAddons|].
  intros _.
  apply keeps_bind; [apply _|by apply (keeps_modifyLocal (ledgerOutside ids))|].
  intros _.
  apply keeps_bind; [apply _|by apply (keeps_modifyLocal (ledgerOutside ids))|].
  intros _.
  by apply keeps_liftW, ledger_syncAccountState.
Qed.

(** A loop keeps what its body keeps for the elements of its list. *)
Lemma keeps_forEach_in {S A} (R : S -> S -> Prop) `{!Reflexive R} `{!Transitive R}
    (body : A -> M S unit) (l : list A) :
  (forall x, x ∈ l -> keeps R (body x)) -> keeps R (forEach body l).
Proof.
  induction l as [|x l IH]; intros Hb; simpl.
  - by apply keeps_ret.
  - apply keeps_bind; [done|apply Hb; by left|].
    intros _. apply IH. intros y Hy. apply Hb. by right.
Qed.

(** X16. [bulkRemoveAddons] always returns a result.  The result reports on
    every account: each is in [details] or in [errors], the counters are the
    lengths of the two lists, and their sum lies between the number of
    accounts and twice that number.  At the end [loading] is off and [error]
    is empty; the library, the account store and the ledger entries of the
    accounts that were not named are as they were. *)
Theorem bulkRemoveAddons_returns (addonIds : list string)
    (accts : list AccountRef) (w : World) :
  exists res w',
    bulkRemoveAddons addonIds accts w = (Ok res, w') /\
    isolated accts res /\
    loading (addonStore w') = false /\
    error (addonStore w') = None /\
    library (addonStore w') = library (addonStore w) /\
    accountStore w' = accountStore w /\
    ledgerOutside (ar_id <$> accts) w w'.
Proof.
  unfold bulkRemoveAddons. repeat (rewrite bind_eq; simpl).
  unfold try_finally, try_catch, withLocal. rewrite bind_eq.
  match goal with |- context [forEach ?b accts (?r0, ?w0)] =>
    destruct (BulkFacts.loop_isolates b accts
                (BulkFacts.removeFromAccount_outcome addonIds) r0 w0)
      as (r' & w' & Hloop & Hn & Ht & _ & Ha);
    pose proof (keeps_forEach quietL b accts
                  (quiet_removeFromAccount addonIds) _ _ _ Hloop) as Hquiet;
    pose proof (keeps_forEach_in (ledgerOutsideL (ar_id <$> accts)) b accts
                  (fun x Hx => ledger_removeFromAccount (ar_id <$> accts) addonIds x
                     (list_elem_of_fmap_2 ar_id _ _ Hx))
                  _ _ _ Hloop) as Hledger;
    rewrite Hloop
  end.
  simpl. do 2 eexists. split; [done|]. simpl in Hn.
  destruct Hquiet as (Hlib & _ & Herr & _ & Hacc & _). simpl in Hlib, Herr, Hacc.
  split.
  - split_and!; [lia|lia| |done]. by apply Ht.
  - simpl. split_and!; [done..|]. intros k Hk. by apply (Hledger k Hk).
Qed.

Lemma removeLoop_locked addonIds accts : forall r w,
  encryptionKey (env w) = None ->
  forEach (removeFromAccount addonIds) accts (r, w) =
  (Ok tt,
   ({| success := success r; failed := failed r + length accts;
       errors := errors r ++ lockedErrors accts; details := details r |}, w)).
Proof.
  induction accts as [|a accts IH]; intros r w Hk; simpl.
  - destruct r. simpl. by rewrite Nat.add_0_r, app_nil_r.
  - rewrite bind_eq.
    assert (Hone : removeFromAccount addonIds a (r, w) =
      (Ok tt, (pushError {| be_accountId := ar_id a; be_error := "App is locked" |}
                 (incFailed r), w))).
    { unfold removeFromAccount, try_catch. rewrite bind_eq, liftW_eq.
      unfold getEncryptionKey. rewrite bind_eq. simpl. by rewrite Hk. }
    rewrite Hone, IH by done. simpl. rewrite <-app_assoc. simpl.
    do 3 f_equal. f_equal. lia.
Qed.

(** X17. In a locked app (no session key) [bulkRemoveAddons] reports every
    account as failed with ['App is locked'], in the order given, and makes
    no round trip: the service, the library and the ledger are as they
    were. *)
Theorem bulkRemoveAddons_locked (addonIds : list string)
    (accts : list AccountRef) (w : World) :
  encryptionKey (env w) = None ->
  exists w',
    bulkRemoveAddons addonIds accts w =
      (Ok {| success := 0; failed := length accts;
             errors := lockedErrors accts; details := [] |}, w') /\
    env w' = env w /\
    accountStore w' = accountStore w /\
    library (addonStore w') = library (addonStore w) /\
    accountStates (addonStore w') = accountStates (addonStore w) /\
    loading (addonStore w') = false /\
    error (addonStore w') = None.
Proof.
  intros Hk. unfold bulkRemoveAddons. repeat (rewrite bind_eq; simpl).
  unfold try_finally, try_catch, withLocal.
  rewrite bind_eq, removeLoop_locked by done. simpl.
  eexists. split; [reflexivity|]. by split_and!.
Qed.

(** X18. When none of the requested ids is in the library, nor a member
    name of [Object.prototype], [bulkApplySavedAddons] throws
    ['No valid saved addons found'] before it looks at any account: no round
    trip is made, the message is recorded in [error], and [loading] is off
    at the end. *)
Theorem bulkApply_nothing_resolved (savedAddonIds : list string)
    (accts : list AccountRef) (strategy : MergeStrategy) (w : World) :
  Forall (fun i => library (addonStore w) !! i = None /\
                   (i ∉ objectPrototypeKeys)) savedAddonIds ->
  exists w',
    bulkApplySavedAddons savedAddonIds accts strategy w =
      (Throw "No valid saved addons found", w') /\
    env w' = env w /\
    accountStore w' = accountStore w /\
    library (addonStore w') = library (addonStore w) /\
    accountStates (addonStore w') = accountStates (addonStore w) /\
    loading (addonStore w') = false /\
    error (addonStore w') = Some "No valid saved addons found".
Proof.
  intros Hnone.
  assert (Hres : omap (fun i => library (addonStore w) !! i) savedAddonIds = []).
  { induction Hnone as [|i ids [Hi _] _ IH]; [done|]. simpl. by rewrite Hi. }
  unfold bulkApplySavedAddons. repeat (rewrite bind_eq; simpl).
  unfold try_finally, try_catch. repeat (rewrite bind_eq; simpl).
  rewrite Hres. simpl. eexists. split; [reflexivity|]. by split_and!.
Qed.

(** X30. [bulkApplySavedAddons] ends with [loading] off and the account
    store untouched, whatever happens.  When it returns, [error] is empty
    and the result reports on every account; when it throws, because no id
    resolved or because the library could not be written, [error] holds the
    message thrown. *)
Theorem bulkApplySavedAddons_flags (savedAddonIds : list string)
    (accts : list AccountRef) (strategy : MergeStrategy) (w : World) :
  exists r w',
    bulkApplySavedAddons savedAddonIds accts strategy w = (r, w') /\
    loading (addonStore w') = false /\
    accountStore w' = accountStore w /\
    match r with
    | Ok res => error (addonStore w') = None /\ isolated accts res
    | Throw e => error (addonStore w') = Some e
    end.
Proof.
  unfold bulkApplySavedAddons. repeat (rewrite bind_eq; simpl).
  unfold try_finally, try_catch. repeat (rewrite bind_eq; simpl).
  set (saved := omap (fun i => library (addonStore w) !! i) savedAddonIds).
  destruct (decide (length saved = 0)) as [?|Hne].
  { simpl. do 2 eexists. split; [reflexivity|]. by split_and!. }
  unfold withLocal. rewrite bind_eq.
  match goal with |- context [forEach ?b accts (?r0, ?w0)] =>
    destruct (BulkFacts.loop_isolates b accts
                (BulkFacts.applyToAccount_outcome saved strategy) r0 w0)
      as (res & wb & Hloop & Hn & Ht & _ & Ha);
    pose proof (keeps_forEach quietL b accts
                  (quiet_applyToAccount saved strategy) _ _ _ Hloop)
      as (_ & _ & Herr & _ & Hacc & _);
    rewrite Hloop
  end.
  simpl in Herr, Hacc, Hn.
  repeat (rewrite bind_eq; simpl). unfold liftW at 1. simpl.
  unfold withLocal. rewrite bind_eq, BulkFacts.stampLoop_eq. simpl.
  repeat (rewrite bind_eq; simpl).
  unfold liftW at 1, saveAddonLibrary. repeat (rewrite bind_eq; simpl).
  match goal with |- context [fault ?ev] => destruct (fault ev) end; simpl.
  - do 2 eexists. split; [reflexivity|]. by split_and!.
  - do 2 eexists. split; [reflexivity|]. simpl. split_and!; [done..|].
    unfold isolated. split_and!; [lia|lia| |done]. by apply Ht.
Qed.


(** X20. An [applySavedAddonToAccount] that returns has merged the saved
    addon into the collection read from the account, written the merged
    collection to the service, stamped [lastUsed] of the saved addon, and
    synced the ledger: the account's ledger entry lists the manifest ids of
    the merged collection, in order.  It returns the log of the merge;
    [loading] is off and [error] is empty. *)
Theorem applySavedAddonToAccount_applies (savedAddonId accountId accountAuthKey : string)
    (strategy : MergeStrategy) (w w' : World) (res : MergeResult) :
  applySavedAddonToAccount savedAddonId accountId accountAuthKey strategy w
    = (Ok res, w') ->
  exists s authKey current st now,
    library (addonStore w) !! savedAddonId = Some s /\
    cipher (env w) !! accountAuthKey = Some authKey /\
    remote (env w) !! authKey = Some current /\
    res = (Merger.mergeAddons current [s] strategy).2 /\
    remote (env w') !! authKey =
      Some (Merger.mergeAddons current [s] strategy).1 /\
    library (addonStore w') =
      <[savedAddonId := withLastUsed now s]> (library (addonStore w)) /\
    clock (env w) <= now <= clock (env w') /\
    accountStates (addonStore w') !! accountId = Some st /\
    ia_addonId <$> st_installedAddons st =
      addon_id <$> (Merger.mergeAddons current [s] strategy).1 /\
    loading (addonStore w') = false /\
    error (addonStore w') = None.
Proof.
  unfold applySavedAddonToAccount. repeat (rewrite bind_eq; simpl).
  unfold try_finally, try_catch. repeat (rewrite bind_eq; simpl).
  destruct (library (addonStore w) !! savedAddonId) as [s|] eqn:Hs; [|done].
  unfold getEncryptionKey, decrypt. repeat (rewrite bind_eq; simpl).
  destruct (encryptionKey (env w)) as [key|] eqn:Hkey; [|done].
  unfold mret at 1, M_ret at 1. repeat (rewrite bind_eq; simpl).
  destruct (cipher (env w) !! accountAuthKey) as [authKey|] eqn:Hc; [|done].
  unfold mret at 1, M_ret at 1. rewrite bind_eq, ApiFacts.getAddons_eq. simpl.
  destruct (fault (nextEvent (env w))); [done|].
  destruct (remote (env w) !! authKey) as [current|] eqn:Hcur; [|done].
  set (merged := Merger.mergeAddons current [s] strategy).
  rewrite bind_eq, ApiFacts.updateAddons_eq. simpl.
  match goal with |- context [fault ?ev] => destruct (fault ev) end; [done|].
  rewrite Hcur. repeat (rewrite bind_eq; simpl).
  unfold saveAddonLibrary. repeat (rewrite bind_eq; simpl).
  match goal with |- context [fault ?ev] => destruct (fault ev) end; [done|].
  unfold mret at 1, M_ret at 1. rewrite bind_eq.
  match goal with |- context [syncAccountState accountId accountAuthKey ?w0] =>
    destruct (syncAccountState accountId accountAuthKey w0) as [[[]|e] w1] eqn:Hsync;
      [|done]
  end.
  pose proof (quiet_syncAccountState _ _ _ _ _ Hsync) as (_ & _ & Herr & _).
  simpl in Herr.
  apply SyncFacts.syncAccountState_Ok in Hsync
    as (authKey' & live & Hc' & Hlive & Hstates & Hclock & Hsame).
  simpl in Hc', Hlive, Hclock. rewrite Hc in Hc'. injection Hc' as <-.
  rewrite lookup_insert_eq in Hlive. injection Hlive as <-.
  destruct Hsame as (Hlib & Hrem & _ & _ & Hclk). simpl in Hlib, Hrem, Hclk.
  simpl. intros [= <- <-]. simpl.
  eexists s, authKey, current, _, _. split_and!; [done..| | | | | | |done|done].
  - by rewrite Hrem, lookup_insert_eq.
  - rewrite Hlib. reflexivity.
  - lia.
  - lia.
  - rewrite Hstates. apply lookup_insert_eq.
  - simpl. rewrite <-list_fmap_compose. apply list_fmap_ext.
    intros i a _. apply SyncFacts.syncEntry_addonId.
Qed.

End StoreFacts.

(** ** The account store *)

Module AccountFacts.
Import AccountStoreOps AccountStoreMore FrameAux AccountAux.

Lemma replaceAccount_ids i u l :
  acc_id u = i -> acc_id <$> replaceAccount i u l = acc_id <$> l.
Proof.
  intros Hu. unfold replaceAccount. rewrite <-list_fmap_compose.
  apply list_fmap_ext. intros j a _. simpl. destruct (decide _); congruence.
Qed.

Lemma markError_ids i l : acc_id <$> markError i l = acc_id <$> l.
Proof.
  unfold markError. rewrite <-list_fmap_compose.
  apply list_fmap_ext. intros j a _. simpl. by destruct (decide _).
Qed.

Lemma replaceAccount_others i u l j a :
  l !! j = Some a -> acc_id a <> i -> replaceAccount i u l !! j = Some a.
Proof.
  intros Hj Hne. unfold replaceAccount. rewrite list_lookup_fmap, Hj. simpl.
  by destruct (decide _).
Qed.

Lemma markError_others i l j a :
  l !! j = Some a -> acc_id a <> i -> markError i l !! j = Some a.
Proof.
  intros Hj Hne. unfold markError. rewrite list_lookup_fmap, Hj. simpl.
  by destruct (decide _).
Qed.

Lemma replaceAccount_those i u l :
  Forall (fun a => acc_id a = i -> a = u) (replaceAccount i u l).
Proof.
  unfold replaceAccount. apply Forall_fmap, Forall_forall. intros a _. simpl.
  by destruct (decide _).
Qed.

Lemma markError_those i l :
  Forall (fun a => acc_id a = i -> acc_status a = InError) (markError i l).
Proof.
  unfold markError. apply Forall_fmap, Forall_forall. intros a _. simpl.
  by destruct (decide _).
Qed.

Lemma persistAccounts_eq l w :
  persistAccounts l w =
  (match fault (nextEvent (env w)) with
   | Some flt => Throw (faultMessage flt "Failed to save accounts")
   | None => Ok tt
   end, setEnv (afterTrip SaveAccounts) w).
Proof.
  unfold persistAccounts. rewrite bind_eq. simpl.
  by destruct (fault (nextEvent (env w))).
Qed.

#[local] Ltac leaf :=
  do 2 eexists; (split; [reflexivity|]); simpl;
  rewrite ?markError_ids, ?replaceAccount_ids by done;
  split_and!;
  eauto using markError_others, replaceAccount_others, markError_those.

(** X21. [syncAccount] reads the service and never writes to it.  Whatever
    happens, [loading] is off at the end, the accounts keep their ids and
    their order, and the accounts with another id are untouched.  When it
    returns, the accounts with the id are active and hold the sanitized
    collection read; when it throws, they are marked as in error and [error]
    holds a message. *)
Theorem syncAccount_status (i : string) (w : World) :
  exists r w',
    syncAccount i w = (r, w') /\
    as_loading (accountStore w') = false /\
    addonStore w' = addonStore w /\
    readOnly w w' /\
    acc_id <$> accounts (accountStore w') = acc_id <$> accounts (accountStore w) /\
    (forall j a, accounts (accountStore w) !! j = Some a -> acc_id a <> i ->
       accounts (accountStore w') !! j = Some a) /\
    match r with
    | Ok _ =>
        as_error (accountStore w') = None /\
        exists account authKey live,
          account ∈ accounts (accountStore w) /\ acc_id account = i /\
          cipher (env w) !! acc_authKey account = Some authKey /\
          remote (env w) !! authKey = Some live /\
          Forall (fun a => acc_id a = i ->
                    acc_status a = Active /\
                    acc_addons a = normalizeAddon <$> live)
                 (accounts (accountStore w'))
    | Throw e =>
        (exists e0, as_error (accountStore w') = Some e0) /\
        Forall (fun a => acc_id a = i -> acc_status a = InError)
               (accounts (accountStore w'))
    end.
Proof.
  unfold syncAccount, try_finally, try_catch, readOnly.
  repeat (rewrite bind_eq; simpl).
  destruct (list_find _ (accounts (accountStore w))) as [[j account]|] eqn:Hfind;
    [|simpl; repeat (rewrite bind_eq; simpl); rewrite ?persistAccounts_eq; simpl;
      destruct (fault (nextEvent (env w))); leaf].
  apply list_find_Some in Hfind as (Hj & Hid & _).
  unfold decrypt. repeat (rewrite bind_eq; simpl).
  destruct (cipher (env w) !! acc_authKey account) as [authKey|] eqn:Hc;
    [|simpl; repeat (rewrite bind_eq; simpl); rewrite ?persistAccounts_eq; simpl;
      destruct (fault (nextEvent (env w))); leaf].
  unfold mret at 1, M_ret at 1. rewrite bind_eq, ApiFacts.getAddons_eq. simpl.
  destruct (fault (nextEvent (env w))) as [flt|];
    [simpl; repeat (rewrite bind_eq; simpl); rewrite ?persistAccounts_eq; simpl;
     match goal with |- context [fault ?ev] => destruct (fault ev) end; leaf|].
  destruct (remote (env w) !! authKey) as [live|] eqn:Hlive;
    [|simpl; repeat (rewrite bind_eq; simpl); rewrite ?persistAccounts_eq; simpl;
      match goal with |- context [fault ?ev] => destruct (fault ev) end; leaf].
  repeat (rewrite bind_eq; simpl). rewrite ?persistAccounts_eq. simpl.
  match goal with |- context [fault ?ev] => destruct (fault ev) end.
  - simpl. repeat (rewrite bind_eq; simpl). rewrite ?persistAccounts_eq. simpl.
    match goal with |- context [fault ?ev] => destruct (fault ev) end; leaf.
  - simpl. leaf. exists account, authKey, live.
    split_and!; [by eapply list_elem_of_lookup_2|done..|].
    eapply Forall_impl; [apply replaceAccount_those|].
    simpl. intros a Ha Hi. by rewrite (Ha Hi).
Qed.

(** One account of the loop of [syncAllAccounts]: the body never throws. *)
Lemma syncOneAccount_outcome (account : StremioAccount) (w : World) :
  exists w',
    syncOneAccount account w = (Ok tt, w') /\
    acc_id <$> accounts (accountStore w') = acc_id <$> accounts (accountStore w) /\
    as_loading (accountStore w') = as_loading (accountStore w) /\
    as_error (accountStore w') = as_error (accountStore w) /\
    addonStore w' = addonStore w /\
    readOnly w w' /\
    cipher (env w') = cipher (env w) /\
    clock (env w) <= clock (env w') /\
    calls (env w') =
      calls (env w) ++
        (AddonCollectionGet <$>
           omap (fun a => cipher (env w) !! acc_authKey a) [account]) /\
    script (env w') =
      drop (length (omap (fun a => cipher (env w) !! acc_authKey a) [account]))
           (script (env w)) /\
    (accounts (accountStore w') =
       markError (acc_id account) (accounts (accountStore w)) \/
     exists key live now,
       cipher (env w) !! acc_authKey account = Some key /\
       remote (env w) !! key = Some live /\
       clock (env w) <= now /\
       accounts (accountStore w') =
         replaceAccount (acc_id account)
           (withStatus Active (withAddons (normalizeAddon <$> live) now account))
           (accounts (accountStore w))).
Proof.
  unfold syncOneAccount, try_catch, decrypt, readOnly.
  repeat (rewrite bind_eq; simpl).
  destruct (cipher (env w) !! acc_authKey account) as [authKey|] eqn:Hkey.
  2: { simpl. repeat (rewrite bind_eq; simpl). eexists. split; [reflexivity|].
       simpl. rewrite markError_ids, app_nil_r.
       split_and!; [done..|lia|done|done|by left]. }
  assert (Htail : forall sc : list Event, tail sc = drop 1 sc) by (by intros []).
  unfold mret at 1, M_ret at 1. rewrite bind_eq, ApiFacts.getAddons_eq. simpl.
  destruct (fault (nextEvent (env w))) as [flt|].
  { simpl. repeat (rewrite bind_eq; simpl). eexists. split; [reflexivity|].
    simpl. rewrite markError_ids.
    split_and!; [done..|lia|done|apply Htail|by left]. }
  destruct (remote (env w) !! authKey) as [live|] eqn:Hlive.
  - repeat (rewrite bind_eq; simpl). eexists. split; [reflexivity|].
    simpl. rewrite replaceAccount_ids by done.
    split_and!; [done..|lia|done|apply Htail|].
    right. exists authKey, live, (clock (env w) + elapsed (nextEvent (env w))).
    split_and!; [done|done|lia|done].
  - repeat (rewrite bind_eq; simpl). eexists. split; [reflexivity|].
    simpl. rewrite markError_ids.
    split_and!; [done..|lia|done|apply Htail|by left].
Qed.

Lemma syncedFrom_earlier w w1 a c c' :
  cipher (env w1) = cipher (env w) -> remote (env w1) = remote (env w) ->
  clock (env w) <= clock (env w1) ->
  syncedFrom w1 a c c' -> syncedFrom w a c c'.
Proof.
  intros Hc Hr Hclock [->|(key & live & now & Hkey & Hlive & Hnow & ->)];
    [by left|right].
  exists key, live, now. rewrite <-Hc, <-Hr. split_and!; [done|done|lia|done].
Qed.

(** The loop of [syncAllAccounts] never throws: it comes to every account
    of the snapshot, whatever became of the ones before. *)
Lemma syncLoop_outcome (l : list StremioAccount) : forall w,
  exists w',
    forEach syncOneAccount l w = (Ok tt, w') /\
    acc_id <$> accounts (accountStore w') = acc_id <$> accounts (accountStore w) /\
    as_loading (accountStore w') = as_loading (accountStore w) /\
    as_error (accountStore w') = as_error (accountStore w) /\
    addonStore w' = addonStore w /\
    readOnly w w' /\
    cipher (env w') = cipher (env w) /\
    clock (env w) <= clock (env w') /\
    calls (env w') =
      calls (env w) ++
        (AddonCollectionGet <$> omap (fun a => cipher (env w) !! acc_authKey a) l) /\
    script (env w') =
      drop (length (omap (fun a => cipher (env w) !! acc_authKey a) l))
           (script (env w)) /\
    (NoDup (acc_id <$> l) ->
     Forall2 (fun c c' =>
                (acc_id c ∉ acc_id <$> l -> c' = c) /\
                (forall a, a ∈ l -> acc_id a = acc_id c -> syncedFrom w a c c'))
             (accounts (accountStore w)) (accounts (accountStore w'))).
Proof.
  induction l as [|a l IH]; intros w.
  - exists w. simpl. rewrite app_nil_r, drop_0. split_and!; [done..|].
    intros _. apply Forall_Forall2_diag, Forall_forall. intros c _.
    split; [done|]. by intros a ?%elem_of_nil.
  - cbn [forEach]. rewrite bind_eq.
    destruct (syncOneAccount_outcome a w)
      as (w1 & -> & H1 & H2 & H3 & H4 & H5 & H6 & H7 & H8 & H9 & Hstep).
    destruct (IH w1) as (w2 & -> & K1 & K2 & K3 & K4 & K5 & K6 & K7 & K8 & K9 & Hrest).
    exists w2. unfold readOnly in *.
    rewrite (omap_app _ [a] l : omap _ (a :: l) = _), fmap_app, length_app.
    split_and!; [done|congruence..|lia| | |].
    + by rewrite K8, H8, H6, <-app_assoc.
    + by rewrite K9, H9, H6, drop_drop.
    + intros [Hfresh Hnodup]%NoDup_cons.
      assert (Hfirst : Forall2 (fun c c1 =>
                acc_id c1 = acc_id c /\
                (acc_id c <> acc_id a -> c1 = c) /\
                (acc_id c = acc_id a -> syncedFrom w a c c1))
              (accounts (accountStore w)) (accounts (accountStore w1))).
      { destruct Hstep as [->|(key & live & now & Hkey & Hlive & Hnow & ->)];
          unfold markError, replaceAccount; apply Forall2_fmap_r,
            Forall_Forall2_diag, Forall_forall; intros c _; simpl;
          destruct (decide (acc_id c = acc_id a)) as [Heq|Hne];
          (split_and!; [done|done|intros ?]); try done.
        - by left.
        - right. by exists key, live, now. }
      eapply Forall2_trans; [|exact Hfirst|exact (Hrest Hnodup)].
      simpl. intros c c1 c' (Hid & Hother & Hthis) (Hkept & Hlater).
      destruct (decide (acc_id c = acc_id a)) as [Heq|Hne].
      * assert (c' = c1) as -> by (apply Hkept; by rewrite Hid, Heq).
        split.
        -- intros Hnot. exfalso. apply Hnot. rewrite Heq. by left.
        -- intros a0 [->|Ha0]%elem_of_cons Hsame; [by apply Hthis|].
           exfalso. apply Hfresh. rewrite <-Heq, <-Hsame.
           by apply list_elem_of_fmap_2.
      * rewrite (Hother Hne) in *. split.
        -- intros Hnot. apply Hkept. intros Hin. apply Hnot. by right.
        -- intros a0 [->|Ha0]%elem_of_cons Hsame; [done|].
           eapply syncedFrom_earlier; [exact H6|exact H5|exact H7|].
           by apply Hlater.
Qed.

Lemma nextEvent_drop (n : nat) (w w1 : World) :
  script (env w1) = drop n (script (env w)) ->
  nextEvent (env w1) = eventAt n w.
Proof.
  intros Hs. unfold nextEvent, eventAt. rewrite Hs.
  replace (script (env w) !! n) with (drop n (script (env w)) !! 0)
    by (rewrite lookup_drop; f_equal; lia).
  by destruct (drop n (script (env w))).
Qed.

(** X22. The loop of [syncAllAccounts] never throws: every account whose
    key can be decrypted is asked for at the service, once and in the order
    of the accounts, whatever became of the accounts before it, and the
    accounts are always written to the storage afterwards; nothing is
    written to the service.  The call throws exactly when this write fails,
    with the message of the write, and then [loading] stays on: nothing
    switches it off.  The accounts keep their ids and their order, and
    [error] is empty at the end even when accounts failed.  When the ids of
    the accounts are distinct, every account is either marked as in error,
    all else as it was, or active with the sanitized collection of its key
    at the service. *)
Theorem syncAllAccounts_loading (w : World) :
  exists r w',
    syncAllAccounts w = (r, w') /\
    acc_id <$> accounts (accountStore w') = acc_id <$> accounts (accountStore w) /\
    addonStore w' = addonStore w /\
    readOnly w w' /\
    as_error (accountStore w') = None /\
    calls (env w') =
      calls (env w) ++ (AddonCollectionGet <$> readableKeys w) ++ [SaveAccounts] /\
    match fault (eventAt (length (readableKeys w)) w) with
    | None => r = Ok tt /\ as_loading (accountStore w') = false
    | Some flt =>
        r = Throw (faultMessage flt "Failed to save accounts") /\
        as_loading (accountStore w') = true
    end /\
    (NoDup (acc_id <$> accounts (accountStore w)) ->
     Forall2 (fun a a' => syncedFrom w a a a')
             (accounts (accountStore w)) (accounts (accountStore w'))).
Proof.
  unfold syncAllAccounts. repeat (rewrite bind_eq; simpl).
  match goal with |- context [forEach syncOneAccount ?l ?w0] =>
    destruct (syncLoop_outcome l w0)
      as (w1 & -> & H1 & H2 & H3 & H4 & H5 & H6 & H7 & H8 & H9 & Hloop)
  end.
  simpl in *. repeat (rewrite bind_eq; simpl). rewrite ?persistAccounts_eq.
  unfold readOnly in *. fold (readableKeys w) in H8, H9.
  assert (Hsynced : NoDup (acc_id <$> accounts (accountStore w)) ->
            Forall2 (fun a a' => syncedFrom w a a a')
                    (accounts (accountStore w)) (accounts (accountStore w1))).
  { intros Hnodup. apply Forall2_same_length_lookup.
    pose proof (Hloop Hnodup) as Hall.
    split; [by eapply Forall2_length|].
    intros j a a' Hj Hj'.
    destruct (Forall2_lookup_lr _ _ _ _ _ _ Hall Hj Hj') as [_ Hone].
    eapply syncedFrom_earlier; [| | |apply Hone; [by eapply list_elem_of_lookup_2|done]];
      done. }
  rewrite (nextEvent_drop _ w w1 H9).
  destruct (fault (eventAt (length (readableKeys w)) w)) as [flt|]; simpl;
    do 2 eexists; (split; [reflexivity|]); simpl;
    (split_and!; [done..|by rewrite H8, <-app_assoc|done|done|done]).
Qed.

(** X23. After [removeAccount] the store has no account with the id, also
    when the write of the accounts fails; the other accounts are there in
    their order.  The ledger of the addon store and the service are not
    touched. *)
Theorem removeAccount_removes (i : string) (w : World) :
  exists r w',
    removeAccount i w = (r, w') /\
    accounts (accountStore w') =
      filter (fun a => acc_id a <> i) (accounts (accountStore w)) /\
    (i ∉ acc_id <$> accounts (accountStore w')) /\
    accounts (accountStore w') `sublist_of` accounts (accountStore w) /\
    addonStore w' = addonStore w /\
    readOnly w w' /\
    calls (env w') = calls (env w) ++ [SaveAccounts] /\
    (r = Ok tt <-> fault (nextEvent (env w)) = None).
Proof.
  unfold removeAccount. repeat (rewrite bind_eq; simpl). rewrite ?persistAccounts_eq.
  simpl. do 2 eexists. split; [reflexivity|]. simpl. split_and!; [done| | |done..|].
  - intros (a & Ha & Hin)%list_elem_of_fmap.
    by apply list_elem_of_filter in Hin as [Hne _].
  - apply sublist_filter.
  - by destruct (fault (nextEvent (env w))).
Qed.

(** X24. An [installAddonToAccount] that returns has installed the addon at
    the service and stored the sanitized copy of the collection that is now
    there in every account with the id; the other accounts are untouched. *)
Theorem installAddonToAccount_mirrors (accountId addonUrl : string) (w w' : World) :
  installAddonToAccount accountId addonUrl w = (Ok tt, w') ->
  exists account authKey updated,
    account ∈ accounts (accountStore w) /\ acc_id account = accountId /\
    cipher (env w) !! acc_authKey account = Some authKey /\
    remote (env w') !! authKey = Some updated /\
    (exists m i, served (env w) !! addonUrl = Some m /\
       list_find (fun a => addon_id a = m_id m) updated =
         Some (i, fetched addonUrl m)) /\
    Forall (fun a => acc_id a = accountId ->
              acc_addons a = normalizeAddon <$> updated)
           (accounts (accountStore w')) /\
    (forall j a, accounts (accountStore w) !! j = Some a -> acc_id a <> accountId ->
       accounts (accountStore w') !! j = Some a) /\
    as_loading (accountStore w') = false /\
    as_error (accountStore w') = None.
Proof.
  unfold installAddonToAccount, try_finally, try_catch.
  repeat (rewrite bind_eq; simpl).
  destruct (list_find _ (accounts (accountStore w))) as [[j account]|] eqn:Hfind;
    [|done].
  apply list_find_Some in Hfind as (Hj & Hid & _).
  unfold decrypt. repeat (rewrite bind_eq; simpl).
  destruct (cipher (env w) !! acc_authKey account) as [authKey|] eqn:Hc; [|done].
  unfold mret at 1, M_ret at 1. rewrite bind_eq.
  match goal with |- context [Api.installAddon authKey addonUrl ?w0] =>
    destruct (Api.installAddon authKey addonUrl w0) as [[updated|e] w1] eqn:Hinstall;
      [|done]
  end.
  pose proof Hinstall as Hrun.
  apply InstallFacts.installAddon_Ok in Hinstall
    as (m & current & Hm & _ & Hcur & Hup & Hrem & _).
  assert (Hstore : accountStore w1 = accountStore
            (setAccountStore (fun s => {| accounts := accounts s;
               as_loading := as_loading s; as_error := None |})
              (setAccountStore (fun s => {| accounts := accounts s;
                 as_loading := true; as_error := as_error s |}) w))).
  { clear -Hrun. unfold Api.installAddon in Hrun. rewrite bind_eq in Hrun.
    destruct (StremioClient.fetchAddonManifest addonUrl _) as [[d|e] w2] eqn:Hfetch;
      [|done].
    apply FrameFacts.trips_fetchAddonManifest in Hfetch as (_ & Hacc & _).
    rewrite bind_eq, ApiFacts.getAddons_eq in Hrun.
    destruct (fault (nextEvent (env w2))); [done|].
    destruct (remote (env w2) !! authKey); [|done].
    rewrite bind_eq, ApiFacts.updateAddons_eq in Hrun. simpl in Hrun.
    match type of Hrun with context [fault ?ev] => destruct (fault ev) end; [done|].
    destruct (remote (env w2) !! authKey); [|done].
    injection Hrun as _ <-. simpl. by rewrite Hacc. }
  repeat (rewrite bind_eq; simpl). rewrite ?persistAccounts_eq.
  simpl. destruct (fault (nextEvent (env w1)));
    [simpl; repeat (rewrite bind_eq; simpl); done|].
  simpl. intros [= <-]. simpl. rewrite Hstore. simpl.
  exists account, authKey, updated.
  split_and!; [by eapply list_elem_of_lookup_2|done|done| | | | |done|done].
  - by rewrite Hrem, lookup_insert_eq.
  - exists m. rewrite Hup. destruct (InstallFacts.installInto_first (fetched addonUrl m) current)
      as [i Hi]. by exists i.
  - eapply Forall_impl; [apply replaceAccount_those|].
    simpl. intros a Ha Hi. by rewrite (Ha Hi).
  - intros j' a Hj' Hne. by apply replaceAccount_others.
Qed.

(** X25. [reorderAddons] sends the list it is given to the service as it is,
    without reading the collection first and without comparing the two: when
    it returns, the service and every account with the id hold that list,
    whatever was installed before. *)
Theorem reorderAddons_writes_as_given (accountId : string)
    (newOrder : list AddonDescriptor) (w w' : World) :
  reorderAddons accountId newOrder w = (Ok tt, w') ->
  exists account authKey,
    account ∈ accounts (accountStore w) /\ acc_id account = accountId /\
    cipher (env w) !! acc_authKey account = Some authKey /\
    remote (env w') !! authKey = Some newOrder /\
    calls (env w') =
      calls (env w) ++ [AddonCollectionSet authKey newOrder; SaveAccounts] /\
    Forall (fun a => acc_id a = accountId -> acc_addons a = newOrder)
           (accounts (accountStore w')) /\
    (forall j a, accounts (accountStore w) !! j = Some a -> acc_id a <> accountId ->
       accounts (accountStore w') !! j = Some a).
Proof.
  unfold reorderAddons, try_finally, try_catch.
  repeat (rewrite bind_eq; simpl).
  destruct (list_find _ (accounts (accountStore w))) as [[j account]|] eqn:Hfind;
    [|done].
  apply list_find_Some in Hfind as (Hj & Hid & _).
  unfold decrypt. repeat (rewrite bind_eq; simpl).
  destruct (cipher (env w) !! acc_authKey account) as [authKey|] eqn:Hc; [|done].
  unfold mret at 1, M_ret at 1. rewrite bind_eq, ApiFacts.updateAddons_eq. simpl.
  destruct (fault (nextEvent (env w))); [done|].
  destruct (remote (env w) !! authKey); [|done].
  repeat (rewrite bind_eq; simpl). rewrite ?persistAccounts_eq. simpl.
  match goal with |- context [fault ?ev] => destruct (fault ev) end; [done|].
  simpl. intros [= <-]. simpl. exists account, authKey.
  split_and!; [by eapply list_elem_of_lookup_2|done|done| | | |].
  - by rewrite lookup_insert_eq.
  - by rewrite <-app_assoc.
  - eapply Forall_impl; [apply replaceAccount_those|].
    simpl. intros a Ha Hi. by rewrite (Ha Hi).
  - intros j' a Hj' Hne. by apply replaceAccount_others.
Qed.

End AccountFacts.

(** ** The auth store *)

Module AuthFacts.
Import AuthStoreOps AuthAux.

Section WithCrypto.
Context {V Salt : Type} `{!CryptoLib V Salt}.
Variable wipeAllData : M (AuthWorld V) unit.

(** X26. The auth store rejects before it acts.  A password of fewer than 8
    characters makes [setupMasterPassword] and [resetMasterPassword] throw
    with the state as it was: no data is wiped.  [unlock] throws
    ['Master password not set up'] when the salt or the hash is missing or
    the hash is empty, and changes nothing. *)
Theorem auth_rejections (password : string) (a : AuthWorld V) :
  (String.length password < 8 ->
   setupMasterPassword wipeAllData password a =
     (Throw "Password must be at least 8 characters", a) /\
   resetMasterPassword wipeAllData password a =
     (Throw "Password must be at least 8 characters", a)) /\
  (loadSalt (vault a) = None \/ loadPasswordHash (vault a) = None \/
   loadPasswordHash (vault a) = Some "" ->
   unlock password a = (Throw "Master password not set up", a)).
Proof.
  split.
  - intros Hshort. unfold setupMasterPassword, resetMasterPassword.
    by destruct (decide (String.length password < 8)).
  - intros Hmissing. unfold unlock. repeat (rewrite bind_eq; simpl).
    destruct (loadSalt (vault a)) as [salt|], (loadPasswordHash (vault a)) as [h|];
      try done.
    destruct (decide (h = "")); [done|]. by destruct Hmissing as [?|[?|[= ?]]].
Qed.

(** X27. Over a storage that gives back what was saved, a
    [setupMasterPassword] that returns was given a password of at least 8
    characters and leaves the app unlocked with the key derived from the
    password and the stored salt.  [lock] then removes the key; [unlock]
    with the same password returns [true] and brings back the same key,
    while a password with another hash returns [false] and leaves the app
    locked, as it was. *)
Theorem setup_lock_unlock (password other : string) (a a1 : AuthWorld V) :
  StorageLaws V Salt ->
  setupMasterPassword wipeAllData password a = (Ok tt, a1) ->
  exists salt a2,
    8 <= String.length password /\
    loadSalt (vault a1) = Some salt /\
    isLocked a1 = false /\
    sessionKey a1 = Some (deriveKey password salt) /\
    lock a1 = (Ok tt, a2) /\
    isLocked a2 = true /\ sessionKey a2 = None /\
    (exists a3,
       unlock password a2 = (Ok true, a3) /\
       isLocked a3 = false /\
       sessionKey a3 = Some (deriveKey password salt)) /\
    (hashPassword other salt <> hashPassword password salt ->
     unlock other a2 = (Ok false, a2)).
Proof.
  intros laws. unfold setupMasterPassword.
  destruct (decide (String.length password < 8)) as [|Hlen]; [done|].
  rewrite bind_eq. destruct (wipeAllData a) as [[[]|e] a0]; [|done].
  repeat (rewrite bind_eq; simpl). intros [= <-].
  set (salt := generateSalt (vault a0)).
  exists salt. eexists. unfold sessionKey. simpl.
  rewrite (salt_kept_session laws), (salt_kept_hash laws), (salt_saved laws).
  split_and!; [lia|done|done|done| | | | |].
  - unfold lock. repeat (rewrite bind_eq; simpl). reflexivity.
  - done.
  - done.
  - unfold unlock. repeat (rewrite bind_eq; simpl).
    rewrite (salt_kept_clear laws), (salt_kept_session laws),
      (salt_kept_hash laws), (salt_saved laws),
      (hash_kept_clear laws), (hash_kept_session laws), (hash_saved laws).
    destruct (decide (hashPassword password salt = "")) as [Hempty|_];
      [by destruct (hash_not_empty laws password salt)|].
    destruct (decide (hashPassword password salt <> hashPassword password salt));
      [done|].
    repeat (rewrite bind_eq; simpl). eexists. by split_and!.
  - intros Hother. unfold unlock. repeat (rewrite bind_eq; simpl).
    rewrite (salt_kept_clear laws), (salt_kept_session laws),
      (salt_kept_hash laws), (salt_saved laws),
      (hash_kept_clear laws), (hash_kept_session laws), (hash_saved laws).
    destruct (decide (hashPassword password salt = "")) as [Hempty|_];
      [by destruct (hash_not_empty laws password salt)|].
    by destruct (decide (hashPassword other salt <> hashPassword password salt)).
Qed.

(** X28. The session outlives the memory of the store, the lock does not.
    After a [setupMasterPassword] that returned, [initialize] on a store
    that has only the storage left unlocks it with the same key; after
    [lock] it leaves the store locked and sets no key. *)
Theorem session_survives_restart (password : string) (a a1 : AuthWorld V) :
  StorageLaws V Salt ->
  setupMasterPassword wipeAllData password a = (Ok tt, a1) ->
  (forall b, vault b = vault a1 ->
   exists b',
     initialize b = (Ok tt, b') /\
     isLocked b' = false /\ sessionKey b' = sessionKey a1) /\
  (forall b, vault b = vault (lock a1).2 ->
   exists b',
     initialize b = (Ok tt, b') /\
     isLocked b' = true /\ sessionKey b' = sessionKey b).
Proof.
  intros laws. unfold setupMasterPassword.
  destruct (decide (String.length password < 8)) as [|Hlen]; [done|].
  rewrite bind_eq. destruct (wipeAllData a) as [[[]|e] a0]; [|done].
  repeat (rewrite bind_eq; simpl). intros [= <-]. unfold sessionKey. simpl. split.
  - intros b Hb. unfold initialize. rewrite bind_eq. simpl. rewrite Hb.
    rewrite (setup_kept_session laws), (setup_seen laws). simpl.
    rewrite bind_eq. simpl. rewrite Hb, (session_saved laws).
    eexists. by split_and!.
  - unfold lock. repeat (rewrite bind_eq; simpl). intros b Hb.
    unfold initialize. rewrite bind_eq. simpl. rewrite Hb.
    rewrite (setup_kept_clear laws), (setup_kept_session laws), (setup_seen laws).
    simpl. rewrite bind_eq. simpl. rewrite Hb, (session_cleared laws).
    eexists. by split_and!.
Qed.

End WithCrypto.

End AuthFacts.

(** ** Instances of the further properties *)

Module MoreInstances.
Import Fixtures MoreFixtures FrameAux Api.

Lemma fetchAddonManifest_descriptor_witness :
  transportUrl fetchedB = urlB /\ flags fetchedB = None /\
  transportName fetchedB = None /\
  served (env wServed) !! urlB = Some (manifest fetchedB) /\
  m_id (manifest fetchedB) <> "" /\ m_name (manifest fetchedB) <> "" /\
  m_version (manifest fetchedB) <> "".
Proof.
  eapply (FetchFacts.fetchAddonManifest_descriptor urlB wServed).
  vm_compute. reflexivity.
Defined.


Lemma installAddon_in_place_witness :
  exists m current,
    served (env wServed) !! urlB = Some m /\
    remote (env wServed) !! "key1" = Some current /\
    remote (env (installAddon "key1" urlB wServed).2) !! "key1" =
      Some [addonA; fetchedB] /\
    (exists i, list_find (fun a => addon_id a = m_id m) [addonA; fetchedB] =
                 Some (i, fetched urlB m)) /\
    (forall j a, current !! j = Some a -> addon_id a <> m_id m ->
       [addonA; fetchedB] !! j = Some a) /\
    (m_id m ∈ addon_id <$> current ->
       addon_id <$> [addonA; fetchedB] = addon_id <$> current) /\
    (m_id m ∉ addon_id <$> current ->
       [addonA; fetchedB] = current ++ [fetched urlB m]) /\
    (NoDup (addon_id <$> current) -> NoDup (addon_id <$> [addonA; fetchedB])).
Proof.
  apply (InstallFacts.installAddon_in_place "key1" urlB wServed).
  vm_compute. reflexivity.
Defined.

Lemma installAddon_twice_witness :
  [addonA; fetchedB] = [addonA; fetchedB] /\
  remote (env (installAddon "key1" urlB (installAddon "key1" urlB wServed).2).2) =
    remote (env (installAddon "key1" urlB wServed).2).
Proof.
  apply (InstallFacts.installAddon_twice "key1" urlB wServed).
  - vm_compute. reflexivity.
  - vm_compute. reflexivity.
Defined.

Lemma reinstallAddon_keeps_position_witness :
  exists w',
    reinstallAddon "key1" "org.c" wReinstall =
      (Ok {| rr_addons := <[0 := fetched (transportUrl addonC)
                                    (mkManifest "org.c" "org.c" "1.0.0")]>
                            [addonC; addonB];
             rr_updatedAddon :=
               Some (fetched (transportUrl addonC) (mkManifest "org.c" "org.c" "1.0.0"));
             rr_previousVersion := Some (m_version (manifest addonC));
             rr_newVersion := Some (m_version (mkManifest "org.c" "org.c" "1.0.0")) |},
       w') /\
    remote (env w') !! "key1" =
      Some (<[0 := fetched (transportUrl addonC)
                     (mkManifest "org.c" "org.c" "1.0.0")]> [addonC; addonB]) /\
    length (<[0 := fetched (transportUrl addonC)
                     (mkManifest "org.c" "org.c" "1.0.0")]> [addonC; addonB]) =
      length [addonC; addonB].
Proof.
  apply (InstallFacts.reinstallAddon_keeps_position "key1" "org.c" wReinstall
           [addonC; addonB] 0 addonC (mkManifest "org.c" "org.c" "1.0.0")).
  - apply Forall_nil_2.
  - reflexivity.
  - refine (bool_decide_unpack (NoDup (addon_id <$> [addonC; addonB])) _).
    vm_compute. exact I.
  - reflexivity.
  - reflexivity.
  - reflexivity.
  - reflexivity.
  - vm_compute. by split_and!.
  - reflexivity.
Defined.

Lemma reinstallAddon_not_atomic_witness :
  exists w',
    reinstallAddon "key1" "org.b" wGone =
      (Throw "Addon manifest not found at this URL", w') /\
    remote (env w') !! "key1" =
      Some (filter (fun b => addon_id b <> "org.b") [addonC; addonB]) /\
    ("org.b" ∉ addon_id <$> filter (fun b => addon_id b <> "org.b") [addonC; addonB]) /\
    calls (env w') =
      calls (env wGone) ++
        [AddonCollectionGet "key1"; AddonCollectionGet "key1";
         AddonCollectionSet "key1"
           (filter (fun b => addon_id b <> "org.b") [addonC; addonB]);
         ManifestGet (transportUrl addonB)].
Proof.
  apply (InstallFacts.reinstallAddon_not_atomic "key1" "org.b" wGone
           [addonC; addonB] 1 addonB).
  - reflexivity.
  - reflexivity.
  - vm_compute. reflexivity.
  - reflexivity.
Defined.

Lemma checkSavedAddonUpdates_complete_witness :
  exists results w',
    ApiMore.checkSavedAddonUpdates [savedB; savedC] wServed = (Ok results, w') /\
    ui_addonId <$> results = sa_id <$> [savedB; savedC] /\
    calls (env w') =
      calls (env wServed) ++
        ([savedB; savedC] ≫= fun s => [ManifestGet (sa_installUrl s);
                                        HealthProbe (sa_installUrl s)]).
Proof.
  apply (ApiMoreFacts.checkSavedAddonUpdates_complete [savedB; savedC] wServed).
  - apply Forall_nil_2.
  - repeat constructor.
    + exists (mkManifest "org.b" "org.b" "1.1.0"). by split.
    + exists (mkManifest "org.c" "org.c" "1.0.0"). by split.
Defined.

Lemma checkAddonUpdates_policy_witness :
  up wServed /\
  Forall (fun a => exists m, served (env wServed) !! transportUrl a = Some m /\
                             validManifest m)
         (ApiMoreAux.checkedOf [addonA; addonB; addonC; addonD]) /\
  exists results w',
    checkAddonUpdates [addonA; addonB; addonC; addonD] wServed = (Ok results, w') /\
    Forall2 (fun a r =>
               exists m, served (env wServed) !! transportUrl a = Some m /\
                 r = ApiAux.updateInfo a (fetched (transportUrl a) m)
                       (default false (online (env wServed) !! transportUrl a)))
            [addonB; addonC] results /\
    ui_hasUpdate <$> results = [true; false] /\
    calls (env w') =
      [ManifestGet urlB; HealthProbe urlB; ManifestGet urlC; HealthProbe urlC].
Proof.
  assert (Hup : up wServed) by apply Forall_nil_2.
  assert (Hall : Forall (fun a => exists m,
                    served (env wServed) !! transportUrl a = Some m /\
                    validManifest m)
                  (ApiMoreAux.checkedOf [addonA; addonB; addonC; addonD])).
  { repeat constructor.
    - exists (mkManifest "org.b" "org.b" "1.1.0"). by split.
    - exists (mkManifest "org.c" "org.c" "1.0.0"). by split. }
  split; [exact Hup|]. split; [exact Hall|].
  destruct (PolicyFacts.checkAddonUpdates_policy [addonA; addonB; addonC; addonD] wServed)
    as (_ & results & w' & runs & Hrun & _ & _ & _ & _ & Hcomplete).
  destruct (Hcomplete Hup Hall) as [Hentries _].
  exists results, w'. split; [exact Hrun|]. split; [exact Hentries|].
  assert (Hres : results =
            match (checkAddonUpdates [addonA; addonB; addonC; addonD] wServed).1 with
            | Ok l => l
            | Throw _ => []
            end) by (by rewrite Hrun).
  assert (Hw : w' = (checkAddonUpdates [addonA; addonB; addonC; addonD] wServed).2)
    by (by rewrite Hrun).
  rewrite Hres, Hw. split; vm_compute; reflexivity.
Defined.

Lemma syncAllAccounts_loading_witness :
  NoDup (acc_id <$> accounts (accountStore wAway)) /\
  exists w',
    AccountStoreMore.syncAllAccounts wAway = (Ok tt, w') /\
    calls (env w') = [AddonCollectionGet "key1"; SaveAccounts] /\
    Forall2 (fun a a' => AccountAux.syncedFrom wAway a a a')
            [away; home] (accounts (accountStore w')) /\
    acc_status <$> accounts (accountStore w') = [InError; Active] /\
    as_loading (accountStore w') = false.
Proof.
  assert (Hnodup : NoDup (acc_id <$> accounts (accountStore wAway))).
  { refine (bool_decide_unpack _ _). vm_compute. exact I. }
  split; [exact Hnodup|].
  destruct (AccountFacts.syncAllAccounts_loading wAway)
    as (r & w' & Hrun & _ & _ & _ & _ & _ & Hend & Hsynced).
  change (fault (AccountAux.eventAt (length (AccountAux.readableKeys wAway)) wAway))
    with (@None Fault) in Hend.
  destruct Hend as [-> Hloading].
  exists w'. split; [exact Hrun|].
  assert (Hw : w' = (AccountStoreMore.syncAllAccounts wAway).2) by (by rewrite Hrun).
  split_and!; [|exact (Hsynced Hnodup)| |exact Hloading];
    rewrite Hw; vm_compute; reflexivity.
Defined.

Lemma tag_operations_need_a_match_witness :
  LibraryOps.applyTagToAccount asGiven "other" "acc1" "enc1" ReplaceMatching wCalm =
    (Throw ("No saved addons found with tag: " +:+ "other"), wCalm) /\
  LibraryOps.applyTagToAccounts asGiven "other" [account1] ReplaceMatching wCalm =
    (Throw ("No saved addons found with tag: " +:+ "other"), wCalm) /\
  LibraryOps.bulkApplyTag asGiven "other" [account1] ReplaceMatching wCalm =
    (Throw ("No saved addons found with tag: " +:+ "other"), wCalm) /\
  LibraryOps.bulkRemoveByTag asGiven "other" [account1] wCalm =
    (Throw ("No saved addons found with tag: " +:+ "other"), wCalm).
Proof.
  apply (LibraryFacts.tag_operations_need_a_match asGiven "other" "acc1" "enc1"
           [account1] ReplaceMatching wCalm).
  intros k s Hk. change (({[ "s1" := savedB ]} : gmap string SavedAddon) !! k = Some s) in Hk.
  apply lookup_singleton_Some in Hk as [_ <-]. by repeat constructor.
Defined.

Lemma renameTag_moves_tag_witness :
  LibraryOps.getSavedAddonsByTag asGiven "tag"
    (LibraryOps.renameTag asGiven "tag" "fav" wCalm).2 = [] /\
  forall k,
    match library (addonStore wCalm) !! k with
    | None =>
        library (addonStore (LibraryOps.renameTag asGiven "tag" "fav" wCalm).2) !! k
          = None
    | Some s =>
        exists s',
          library (addonStore (LibraryOps.renameTag asGiven "tag" "fav" wCalm).2) !! k
            = Some s' /\
          sa_id s' = sa_id s /\
          length (sa_tags s') = length (sa_tags s) /\
          (LibraryOps.hasTag asGiven (asGiven "tag") s ->
           LibraryOps.hasTag asGiven (asGiven "fav") s') /\
          (~ LibraryOps.hasTag asGiven (asGiven "tag") s -> s' = s)
    end.
Proof.
  apply (LibraryFacts.renameTag_moves_tag asGiven "tag" "fav" wCalm).
  - reflexivity.
  - discriminate.
  - intros k s Hk.
    change (({[ "s1" := savedB ]} : gmap string SavedAddon) !! k = Some s) in Hk.
    apply lookup_singleton_Some in Hk as [_ <-].
    refine (bool_decide_unpack (NoDup (asGiven <$> sa_tags savedB)) _).
    vm_compute. exact I.
  - vm_compute. reflexivity.
Defined.

Lemma bulkRemoveAddons_locked_witness :
  exists w',
    AddonStoreOps.bulkRemoveAddons ["org.b"] [account1; account2] wLocked =
      (Ok {| success := 0; failed := length [account1; account2];
             errors := lockedErrors [account1; account2]; details := [] |}, w') /\
    env w' = env wLocked /\
    accountStore w' = accountStore wLocked /\
    library (addonStore w') = library (addonStore wLocked) /\
    accountStates (addonStore w') = accountStates (addonStore wLocked) /\
    loading (addonStore w') = false /\
    error (addonStore w') = None.
Proof.
  apply (StoreFacts.bulkRemoveAddons_locked ["org.b"] [account1; account2] wLocked).
  reflexivity.
Defined.

Lemma bulkApply_nothing_resolved_witness :
  exists w',
    AddonStoreOps.bulkApplySavedAddons ["nope"] [account1] ReplaceMatching wCalm =
      (Throw "No valid saved addons found", w') /\
    env w' = env wCalm /\
    accountStore w' = accountStore wCalm /\
    library (addonStore w') = library (addonStore wCalm) /\
    accountStates (addonStore w') = accountStates (addonStore wCalm) /\
    loading (addonStore w') = false /\
    error (addonStore w') = Some "No valid saved addons found".
Proof.
  apply (StoreFacts.bulkApply_nothing_resolved ["nope"] [account1] ReplaceMatching wCalm).
  constructor; [|constructor]. split; [reflexivity|].
  refine (bool_decide_unpack _ _). vm_compute. exact I.
Defined.

Lemma deleteSavedAddon_removes_witness :
  exists r w',
    LibraryOps.deleteSavedAddon "s1" wCalm = (r, w') /\
    LibraryOps.getSavedAddon "s1" w' = None /\
    (forall k, k <> "s1" ->
       LibraryOps.getSavedAddon k w' = LibraryOps.getSavedAddon k wCalm) /\
    accountStates (addonStore w') = accountStates (addonStore wCalm) /\
    calls (env w') = calls (env wCalm) ++ [SaveAddonLibrary] /\
    (r = Ok tt <-> fault (nextEvent (env wCalm)) = None).
Proof.
  apply (LibraryFacts.deleteSavedAddon_removes "s1" wCalm).
  refine (bool_decide_unpack _ _). vm_compute. exact I.
Defined.

Lemma updateSavedAddon_frame_witness :
  exists r w' s',
    LibraryOps.updateSavedAddon asGiven asGiven "s1" renamed wCalm = (r, w') /\
    LibraryOps.getSavedAddon "s1" w' = Some s' /\
    sa_installUrl s' = "https://b.example/manifest.json" /\
    sa_name s' = "B" /\
    calls (env w') = calls (env wCalm) ++ [SaveAddonLibrary].
Proof.
  destruct (LibraryFacts.updateSavedAddon_frame asGiven asGiven "s1" renamed wCalm)
    as (r & w' & Hrun & _ & _ & Hentry).
  { refine (bool_decide_unpack _ _). vm_compute. exact I. }
  change (LibraryOps.getSavedAddon "s1" wCalm) with (Some savedB) in Hentry.
  destruct Hentry as (s' & Hs' & _ & Hurl & _ & _ & _ & _ & Hname & _ & Hcalls).
  exists r, w', s'. by split_and!.
Defined.

Lemma applySavedAddonToAccount_applies_witness :
  exists s authKey current st now,
    library (addonStore wCalm) !! "s1" = Some s /\
    cipher (env wCalm) !! "enc1" = Some authKey /\
    remote (env wCalm) !! authKey = Some current /\
    (Merger.mergeAddons [addonA; addonB] [savedB] ReplaceMatching).2 =
      (Merger.mergeAddons current [s] ReplaceMatching).2 /\
    remote (env (LibraryOps.applySavedAddonToAccount "s1" "acc1" "enc1"
                   ReplaceMatching wCalm).2) !! authKey =
      Some (Merger.mergeAddons current [s] ReplaceMatching).1 /\
    library (addonStore (LibraryOps.applySavedAddonToAccount "s1" "acc1" "enc1"
                           ReplaceMatching wCalm).2) =
      <[ "s1" := AddonStoreOps.withLastUsed now s]> (library (addonStore wCalm)) /\
    clock (env wCalm) <= now <=
      clock (env (LibraryOps.applySavedAddonToAccount "s1" "acc1" "enc1"
                    ReplaceMatching wCalm).2) /\
    accountStates (addonStore (LibraryOps.applySavedAddonToAccount "s1" "acc1" "enc1"
                                 ReplaceMatching wCalm).2) !! "acc1" = Some st /\
    ia_addonId <$> st_installedAddons st =
      addon_id <$> (Merger.mergeAddons current [s] ReplaceMatching).1 /\
    loading (addonStore (LibraryOps.applySavedAddonToAccount "s1" "acc1" "enc1"
                           ReplaceMatching wCalm).2) = false /\
    error (addonStore (LibraryOps.applySavedAddonToAccount "s1" "acc1" "enc1"
                         ReplaceMatching wCalm).2) = None.
Proof.
  apply (StoreFacts.applySavedAddonToAccount_applies "s1" "acc1" "enc1"
           ReplaceMatching wCalm).
  vm_compute. reflexivity.
Defined.

Lemma installAddonToAccount_mirrors_witness :
  exists account authKey updated,
    account ∈ accounts (accountStore wHome) /\ acc_id account = "acc1" /\
    cipher (env wHome) !! acc_authKey account = Some authKey /\
    remote (env (AccountStoreMore.installAddonToAccount "acc1" urlC wHome).2)
      !! authKey = Some updated /\
    (exists m i, served (env wHome) !! urlC = Some m /\
       list_find (fun a => addon_id a = m_id m) updated =
         Some (i, fetched urlC m)) /\
    Forall (fun a => acc_id a = "acc1" ->
              acc_addons a = AccountStoreOps.normalizeAddon <$> updated)
           (accounts (accountStore
              (AccountStoreMore.installAddonToAccount "acc1" urlC wHome).2)) /\
    (forall j a, accounts (accountStore wHome) !! j = Some a -> acc_id a <> "acc1" ->
       accounts (accountStore
         (AccountStoreMore.installAddonToAccount "acc1" urlC wHome).2) !! j = Some a) /\
    as_loading (accountStore
      (AccountStoreMore.installAddonToAccount "acc1" urlC wHome).2) = false /\
    as_error (accountStore
      (AccountStoreMore.installAddonToAccount "acc1" urlC wHome).2) = None.
Proof.
  apply (AccountFacts.installAddonToAccount_mirrors "acc1" urlC wHome).
  vm_compute. reflexivity.
Defined.

Lemma reorderAddons_writes_as_given_witness :
  exists account authKey,
    account ∈ accounts (accountStore wHome) /\ acc_id account = "acc1" /\
    cipher (env wHome) !! acc_authKey account = Some authKey /\
    remote (env (AccountStoreMore.reorderAddons "acc1" [addonB] wHome).2)
      !! authKey = Some [addonB] /\
    calls (env (AccountStoreMore.reorderAddons "acc1" [addonB] wHome).2) =
      calls (env wHome) ++ [AddonCollectionSet authKey [addonB]; SaveAccounts] /\
    Forall (fun a => acc_id a = "acc1" -> acc_addons a = [addonB])
           (accounts (accountStore
              (AccountStoreMore.reorderAddons "acc1" [addonB] wHome).2)) /\
    (forall j a, accounts (accountStore wHome) !! j = Some a -> acc_id a <> "acc1" ->
       accounts (accountStore
         (AccountStoreMore.reorderAddons "acc1" [addonB] wHome).2) !! j = Some a).
Proof.
  apply (AccountFacts.reorderAddons_writes_as_given "acc1" [addonB] wHome).
  vm_compute. reflexivity.
Defined.

(** The toy storage gives back what was saved. *)
Lemma toyLaws : AuthAux.StorageLaws ToyVault string.
Proof. by constructor. Qed.

Lemma auth_rejections_witness :
  (AuthStoreOps.setupMasterPassword toyWipe "short" aFresh =
     (Throw "Password must be at least 8 characters", aFresh) /\
   AuthStoreOps.resetMasterPassword toyWipe "short" aFresh =
     (Throw "Password must be at least 8 characters", aFresh)) /\
  AuthStoreOps.unlock "short" aFresh = (Throw "Master password not set up", aFresh).
Proof.
  destruct (AuthFacts.auth_rejections toyWipe "short" aFresh) as [Hshort Hmissing].
  split.
  - apply Hshort. vm_compute. lia.
  - apply Hmissing. left. reflexivity.
Defined.

Lemma setup_lock_unlock_witness :
  exists salt a2,
    8 <= String.length "correct horse" /\
    AuthStoreOps.loadSalt
      (AuthStoreOps.vault
         (AuthStoreOps.setupMasterPassword toyWipe "correct horse" aFresh).2)
      = Some salt /\
    AuthStoreOps.isLocked
      (AuthStoreOps.setupMasterPassword toyWipe "correct horse" aFresh).2 = false /\
    AuthAux.sessionKey
      (AuthStoreOps.setupMasterPassword toyWipe "correct horse" aFresh).2
      = Some (AuthStoreOps.deriveKey "correct horse" salt) /\
    AuthStoreOps.lock
      (AuthStoreOps.setupMasterPassword toyWipe "correct horse" aFresh).2
      = (Ok tt, a2) /\
    AuthStoreOps.isLocked a2 = true /\ AuthAux.sessionKey a2 = None /\
    (exists a3,
       AuthStoreOps.unlock "correct horse" a2 = (Ok true, a3) /\
       AuthStoreOps.isLocked a3 = false /\
       AuthAux.sessionKey a3 = Some (AuthStoreOps.deriveKey "correct horse" salt)) /\
    (AuthStoreOps.hashPassword "wrong horse" salt <>
       AuthStoreOps.hashPassword "correct horse" salt ->
     AuthStoreOps.unlock "wrong horse" a2 = (Ok false, a2)).
Proof.
  apply (AuthFacts.setup_lock_unlock toyWipe "correct horse" "wrong horse" aFresh).
  - exact toyLaws.
  - vm_compute. reflexivity.
Defined.

Lemma session_survives_restart_witness :
  (forall b,
     AuthStoreOps.vault b =
       AuthStoreOps.vault
         (AuthStoreOps.setupMasterPassword toyWipe "correct horse" aFresh).2 ->
     exists b',
       AuthStoreOps.initialize b = (Ok tt, b') /\
       AuthStoreOps.isLocked b' = false /\
       AuthAux.sessionKey b' =
         AuthAux.sessionKey
           (AuthStoreOps.setupMasterPassword toyWipe "correct horse" aFresh).2) /\
  (forall b,
     AuthStoreOps.vault b =
       AuthStoreOps.vault
         (AuthStoreOps.lock
            (AuthStoreOps.setupMasterPassword toyWipe "correct horse" aFresh).2).2 ->
     exists b',
       AuthStoreOps.initialize b = (Ok tt, b') /\
       AuthStoreOps.isLocked b' = true /\
       AuthAux.sessionKey b' = AuthAux.sessionKey b).
Proof.
  apply (AuthFacts.session_survives_restart toyWipe "correct horse" aFresh).
  - exact toyLaws.
  - vm_compute. reflexivity.
Defined.

End MoreInstances.
